(** * CardView: the timeline engine and the status ranking engine

    A shallow embedding of [timeline.py] (class [Timeline]) and of the
    ranking half of [status_person.py] ([get_status_ranking] and the
    collectors below it), together with the properties the specification
    states about them.

    Python exceptions are values of [result]; instance state of [Timeline]
    is a record threaded through every method; the Gramps library (event
    types, dates, the relationship calculator, the store) is represented by
    small records and by the variables of the section [Engine]. *)

From Stdlib Require Import Ascii String.
From stdpp Require Import gmap strings list sorting.

Set Default Proof Using "Type".

Local Open Scope string_scope.
Local Open Scope Z_scope.
Local Open Scope list_scope.

(** ** Exceptions *)

Inductive exn : Type :=
  | HandleError      (* a handle does not resolve in the store *)
  | ValueError       (* bad literal, bad filter token, bad unpacking *)
  | AttributeError   (* attribute access on None *)
  | IndexError       (* list index out of range *)
  | TypeError        (* subscript of None *)
  | RecursionError.  (* the interpreter's recursion limit was reached *)

Inductive result (A : Type) : Type :=
  | Ok (a : A)
  | Raise (e : exn).

Arguments Ok {A} a.
Arguments Raise {A} e.

#[export] Instance result_ret : MRet result := fun A a => Ok a.

#[export] Instance result_bind : MBind result := fun A B f m =>
  match m with
  | Ok a => f a
  | Raise e => Raise e
  end.

Definition of_option {A : Type} (e : exn) (o : option A) : result A :=
  match o with
  | Some a => Ok a
  | None => Raise e
  end.

(** A [for] loop whose body may raise: the accumulator is threaded from
    left to right and the first exception ends the loop. *)
Fixpoint for_each {A S : Type} (body : S → A → result S) (s : S) (l : list A)
  : result S :=
  match l with
  | [] => Ok s
  | x :: l' => s' ← body s x; for_each body s' l'
  end.

(** ** Python strings *)

(** [x in l] on a list of strings. *)
Definition py_in (x : string) (l : list string) : bool := bool_decide (x ∈ l).

(** [sub in s] on strings: substring test. *)
Fixpoint str_contains (sub s : string) : bool :=
  String.prefix sub s ||
  match s with
  | EmptyString => false
  | String _ s' => str_contains sub s'
  end.

(** [s.split(sep)] for a one-character separator. *)
Fixpoint str_split (sep : ascii) (s : string) : list string :=
  match s with
  | EmptyString => [EmptyString]
  | String c s' =>
      if Ascii.eqb c sep then EmptyString :: str_split sep s'
      else match str_split sep s' with
           | [] => [String c EmptyString]
           | w :: ws => String c w :: ws
           end
  end.

(** [s.lower()], on the ASCII letters. *)
Definition ascii_lower (c : ascii) : ascii :=
  let n := nat_of_ascii c in
  if (Nat.leb 65 n && Nat.leb n 90)%bool then ascii_of_nat (n + 32) else c.

Fixpoint str_lower (s : string) : string :=
  match s with
  | EmptyString => EmptyString
  | String c s' => String (ascii_lower c) (str_lower s')
  end.

(** [s.replace(old, new)] for a non-empty [old]: occurrences are replaced
    from the left and do not overlap; [skip] counts the characters of a
    matched occurrence that are still to be dropped. *)
Fixpoint str_replace_from (skip : nat) (old new s : string) : string :=
  match s with
  | EmptyString => EmptyString
  | String c s' =>
      match skip with
      | S k => str_replace_from k old new s'
      | O =>
          if String.prefix old s
          then new +:+ str_replace_from (Nat.pred (String.length old)) old new s'
          else String c (str_replace_from O old new s')
      end
  end.

Definition str_replace (old new s : string) : string :=
  str_replace_from O old new s.

(** ** The Gramps objects the engines read *)

Definition Handle := string.

(** [gramps.gen.lib.EventType] (Gramps 5.1, the version the plugin
    registers for): the standard types the two modules and the predicates
    they call tell apart, and [OTHER] for every other standard or custom
    type, carrying its XML (English) name. *)
Inductive EventType : Type :=
  | BIRTH | DEATH | MARRIAGE | DIVORCE
  | BURIAL | CREMATION | CAUSE_DEATH | PROBATE
  | CHRISTEN | BAPTISM
  | OTHER (xml : string).

#[export] Instance EventType_eq_dec : EqDecision EventType.
Proof. solve_decision. Defined.

Definition xml_str (t : EventType) : string :=
  match t with
  | BIRTH => "Birth" | DEATH => "Death"
  | MARRIAGE => "Marriage" | DIVORCE => "Divorce"
  | BURIAL => "Burial" | CREMATION => "Cremation"
  | CAUSE_DEATH => "Cause Of Death" | PROBATE => "Probate"
  | CHRISTEN => "Christening" | BAPTISM => "Baptism"
  | OTHER xml => xml
  end.

Definition is_birth (t : EventType) : bool := bool_decide (t = BIRTH).
Definition is_death (t : EventType) : bool := bool_decide (t = DEATH).
Definition is_marriage (t : EventType) : bool := bool_decide (t = MARRIAGE).
Definition is_divorce (t : EventType) : bool := bool_decide (t = DIVORCE).

Definition is_birth_fallback (t : EventType) : bool :=
  bool_decide (t ∈ [CHRISTEN; BAPTISM]).

(** [event_type in [EventType.BIRTH, EventType.DEATH]] *)
Definition is_vital (t : EventType) : bool := bool_decide (t ∈ [BIRTH; DEATH]).

Definition DEATH_INDICATORS : list EventType :=
  [DEATH; BURIAL; CREMATION; CAUSE_DEATH; PROBATE].

Definition RELATIVES : list string :=
  ["father"; "mother"; "brother"; "sister"; "wife"; "husband"; "son";
   "daughter"].

Definition EVENT_CATEGORIES : list string :=
  ["vital"; "family"; "religious"; "vocational"; "academic"; "travel";
   "legal"; "residence"; "other"; "custom"].

(** [gramps.gen.lib.Date]: only the sort value is read. A sort value of 0
    is what an absent date has. *)
Record Date : Type := { sortval : Z }.

Record Citation : Type := { confidence : Z }.

(** Interfaces shared by several Gramps classes. *)
Class HasHandle (A : Type) := handle : A → Handle.
Class HasRef (A : Type) := ref : A → Handle.
Class HasCitations (A : Type) := get_citation_list : A → list Handle.

Record EventRef : Type := { event_ref_target : Handle }.

Record ChildRef : Type := {
  child_ref_target : Handle;
  child_ref_citations : list Handle }.

#[export] Instance EventRef_ref : HasRef EventRef := event_ref_target.
#[export] Instance ChildRef_ref : HasRef ChildRef := child_ref_target.
#[export] Instance ChildRef_citations : HasCitations ChildRef :=
  child_ref_citations.

(** Names, ordinances, attributes, associations, addresses and media
    references: the ranking reads nothing of them but their citations. *)
Record Secondary : Type := { secondary_citations : list Handle }.

#[export] Instance Secondary_citations : HasCitations Secondary :=
  secondary_citations.

Record Event : Type := {
  event_handle : Handle;
  type : EventType;
  date : Date;
  description : string;
  event_citations : list Handle }.

#[export] Instance Event_handle : HasHandle Event := event_handle.
#[export] Instance Event_citations : HasCitations Event := event_citations.

Record Person : Type := {
  person_handle : Handle;
  person_event_ref_list : list EventRef;
  family_list : list Handle;
  parent_family_list : list Handle;
  birth_ref : option EventRef;
  death_ref : option EventRef;
  primary_name : Secondary;
  alternate_names : list Secondary;
  person_lds_ord_list : list Secondary;
  person_attribute_list : list Secondary;
  person_ref_list : list Secondary;
  address_list : list Secondary;
  person_media_list : list Secondary;
  person_citations : list Handle }.

#[export] Instance Person_handle : HasHandle Person := person_handle.
#[export] Instance Person_citations : HasCitations Person := person_citations.

Record Family : Type := {
  family_handle : Handle;
  father_handle : option Handle;
  mother_handle : option Handle;
  child_ref_list : list ChildRef;
  family_event_ref_list : list EventRef;
  family_lds_ord_list : list Secondary;
  family_attribute_list : list Secondary;
  family_media_list : list Secondary;
  family_citations : list Handle }.

#[export] Instance Family_handle : HasHandle Family := family_handle.
#[export] Instance Family_citations : HasCitations Family := family_citations.

(** Truth value of an optional handle: [None] and the empty string are
    false. *)
Definition handle_set (h : option Handle) : option Handle :=
  match h with
  | Some s => if bool_decide (s = "") then None else Some s
  | None => None
  end.

(** The read interface of the store ([DbReadBase]). *)
Record Db : Type := {
  person_table : Handle → option Person;
  family_table : Handle → option Family;
  event_table : Handle → option Event;
  citation_table : Handle → option Citation;
  get_event_types : list string }.

Definition get_person_from_handle (db : Db) (h : Handle) : result Person :=
  of_option HandleError (person_table db h).
Definition get_family_from_handle (db : Db) (h : Handle) : result Family :=
  of_option HandleError (family_table db h).
Definition get_event_from_handle (db : Db) (h : Handle) : result Event :=
  of_option HandleError (event_table db h).
Definition get_citation_from_handle (db : Db) (h : Handle) : result Citation :=
  of_option HandleError (citation_table db h).

(** The primary objects the ranking is asked about. *)
Inductive Primary : Type :=
  | PersonObj (p : Person)
  | FamilyObj (f : Family).

Definition get_event_ref_list (obj : Primary) : list EventRef :=
  match obj with
  | PersonObj p => person_event_ref_list p
  | FamilyObj f => family_event_ref_list f
  end.

Definition get_lds_ord_list (obj : Primary) : list Secondary :=
  match obj with
  | PersonObj p => person_lds_ord_list p
  | FamilyObj f => family_lds_ord_list f
  end.

Definition get_attribute_list (obj : Primary) : list Secondary :=
  match obj with
  | PersonObj p => person_attribute_list p
  | FamilyObj f => family_attribute_list f
  end.

Definition get_media_list (obj : Primary) : list Secondary :=
  match obj with
  | PersonObj p => person_media_list p
  | FamilyObj f => family_media_list f
  end.

#[export] Instance Primary_citations : HasCitations Primary := fun obj =>
  match obj with
  | PersonObj p => get_citation_list p
  | FamilyObj f => get_citation_list f
  end.

(** What a row of the object bucket is about. *)
Inductive Ranked : Type :=
  | RankedPrimary (obj : Primary)
  | RankedSecondary (s : Secondary)
  | RankedChildRef (c : ChildRef).

#[export] Instance Ranked_citations : HasCitations Ranked := fun r =>
  match r with
  | RankedPrimary obj => get_citation_list obj
  | RankedSecondary s => get_citation_list s
  | RankedChildRef c => get_citation_list c
  end.

(** Rows of the two buckets, as the tuples of the source. *)
Record ObjectRow : Type := {
  row_obj : Primary;
  row_child_obj : Ranked;
  row_description : string;
  row_total_count : Z;
  row_total_confidence : Z;
  row_highest_confidence : Z }.

Record EventRow : Type := {
  ev_event : Event;
  ev_event_type : EventType;
  ev_primary : bool;
  ev_total_count : Z;
  ev_total_confidence : Z;
  ev_highest_confidence : Z }.

(** ** list.sort(key=...) on keyed rows

    Python's sort is stable and compares the keys only. Insertion from the
    right, each row put before the first row whose key is not smaller, is
    the stable sort on the first component. *)

Fixpoint insert_by_key {A : Type} (x : Z * A) (l : list (Z * A))
  : list (Z * A) :=
  match l with
  | [] => [x]
  | y :: l' => if x.1 <=? y.1 then x :: l else y :: insert_by_key x l'
  end.

Fixpoint sort_by_key {A : Type} (l : list (Z * A)) : list (Z * A) :=
  match l with
  | [] => []
  | x :: l' => insert_by_key x (sort_by_key l')
  end.

Section Engine.

(** ** What the two modules take from outside *)

(** [str(event_type)]: the display name of an event type in the locale. *)
Variable type_str : EventType → string.

(** The translation function [_]. *)
Variable gettext : string → string.

(** [view.common.common_utils.get_confidence]: the label of a confidence
    level. *)
Variable get_confidence : Z → string.

(** ** status_person.py: collecting the buckets *)

(** Examine the citations of an object: their number, the sum of their
    confidences and the highest confidence. *)
Definition get_citation_metrics {A : Type} `{HasCitations A}
    (db : Db) (obj : A) : result (Z * Z * Z) :=
  let citations := get_citation_list obj in
  '(total_confidence, highest_confidence) ←
    for_each
      (λ '(total_confidence, highest_confidence) h,
         citation ← get_citation_from_handle db h;
         Ok (total_confidence + confidence citation,
             if confidence citation >? highest_confidence
             then confidence citation else highest_confidence))
      (0, 0) citations;
  Ok (Z.of_nat (length citations), total_confidence, highest_confidence).

Definition collect_child_object_data (db : Db) (obj : Primary)
    (description : string) (child_list : list Ranked)
    (bucket : list ObjectRow) : result (list ObjectRow) :=
  for_each
    (λ bucket child_obj,
       '(total_count, total_confidence, highest_confidence) ←
         get_citation_metrics db child_obj;
       Ok (bucket ++
           [{| row_obj := obj; row_child_obj := child_obj;
               row_description := description;
               row_total_count := total_count;
               row_total_confidence := total_confidence;
               row_highest_confidence := highest_confidence |}]))
    bucket child_list.

Definition is_person (obj : Primary) : bool :=
  match obj with
  | PersonObj _ => true
  | FamilyObj _ => false
  end.

(** The flag [person] of the source is set inside the branch guarded by
    ["object" in rank_list], so the person-only categories are gated by that
    keyword as well. *)
Definition collect_object_data (db : Db) (obj : Primary)
    (rank_list : list string) (bucket : list ObjectRow)
  : result (list ObjectRow) :=
  let person := py_in "object" rank_list && is_person obj in
  let description :=
    match obj with
    | PersonObj _ => gettext "Person"
    | FamilyObj _ => gettext "Family"
    end in
  let on (cond : bool) (label : string) (children : list Secondary)
         (bucket : list ObjectRow) :=
    if cond
    then collect_child_object_data db obj (gettext label)
           (RankedSecondary <$> children) bucket
    else Ok bucket in
  bucket ← (if py_in "object" rank_list
            then collect_child_object_data db obj description
                   [RankedPrimary obj] bucket
            else Ok bucket);
  bucket ← on (person && py_in "names" rank_list) "Name"
              (match obj with
               | PersonObj p => primary_name p :: alternate_names p
               | FamilyObj _ => []
               end) bucket;
  bucket ← on (py_in "ordinances" rank_list) "Ordinance"
              (get_lds_ord_list obj) bucket;
  bucket ← on (py_in "attributes" rank_list) "Attribute"
              (get_attribute_list obj) bucket;
  bucket ← on (person && py_in "associations" rank_list) "Association"
              (match obj with
               | PersonObj p => person_ref_list p
               | FamilyObj _ => []
               end) bucket;
  bucket ← on (person && py_in "addresses" rank_list) "Address"
              (match obj with
               | PersonObj p => address_list p
               | FamilyObj _ => []
               end) bucket;
  on (py_in "media" rank_list) "Media" (get_media_list obj) bucket.

(** The preferred birth and death event handles; a family has none. *)
Definition get_preferred_vital_handles (obj : Primary) : list Handle :=
  match obj with
  | PersonObj p =>
      match birth_ref p with Some r => [ref r] | None => [] end ++
      match death_ref p with Some r => [ref r] | None => [] end
  | FamilyObj _ => []
  end.

(** One pass of the loop of [collect_event_data]; the state is the pair of
    [seen_list] and the bucket. *)
Definition collect_event_step (db : Db) (vital_handles : list Handle)
    (st : list string * list EventRow) (event_ref : EventRef)
  : result (list string * list EventRow) :=
  let '(seen_list, bucket) := st in
  event ← get_event_from_handle db (ref event_ref);
  let event_type := type event in
  let event_name := xml_str event_type in
  '(total_count, total_confidence, highest_confidence) ←
    get_citation_metrics db event;
  let fresh := negb (py_in event_name seen_list) in
  let primary :=
    fresh && (if is_vital event_type
              then py_in (ref event_ref) vital_handles
              else true) in
  let seen_list := if fresh then seen_list ++ [event_name] else seen_list in
  Ok (seen_list,
      bucket ++
      [{| ev_event := event; ev_event_type := event_type;
          ev_primary := primary; ev_total_count := total_count;
          ev_total_confidence := total_confidence;
          ev_highest_confidence := highest_confidence |}]).

Definition collect_event_data (db : Db) (obj : Primary)
    (bucket : list EventRow) : result (list EventRow) :=
  let vital_handles := get_preferred_vital_handles obj in
  '(_, bucket) ←
    for_each (collect_event_step db vital_handles) ([], bucket)
      (get_event_ref_list obj);
  Ok bucket.

Definition Buckets : Type := list ObjectRow * list EventRow.

(** The scan of a parent family's children for the person: the first
    child reference to the person is ranked and the scan stops. *)
Fixpoint collect_child_ref (db : Db) (family : Family) (person_handle : Handle)
    (child_refs : list ChildRef) (object_bucket : list ObjectRow)
  : result (list ObjectRow) :=
  match child_refs with
  | [] => Ok object_bucket
  | child_ref :: rest =>
      if bool_decide (ref child_ref = person_handle)
      then collect_child_object_data db (FamilyObj family) (gettext "Child")
             [RankedChildRef child_ref] object_bucket
      else collect_child_ref db family person_handle rest object_bucket
  end.

Definition collect_person_data (db : Db) (person : Person)
    (rank_list : list string) (buckets : Buckets) (include_family : bool)
  : result Buckets :=
  let '(object_bucket, events_bucket) := buckets in
  let person_handle := handle person in
  object_bucket ←
    collect_object_data db (PersonObj person) rank_list object_bucket;
  events_bucket ← collect_event_data db (PersonObj person) events_bucket;
  if include_family then
    object_bucket ←
      (if py_in "object" rank_list
       then for_each
              (λ object_bucket h,
                 family ← get_family_from_handle db h;
                 collect_child_ref db family person_handle
                   (child_ref_list family) object_bucket)
              object_bucket (parent_family_list person)
       else Ok object_bucket);
    for_each
      (λ '(object_bucket, events_bucket) h,
         family ← get_family_from_handle db h;
         object_bucket ←
           collect_object_data db (FamilyObj family) rank_list object_bucket;
         events_bucket ←
           collect_event_data db (FamilyObj family) events_bucket;
         Ok (object_bucket, events_bucket))
      (object_bucket, events_bucket) (family_list person)
  else Ok (object_bucket, events_bucket).

(** [skip_handle] is compared with a person handle for the spouses and with
    the child reference object itself for the children; a reference object
    never equals a handle or [None], so no child is skipped. *)
Definition collect_family_data (db : Db) (obj : Family)
    (rank_list : list string) (buckets : Buckets)
    (skip_handle : option Handle) : result Buckets :=
  let '(object_bucket, events_bucket) := buckets in
  object_bucket ←
    collect_object_data db (FamilyObj obj) rank_list object_bucket;
  events_bucket ← collect_event_data db (FamilyObj obj) events_bucket;
  let spouse (h : option Handle) (buckets : Buckets) : result Buckets :=
    match handle_set h with
    | Some h' =>
        if bool_decide (Some h' ≠ skip_handle)
        then person ← get_person_from_handle db h';
             collect_person_data db person rank_list buckets false
        else Ok buckets
    | None => Ok buckets
    end in
  buckets ←
    (if py_in "spouses" rank_list
     then buckets ← spouse (father_handle obj) (object_bucket, events_bucket);
          spouse (mother_handle obj) buckets
     else Ok (object_bucket, events_bucket));
  if py_in "children" rank_list
  then for_each
         (λ buckets child_ref,
            child ← get_person_from_handle db (ref child_ref);
            collect_person_data db child rank_list buckets false)
         buckets (child_ref_list obj)
  else Ok buckets.

Definition collect_primary_object_data (db : Db) (obj : Primary)
    (rank_list : list string) : result Buckets :=
  match obj with
  | PersonObj p => collect_person_data db p rank_list ([], []) true
  | FamilyObj f => collect_family_data db f rank_list ([], []) None
  end.

(** ** status_person.py: get_status_ranking *)

(** The variables the scan of the events bucket updates. *)
Record Scan : Type := {
  vital_count : Z;
  found_list : list string;
  confidence_alerts : list (Event * string);
  total_rank_items : Z;
  total_rank_confidence : Z }.

Definition scan_start : Scan :=
  {| vital_count := 2; found_list := []; confidence_alerts := [];
     total_rank_items := 0; total_rank_confidence := 0 |}.

(** The test that guards the two ranking sums, with Python's precedence:
    [primary and event_name in rank_list or "events" in rank_list] is
    [(primary and event_name in rank_list) or ("events" in rank_list)]. *)
Definition counts_for_rank (rank_list : list string) (row : EventRow) : bool :=
  (ev_primary row && py_in (xml_str (ev_event_type row)) rank_list)
  || py_in "events" rank_list.

(** The body of the loop over the events bucket. *)
Definition scan_event (rank_list alert_list : list string) (alert_minimum : Z)
    (required_list : list string) (s : Scan) (row : EventRow) : Scan :=
  let event := ev_event row in
  let event_type := ev_event_type row in
  let primary := ev_primary row in
  let total_count := ev_total_count row in
  let highest_confidence := ev_highest_confidence row in
  let vital_count :=
    if is_vital event_type then vital_count s - 1 else vital_count s in
  let event_name := xml_str event_type in
  let confidence_alerts :=
    if primary && py_in event_name alert_list then
      if total_count =? 0 then
        confidence_alerts s ++
        [(event, type_str event_type +:+ ": " +:+ gettext "Missing")]
      else if highest_confidence <? alert_minimum then
        confidence_alerts s ++
        [(event,
          type_str event_type +:+ ": " +:+ get_confidence highest_confidence)]
      else confidence_alerts s
    else confidence_alerts s in
  let found_list :=
    if primary && py_in event_name required_list
       && negb (py_in event_name (found_list s))
    then found_list s ++ [event_name] else found_list s in
  let counted := counts_for_rank rank_list row in
  {| vital_count := vital_count;
     found_list := found_list;
     confidence_alerts := confidence_alerts;
     total_rank_items :=
       if counted then total_rank_items s + 1 else total_rank_items s;
     total_rank_confidence :=
       if counted then total_rank_confidence s + highest_confidence
       else total_rank_confidence s |}.

(** What the function does once the buckets are collected. *)
Definition rank_buckets (rank_list alert_list : list string)
    (alert_minimum : Z) (required_list : list string) (buckets : Buckets)
  : Z * Z * list string * list (Event * string) :=
  let '(object_bucket, events_bucket) := buckets in
  let s :=
    foldl (scan_event rank_list alert_list alert_minimum required_list)
      scan_start events_bucket in
  let total_rank_items :=
    if vital_count s >? 0 then total_rank_items s + vital_count s
    else total_rank_items s in
  let missing_alerts :=
    List.filter (λ item, negb (py_in item (found_list s))) required_list in
  let '(total_rank_items, total_rank_confidence) :=
    foldl (λ '(items, conf) object_data,
             (items + 1, conf + row_highest_confidence object_data))
      (total_rank_items, total_rank_confidence s) object_bucket in
  (total_rank_items, total_rank_confidence, missing_alerts,
   confidence_alerts s).

Definition get_status_ranking (db : Db) (obj : Primary)
    (rank_list alert_list : option (list string)) (alert_minimum : Z)
    (required_list : option (list string))
  : result (Z * Z * list string * list (Event * string)) :=
  let rank_list := default [] rank_list in
  let alert_list := default [] alert_list in
  let required_list := default [] required_list in
  buckets ← collect_primary_object_data db obj rank_list;
  Ok (rank_buckets rank_list alert_list alert_minimum required_list buckets).

(** ** timeline.py: what it takes from outside *)

(** [event_type.get_standard_xml()], [event_type.get_map()] and
    [event_type.get_menu_standard_xml()]: the names of the standard event
    types, the map from type number to name, and the menu of categories,
    each with the numbers of its types. *)
Variable default_event_types : list string.
Variable default_event_map : gmap Z string.
Variable menu_standard_xml : list (string * list Z).

(** [Date((year, month, day))] and [int(s)]. *)
Variable mk_date : Z → Z → Z → Date.
Variable py_int : string → option Z.

(** The relationship calculator, set to a depth, asked for the relation of
    a person to the reference person; and the life span estimator. *)
Variable get_one_relationship : Z → Db → option Person → Person → string.
Variable probably_alive_range : Person → Db → option Date * option Date.

(** ** timeline.py: the state of a Timeline

    The attributes of [self]. The locale is not a field: it reaches the
    code through [type_str] and the relationship calculator only. *)

Definition Item : Type := Event * Person * string.
Definition Entry : Type := Z * Item.
Definition Keyed : Type := Z * Event.

Record Timeline : Type := {
  db_handle : Db;
  timeline : list Entry;
  timeline_type : option string;
  reference_person : option Person;
  start_date : option Date;
  end_date : option Date;
  precision : Z;
  depth : Z;
  eligible_events : gset string;
  event_filters : list string;
  eligible_relatives : list string;
  eligible_relative_events : gset string;
  relative_event_filters : list string;
  cached_people : gmap Handle (option Event);
  cached_events : list Handle }.

(** Assignments to the attributes of [self]. *)
Definition assign_merged (tl : Timeline) (entries : list Entry)
    (seen : list Handle) : Timeline :=
  {| db_handle := db_handle tl; timeline := entries;
     timeline_type := timeline_type tl;
     reference_person := reference_person tl;
     start_date := start_date tl; end_date := end_date tl;
     precision := precision tl; depth := depth tl;
     eligible_events := eligible_events tl;
     event_filters := event_filters tl;
     eligible_relatives := eligible_relatives tl;
     eligible_relative_events := eligible_relative_events tl;
     relative_event_filters := relative_event_filters tl;
     cached_people := cached_people tl; cached_events := seen |}.

Definition assign_run (tl : Timeline) (kind : string) : Timeline :=
  {| db_handle := db_handle tl; timeline := [];
     timeline_type := Some kind;
     reference_person := reference_person tl;
     start_date := start_date tl; end_date := end_date tl;
     precision := precision tl; depth := depth tl;
     eligible_events := eligible_events tl;
     event_filters := event_filters tl;
     eligible_relatives := eligible_relatives tl;
     eligible_relative_events := eligible_relative_events tl;
     relative_event_filters := relative_event_filters tl;
     cached_people := ∅; cached_events := [] |}.

Definition assign_cached_people (tl : Timeline)
    (people : gmap Handle (option Event)) : Timeline :=
  {| db_handle := db_handle tl; timeline := timeline tl;
     timeline_type := timeline_type tl;
     reference_person := reference_person tl;
     start_date := start_date tl; end_date := end_date tl;
     precision := precision tl; depth := depth tl;
     eligible_events := eligible_events tl;
     event_filters := event_filters tl;
     eligible_relatives := eligible_relatives tl;
     eligible_relative_events := eligible_relative_events tl;
     relative_event_filters := relative_event_filters tl;
     cached_people := people; cached_events := cached_events tl |}.

Definition assign_reference (tl : Timeline) (person : Person) (d : Z)
    (start finish : option Date) : Timeline :=
  {| db_handle := db_handle tl; timeline := timeline tl;
     timeline_type := timeline_type tl;
     reference_person := Some person;
     start_date := start; end_date := finish;
     precision := precision tl; depth := d;
     eligible_events := eligible_events tl;
     event_filters := event_filters tl;
     eligible_relatives := eligible_relatives tl;
     eligible_relative_events := eligible_relative_events tl;
     relative_event_filters := relative_event_filters tl;
     cached_people := cached_people tl; cached_events := cached_events tl |}.

Definition assign_dates (tl : Timeline) (start finish : option Date)
  : Timeline :=
  {| db_handle := db_handle tl; timeline := timeline tl;
     timeline_type := timeline_type tl;
     reference_person := reference_person tl;
     start_date := start; end_date := finish;
     precision := precision tl; depth := depth tl;
     eligible_events := eligible_events tl;
     event_filters := event_filters tl;
     eligible_relatives := eligible_relatives tl;
     eligible_relative_events := eligible_relative_events tl;
     relative_event_filters := relative_event_filters tl;
     cached_people := cached_people tl; cached_events := cached_events tl |}.

Definition assign_event_filters (tl : Timeline) (filters : list string)
    (eligible : gset string) : Timeline :=
  {| db_handle := db_handle tl; timeline := timeline tl;
     timeline_type := timeline_type tl;
     reference_person := reference_person tl;
     start_date := start_date tl; end_date := end_date tl;
     precision := precision tl; depth := depth tl;
     eligible_events := eligible;
     event_filters := filters;
     eligible_relatives := eligible_relatives tl;
     eligible_relative_events := eligible_relative_events tl;
     relative_event_filters := relative_event_filters tl;
     cached_people := cached_people tl; cached_events := cached_events tl |}.

Definition assign_relative_event_filters (tl : Timeline)
    (filters : list string) (eligible : gset string) : Timeline :=
  {| db_handle := db_handle tl; timeline := timeline tl;
     timeline_type := timeline_type tl;
     reference_person := reference_person tl;
     start_date := start_date tl; end_date := end_date tl;
     precision := precision tl; depth := depth tl;
     eligible_events := eligible_events tl;
     event_filters := event_filters tl;
     eligible_relatives := eligible_relatives tl;
     eligible_relative_events := eligible;
     relative_event_filters := filters;
     cached_people := cached_people tl; cached_events := cached_events tl |}.

(** ** timeline.py: the event filters *)

(** The first loop of [_prepare_eligible_events]: a token that names a
    standard or a custom type is added, a category is passed over, and
    anything else raises. *)
Definition eligible_token (custom_event_types : list string)
    (eligible_events : gset string) (key : string) : result (gset string) :=
  if py_in key default_event_types then Ok ({[key]} ∪ eligible_events)
  else if py_in key custom_event_types then Ok ({[key]} ∪ eligible_events)
  else if negb (py_in key EVENT_CATEGORIES) then Raise ValueError
  else Ok eligible_events.

(** The second loop: the types of every menu category the filters name. *)
Definition eligible_category (event_filters : list string)
    (eligible_events : gset string) (entry : string * list Z) : gset string :=
  let event_key := str_replace "life events" "vital" (str_lower entry.1) in
  if py_in event_key event_filters
  then foldl
         (λ eligible_events event_id,
            match default_event_map !! event_id with
            | Some name => {[name]} ∪ eligible_events
            | None => eligible_events
            end)
         eligible_events entry.2
  else eligible_events.

Definition _prepare_eligible_events (db : Db) (event_filters : list string)
  : result (gset string) :=
  let eligible_events : gset string := {["Death"]} ∪ ({["Birth"]} ∪ ∅) in
  let custom_event_types := get_event_types db in
  eligible_events ←
    for_each (eligible_token custom_event_types) eligible_events
      event_filters;
  let eligible_events :=
    foldl (eligible_category event_filters) eligible_events
      menu_standard_xml in
  let eligible_events :=
    if py_in "custom" event_filters
    then foldl (λ eligible_events event_name,
                  {[event_name]} ∪ eligible_events)
           eligible_events custom_event_types
    else eligible_events in
  Ok eligible_events.

Definition set_event_filters (filters : option (list string)) (tl : Timeline)
  : result Timeline :=
  let event_filters := default [] filters in
  eligible ← _prepare_eligible_events (db_handle tl) event_filters;
  Ok (assign_event_filters tl event_filters eligible).

Definition set_relative_event_filters (filters : option (list string))
    (tl : Timeline) : result Timeline :=
  let relative_event_filters := default [] filters in
  eligible ← _prepare_eligible_events (db_handle tl) relative_event_filters;
  Ok (assign_relative_event_filters tl relative_event_filters eligible).

(** ** timeline.py: the date bounds *)

(** [year, month, day = side.split("/")] and the three [int] calls. *)
Definition parse_ymd (side : string) : result Date :=
  match str_split "/" side with
  | [year; month; day] =>
      y ← of_option ValueError (py_int year);
      m ← of_option ValueError (py_int month);
      d ← of_option ValueError (py_int day);
      Ok (mk_date y m d)
  | _ => Raise ValueError
  end.

(** One side of the [dates] argument: a bound if it holds a slash. *)
Definition parse_bound (side : string) : result (option Date) :=
  if str_contains "/" side then d ← parse_ymd side; Ok (Some d) else Ok None.

(** The end of [__init__]: the [dates] argument sets the two bounds only
    when it is not empty and holds a dash. *)
Definition parse_dates (dates : option string)
  : result (option Date * option Date) :=
  match dates with
  | Some dates =>
      if negb (bool_decide (dates = "")) && str_contains "-" dates then
        match str_split "-" dates with
        | [start; finish] =>
            start_date ← parse_bound start;
            end_date ← parse_bound finish;
            Ok (start_date, end_date)
        | _ => Raise ValueError
        end
      else Ok (None, None)
  | None => Ok (None, None)
  end.

Definition __init__ (db : Db) (dates : option string)
    (events relatives relative_events : option (list string))
    (precision : Z) : result Timeline :=
  let tl :=
    {| db_handle := db; timeline := []; timeline_type := None;
       reference_person := None; start_date := None; end_date := None;
       precision := precision; depth := 1;
       eligible_events := ∅; event_filters := default [] events;
       eligible_relatives := default [] relatives;
       eligible_relative_events := ∅;
       relative_event_filters := default [] relative_events;
       cached_people := ∅; cached_events := [] |} in
  tl ← set_event_filters (Some (event_filters tl)) tl;
  tl ← set_relative_event_filters (Some (relative_event_filters tl)) tl;
  '(start, finish) ← parse_dates dates;
  Ok (assign_dates tl start finish).

Definition set_start_date (date : Date + string) (tl : Timeline)
  : result Timeline :=
  match date with
  | inr s => d ← parse_ymd s; Ok (assign_dates tl (Some d) (end_date tl))
  | inl d => Ok (assign_dates tl (Some d) (end_date tl))
  end.

Definition set_end_date (date : Date + string) (tl : Timeline)
  : result Timeline :=
  match date with
  | inr s => d ← parse_ymd s; Ok (assign_dates tl (start_date tl) (Some d))
  | inl d => Ok (assign_dates tl (start_date tl) (Some d))
  end.

(** ** timeline.py: eligibility and the merge *)

(** Check the filters to see if an event is eligible for the master
    timeline. *)
Definition is_eligible (tl : Timeline) (event : Event) (relative : bool)
  : bool :=
  if relative
  then bool_decide (type_str (type event) ∈ eligible_relative_events tl)
  else if bool_decide (event_filters tl = []) then true
  else bool_decide (type_str (type event) ∈ eligible_events tl).

(** [birth and keyed_event[1].handle == birth.handle] *)
Definition same_event (chosen : option Event) (event : Event) : bool :=
  match chosen with
  | Some c => bool_decide (handle event = handle c)
  | None => false
  end.

Definition before_start (tl : Timeline) (key : Z) : bool :=
  match start_date tl with
  | Some d => key <? sortval d
  | None => false
  end.

Definition after_end (tl : Timeline) (key : Z) : bool :=
  match end_date tl with
  | Some d => key >? sortval d
  | None => false
  end.

(** The body of the loop of [merge_eligible_events]; each [continue] of
    the source leaves the state as it is. *)
Definition merge_step (person : Person) (relation : string) (relative : bool)
    (birth death : option Event) (tl : Timeline) (keyed_event : Keyed)
  : Timeline :=
  let event := keyed_event.2 in
  if py_in (handle event) (cached_events tl) then tl
  else
    let override := same_event birth event || same_event death event in
    if negb (is_eligible tl event relative) && negb override then tl
    else if before_start tl keyed_event.1 then tl
    else if after_end tl keyed_event.1 then tl
    else assign_merged tl
           (timeline tl ++ [(keyed_event.1, (event, person, relation))])
           (cached_events tl ++ [handle event]).

Definition merge_eligible_events (person : Person) (keyed : list Keyed)
    (relation : string) (relative : bool) (birth death : option Event)
    (tl : Timeline) : Timeline :=
  foldl (merge_step person relation relative birth death) tl keyed.

(** ** timeline.py: sort keys *)

(** [l[i]] with Python's negative indices. *)
Definition py_index {A : Type} (l : list A) (i : Z) : result A :=
  let n := Z.of_nat (length l) in
  let j := if i <? 0 then n + i else i in
  if (0 <=? j) && (j <? n)
  then of_option IndexError (l !! Z.to_nat j)
  else Raise IndexError.

(** The loop over the events of the child: it stops at the first birth and
    also at the first birth fallback. *)
Fixpoint union_child_scan (db : Db) (refs : list EventRef)
    (birth birth_fallback : option Event)
  : result (option Event * option Event) :=
  match refs with
  | [] => Ok (birth, birth_fallback)
  | event_ref :: rest =>
      event ← get_event_from_handle db (ref event_ref);
      if is_birth (type event) then Ok (Some event, birth_fallback)
      else if negb (bool_decide (is_Some birth))
              && negb (bool_decide (is_Some birth_fallback))
              && is_birth_fallback (type event)
      then Ok (birth, Some event)
      else union_child_scan db rest birth birth_fallback
  end.

(** For an undated family union or dissolution, a sort value from the birth
    of the first or of the last child. The result is [None] where the
    source falls off the end of the function. *)
Definition generate_union_event_sortval (db : Db) (family : option Family)
    (union : bool) : result (option Z) :=
  let index := Z.b2z union - 1 in
  let offset := if - Z.b2z union =? 0 then 1 else - Z.b2z union in
  family ← of_option AttributeError family;
  match child_ref_list family with
  | [] => Ok None
  | _ =>
      child_ref ← py_index (child_ref_list family) index;
      child ← get_person_from_handle db (ref child_ref);
      '(birth, birth_fallback) ←
        union_child_scan db (person_event_ref_list child) None None;
      let birth :=
        match birth, birth_fallback with
        | None, Some f => Some f
        | _, _ => birth
        end in
      match birth with
      | Some b =>
          if negb (sortval (date b) =? 0)
          then Ok (Some (sortval (date b) + offset))
          else Ok (Some 0)
      | None => Ok (Some 0)
      end
  end.

(** [not sortval] for a value that is an integer or [None]. *)
Definition no_sortval (v : option Z) : bool :=
  match v with
  | Some z => z =? 0
  | None => true
  end.

(** The [while] loop that seeds [lastval]: the first dated event, less its
    position. *)
Fixpoint seed_scan (index : Z) (events : list Event) : Z :=
  match events with
  | [] => 0
  | event :: rest =>
      if negb (sortval (date event) =? 0) then sortval (date event) - index
      else seed_scan (index + 1) rest
  end.

Definition seed_lastval (events : list Event) : Z :=
  match events with
  | [] => 0
  | first :: _ =>
      if sortval (date first) =? 0 then seed_scan 0 events else 0
  end.

(** The key of one event, given the last key. *)
Definition event_sortval (db : Db) (family : option Family) (lastval : Z)
    (event : Event) : result Z :=
  let sortval := Some (sortval (date event)) in
  if no_sortval sortval then
    sortval ← (if is_marriage (type event)
               then generate_union_event_sortval db family true
               else Ok sortval);
    sortval ← (if is_divorce (type event)
               then generate_union_event_sortval db family false
               else Ok sortval);
    Ok (if no_sortval sortval then lastval + 1 else default 0 sortval)
  else Ok (default 0 sortval).

(** The body of the second loop of [prepare_event_sortvals]; the state is
    [lastval] and [keyed_list]. *)
Definition keyed_step (db : Db) (family : option Family)
    (st : Z * list Keyed) (event : Event) : result (Z * list Keyed) :=
  sortval ← event_sortval db family st.1 event;
  Ok (sortval, st.2 ++ [(sortval, event)]).

Definition prepare_event_sortvals (db : Db) (events : list Event)
    (family : option Family) : result (list Keyed) :=
  match events with
  | [] => Ok []
  | _ =>
      st ← for_each (keyed_step db family) (seed_lastval events, []) events;
      Ok st.2
  end.

(** ** timeline.py: the events of a person *)

(** The variables of the first loop of [extract_person_events]. *)
Record Vitals : Type := {
  v_birth : option Event;
  v_birth_fallback : option Event;
  v_death : option Event;
  v_death_fallback : option Event;
  v_events : list Event }.

Definition extract_step (db : Db) (v : Vitals) (event_ref : EventRef)
  : result Vitals :=
  event ← get_event_from_handle db (ref event_ref);
  let birth := if is_birth (type event) then Some event else v_birth v in
  let birth_fallback :=
    if negb (bool_decide (is_Some birth))
       && negb (bool_decide (is_Some (v_birth_fallback v)))
       && is_birth_fallback (type event)
    then Some event else v_birth_fallback v in
  let death := if is_death (type event) then Some event else v_death v in
  let death_fallback :=
    if negb (bool_decide (is_Some death))
       && negb (bool_decide (is_Some (v_death_fallback v)))
       && bool_decide (type event ∈ DEATH_INDICATORS)
    then Some event else v_death_fallback v in
  Ok {| v_birth := birth; v_birth_fallback := birth_fallback;
        v_death := death; v_death_fallback := death_fallback;
        v_events := v_events v ++ [event] |}.

(** [if not chosen and fallback: chosen = fallback] *)
Definition or_fallback (chosen fallback : option Event) : option Event :=
  match chosen, fallback with
  | None, Some f => Some f
  | _, _ => chosen
  end.

(** The loop over the families of the person. The list [events] is not
    emptied between two families: the events of the earlier families are
    keyed once more with each later family. *)
Definition extract_family_step (db : Db) (st : list Keyed * list Event)
    (family_handle : Handle) : result (list Keyed * list Event) :=
  family ← get_family_from_handle db family_handle;
  events ←
    for_each
      (λ events event_ref,
         event ← get_event_from_handle db (ref event_ref);
         Ok (events ++ [event]))
      st.2 (family_event_ref_list family);
  keyed ← prepare_event_sortvals db events (Some family);
  Ok (st.1 ++ keyed, events).

Definition extract_person_events (db : Db) (person : Person)
  : result (list Keyed * option Event * option Event) :=
  v ← for_each (extract_step db)
        {| v_birth := None; v_birth_fallback := None; v_death := None;
           v_death_fallback := None; v_events := [] |}
        (person_event_ref_list person);
  keyed ← prepare_event_sortvals db (v_events v) None;
  let birth := or_fallback (v_birth v) (v_birth_fallback v) in
  let death := or_fallback (v_death v) (v_death_fallback v) in
  st ← for_each (extract_family_step db) (keyed, []) (family_list person);
  Ok (st.1, birth, death).

(** ** timeline.py: building a timeline *)

(** [if person.handle not in self.cached_people:
       self.cached_people.update({person.handle: birth})] *)
Definition cache_person (person : Person) (birth : option Event)
    (tl : Timeline) : Timeline :=
  match cached_people tl !! handle person with
  | None =>
      assign_cached_people tl (<[handle person := birth]> (cached_people tl))
  | Some _ => tl
  end.

(** [h and h not in self.cached_people] for an optional handle. *)
Definition uncached (tl : Timeline) (h : option Handle) : option Handle :=
  match handle_set h with
  | Some h' =>
      match cached_people tl !! h' with
      | None => Some h'
      | Some _ => None
      end
  | None => None
  end.

(** Add the events of a specific person to the master timeline. *)
Definition add_person (h : Handle) (tl : Timeline) : result Timeline :=
  person ← get_person_from_handle (db_handle tl) h;
  '(keyed, birth, death) ← extract_person_events (db_handle tl) person;
  let tl := merge_eligible_events person keyed "self" false birth death tl in
  Ok (cache_person person birth tl).

(** [add_family], with the method it calls for a relative as a parameter:
    [add_relative] and [add_family] call each other. *)
Definition add_family_with
    (add_relative : Handle → Z → Z → Timeline → result Timeline)
    (h : Handle) (ancestors offspring : Z) (include_children : bool)
    (tl : Timeline) : result Timeline :=
  family ← get_family_from_handle (db_handle tl) h;
  match reference_person tl with
  | Some _ =>
      tl ← match uncached tl (father_handle family) with
           | Some f => add_relative f ancestors 1 tl
           | None => Ok tl
           end;
      tl ← match uncached tl (mother_handle family) with
           | Some m => add_relative m ancestors 1 tl
           | None => Ok tl
           end;
      if include_children
      then for_each
             (λ tl child,
                match cached_people tl !! ref child with
                | None => add_relative (ref child) 1 offspring tl
                | Some _ => Ok tl
                end)
             tl (child_ref_list family)
      else Ok tl
  | None =>
      tl ← match handle_set (father_handle family) with
           | Some f => add_person f tl
           | None => Ok tl
           end;
      tl ← match handle_set (mother_handle family) with
           | Some m => add_person m tl
           | None => Ok tl
           end;
      for_each (λ tl child, add_person (ref child) tl) tl
        (child_ref_list family)
  end.

(** Add the events of a relative of the reference person. [fuel] is the
    number of nested calls the interpreter still allows. *)
Fixpoint add_relative (fuel : nat) (h : Handle) (ancestors offspring : Z)
    (tl : Timeline) : result Timeline :=
  match fuel with
  | O => Raise RecursionError
  | S fuel =>
      match eligible_relatives tl with
      | [] => Ok tl
      | _ =>
          person ← get_person_from_handle (db_handle tl) h;
          let relationship :=
            get_one_relationship (depth tl) (db_handle tl)
              (reference_person tl) person in
          for_each
            (λ tl relative,
               if str_contains relative relationship then
                 '(keyed, birth, death) ←
                   extract_person_events (db_handle tl) person;
                 let tl :=
                   merge_eligible_events person keyed relationship true
                     birth death tl in
                 let tl := cache_person person birth tl in
                 tl ←
                   (if offspring >? 0 then
                      for_each
                        (λ tl family_handle,
                           family ←
                             get_family_from_handle (db_handle tl)
                               family_handle;
                           tl ← match uncached tl (father_handle family) with
                                | Some f =>
                                    add_relative fuel f 1 (offspring - 1) tl
                                | None => Ok tl
                                end;
                           tl ← match uncached tl (mother_handle family) with
                                | Some m =>
                                    add_relative fuel m 1 (offspring - 1) tl
                                | None => Ok tl
                                end;
                           for_each
                             (λ tl child_ref,
                                match cached_people tl !! ref child_ref with
                                | None =>
                                    add_relative fuel (ref child_ref) 1
                                      (offspring - 1) tl
                                | Some _ => Ok tl
                                end)
                             tl (child_ref_list family))
                        tl (family_list person)
                    else Ok tl);
                 if (ancestors >? 1)
                    && (str_contains "father" relationship
                        || str_contains "mother" relationship)
                 then for_each
                        (λ tl family_handle,
                           add_family_with (add_relative fuel) family_handle
                             (ancestors - 1) 0 false tl)
                        tl (parent_family_list person)
                 else Ok tl
               else Ok tl)
            tl (eligible_relatives tl)
      end
  end.

(** Add the events of all the members of a family to the timeline. *)
Definition add_family (fuel : nat) (h : Handle) (ancestors offspring : Z)
    (include_children : bool) (tl : Timeline) : result Timeline :=
  add_family_with (add_relative fuel) h ancestors offspring include_children
    tl.

(** Generate a person timeline. *)
Definition set_person (fuel : nat) (h : Handle) (ancestors offspring : Z)
    (tl : Timeline) : result Timeline :=
  let tl := assign_run tl "person" in
  person ← get_person_from_handle (db_handle tl) h;
  '(keyed, birth, death) ← extract_person_events (db_handle tl) person;
  let tl := merge_eligible_events person keyed "self" false birth death tl in
  let tl := cache_person person birth tl in
  if negb (ancestors =? 0) || negb (offspring =? 0) then
    let keyed := sort_by_key keyed in
    let lifespan := probably_alive_range person (db_handle tl) in
    let start :=
      match start_date tl with
      | None =>
          match birth with
          | Some b => Some (date b)
          | None => lifespan.1
          end
      | Some d => Some d
      end in
    finish ←
      match end_date tl with
      | None =>
          match death with
          | Some _ => last ← py_index keyed (-1); Ok (Some (date last.2))
          | None => Ok lifespan.2
          end
      | Some d => Ok (Some d)
      end;
    let tl :=
      assign_reference tl person (Z.max ancestors offspring + 1) start
        finish in
    tl ← for_each (λ tl family, add_family fuel family ancestors 0 true tl)
           tl (parent_family_list person);
    for_each (λ tl family, add_family fuel family ancestors offspring true tl)
      tl (family_list person)
  else Ok tl.

(** Generate a family timeline. *)
Definition set_family (fuel : nat) (h : Handle) (ancestors offspring : Z)
    (tl : Timeline) : result Timeline :=
  let tl := assign_run tl "family" in
  add_family fuel h ancestors offspring true tl.

(** The two results of [events]. *)
Inductive EventList : Type :=
  | RawEvents (entries : list Entry)
  | Events (items : list Item).

(** Return the list of sorted events; the timeline is sorted in place. *)
Definition events (raw : bool) (tl : Timeline) : EventList * Timeline :=
  let sorted := sort_by_key (timeline tl) in
  let tl := assign_merged tl sorted (cached_events tl) in
  (if raw then RawEvents sorted else Events (snd <$> sorted), tl).

(** ** A construction run

    One [set_person] or [set_family] call followed by any sequence of
    [add_person], [add_relative] and [add_family] calls. *)

Inductive Start : Type :=
  | SetPerson (h : Handle) (ancestors offspring : Z)
  | SetFamily (h : Handle) (ancestors offspring : Z).

Inductive Call : Type :=
  | AddPerson (h : Handle)
  | AddRelative (h : Handle) (ancestors offspring : Z)
  | AddFamily (h : Handle) (ancestors offspring : Z) (include_children : bool).

Definition start (fuel : nat) (s : Start) (tl : Timeline) : result Timeline :=
  match s with
  | SetPerson h a o => set_person fuel h a o tl
  | SetFamily h a o => set_family fuel h a o tl
  end.

Definition call (fuel : nat) (tl : Timeline) (c : Call) : result Timeline :=
  match c with
  | AddPerson h => add_person h tl
  | AddRelative h a o => add_relative fuel h a o tl
  | AddFamily h a o ic => add_family fuel h a o ic tl
  end.

Definition run (fuel : nat) (s : Start) (calls : list Call) (tl : Timeline)
  : result Timeline :=
  tl ← start fuel s tl;
  for_each (call fuel) tl calls.

(** ** Vocabulary of the properties *)

(** The sum of the highest confidences of event rows and of object rows. *)
Definition sum_highest (rows : list EventRow) : Z :=
  foldr (λ row acc, ev_highest_confidence row + acc) 0 rows.

Definition sum_object_highest (rows : list ObjectRow) : Z :=
  foldr (λ row acc, row_highest_confidence row + acc) 0 rows.

(** The rows of the events bucket that are counted for the rank, and those
    of a birth or a death. *)
Definition ranked_rows (rank_list : list string) (rows : list EventRow)
  : list EventRow :=
  List.filter (counts_for_rank rank_list) rows.

Definition vital_rows (rows : list EventRow) : list EventRow :=
  List.filter (λ row, is_vital (ev_event_type row)) rows.

(** The ranking rule in the words of the specification: a primary event
    whose type name is in the rank list, or any primary event when the
    keyword [events] is in the rank list. *)
Definition counts_for_rank_as_specified (rank_list : list string)
    (row : EventRow) : bool :=
  ev_primary row
  && (py_in (xml_str (ev_event_type row)) rank_list
      || py_in "events" rank_list).

(** A type name is the name of a primary event of the bucket. *)
Definition primary_name_in (rows : list EventRow) (name : string) : Prop :=
  ∃ row, row ∈ rows ∧ ev_primary row = true
         ∧ xml_str (ev_event_type row) = name.

(** The events the ranking of a person reads: those of the person and
    those of the families the person is a spouse in. *)
Definition person_reads_event (db : Db) (p : Person) (e : Event) : Prop :=
  (∃ r, r ∈ person_event_ref_list p ∧ event_table db (ref r) = Some e)
  ∨ (∃ fh f r, fh ∈ family_list p ∧ family_table db fh = Some f
               ∧ r ∈ family_event_ref_list f
               ∧ event_table db (ref r) = Some e).

(** The event of a timeline entry, and the event handles of entries. *)
Definition entry_event (entry : Entry) : Event := entry.2.1.1.

Definition handles_of (entries : list Entry) : list Handle :=
  (λ entry, handle (entry_event entry)) <$> entries.

(** A filter token is known: a standard type name, a custom type name of
    the store, or a category name. *)
Definition known_token (db : Db) (key : string) : Prop :=
  key ∈ default_event_types ∨ key ∈ get_event_types db
  ∨ key ∈ EVENT_CATEGORIES.

(** The order of two rows by their keys. *)
Definition key_le {A : Type} (a b : Z * A) : Prop := a.1 ≤ b.1.

(** The cache of seen events holds the handles of the timeline, each of
    them once in the timeline. *)
Definition seen_exactly (tl : Timeline) : Prop :=
  NoDup (handles_of (timeline tl))
  ∧ (∀ h, h ∈ handles_of (timeline tl) ↔ h ∈ cached_events tl).

(** Both bounds are set and every entry is within them. *)
Definition bounded_by (lower upper : Date) (tl : Timeline) : Prop :=
  start_date tl = Some lower ∧ end_date tl = Some upper
  ∧ ∀ entry, entry ∈ timeline tl →
             sortval lower ≤ entry.1 ≤ sortval upper.

(** An event that stands for a birth: a birth or a birth fallback. *)
Definition birth_like (e : Event) : bool :=
  is_birth (type e) || is_birth_fallback (type e).

(** The event at which the scan of [generate_union_event_sortval] stops:
    the first event of the child's list that is a birth or a birth
    fallback. Where a fallback is listed before a birth this is the
    fallback, and not the birth that [extract_person_events] chooses. *)
Definition scan_stops_at (db : Db) (child : Person) (b : Event) : Prop :=
  ∃ pre r post,
    person_event_ref_list child = pre ++ r :: post
    ∧ Forall (λ r', ∃ e, event_table db (ref r') = Some e
                         ∧ birth_like e = false) pre
    ∧ event_table db (ref r) = Some b
    ∧ birth_like b = true.

(** The scan finds no date in the family: whatever child resolves, the
    event its scan stops at has the sort value 0. A child may still have a
    dated birth, listed after an undated fallback. *)
Definition scan_finds_no_date (db : Db) (family : Family) : Prop :=
  ∀ c child b,
    c ∈ child_ref_list family →
    person_table db (ref c) = Some child →
    scan_stops_at db child b → sortval (date b) = 0.

(** The last known key when the event at position [i] is keyed: the seed
    for the first event, the key of the event before for the others. *)
Definition last_known_key (events : list Event) (keyed : list Keyed)
    (i : nat) : Z :=
  match i with
  | O => seed_lastval events
  | S j => default 0 (fst <$> keyed !! j)
  end.

(** The references of the store resolve: the events and the families of
    every person, the events and the children of every family. *)
Definition refs_resolve (db : Db) : Prop :=
  (∀ h p, person_table db h = Some p →
          (∀ r, r ∈ person_event_ref_list p →
                is_Some (event_table db (ref r)))
          ∧ (∀ fh, fh ∈ family_list p → is_Some (family_table db fh)))
  ∧ (∀ h f, family_table db h = Some f →
            (∀ r, r ∈ family_event_ref_list f →
                  is_Some (event_table db (ref r)))
            ∧ (∀ c, c ∈ child_ref_list f →
                    is_Some (person_table db (ref c)))).

(** An undated marriage or divorce among the events of the person's own
    list: [prepare_event_sortvals] is called for that list without a
    family and asks the absent family for its children. *)
Definition own_union_dated (db : Db) (p : Person) : Prop :=
  ∀ r e, r ∈ person_event_ref_list p →
         event_table db (ref r) = Some e →
         sortval (date e) = 0 →
         is_marriage (type e) = false ∧ is_divorce (type e) = false.

(** ** Vocabulary of the further properties *)

(** The citations a list of handles resolves to, one by one. *)
Definition citations_of (db : Db) (handles : list Handle)
    (citations : list Citation) : Prop :=
  Forall2 (λ h c, citation_table db h = Some c) handles citations.

Definition sum_confidence (citations : list Citation) : Z :=
  foldr (λ c acc, confidence c + acc) 0 citations.

(** A row is the row of a reference: it holds the event the reference
    resolves to, under the type of that event. *)
Definition row_of_ref (db : Db) (r : EventRef) (row : EventRow) : Prop :=
  event_table db (ref r) = Some (ev_event row)
  ∧ ev_event_type row = type (ev_event row).

(** The type names of the primary rows. *)
Definition primary_names (rows : list EventRow) : list string :=
  (λ row, xml_str (ev_event_type row)) <$> List.filter ev_primary rows.

Definition row_name (row : EventRow) : string := xml_str (ev_event_type row).

(** The alert a row gives rise to: the row is primary, its type name is in
    the alert list, and it has no citation at all or none that reaches the
    minimum. *)
Definition row_alert (alert_list : list string) (alert_minimum : Z)
    (row : EventRow) (alert : Event * string) : Prop :=
  ev_primary row = true
  ∧ row_name row ∈ alert_list
  ∧ alert.1 = ev_event row
  ∧ ((ev_total_count row = 0
      ∧ alert.2
        = type_str (ev_event_type row) +:+ ": " +:+ gettext "Missing")
     ∨ (ev_total_count row ≠ 0
        ∧ ev_highest_confidence row < alert_minimum
        ∧ alert.2
          = type_str (ev_event_type row) +:+ ": "
            +:+ get_confidence (ev_highest_confidence row))).

(** Every citation of the store has a confidence from 0 to [top]. *)
Definition confidence_within (db : Db) (top : Z) : Prop :=
  ∀ h c, citation_table db h = Some c → 0 ≤ confidence c ≤ top.

(** The highest confidences of the rows of a bucket are from 0 to
    [top]. *)
Definition object_rows_within (top : Z) (bucket : list ObjectRow) : Prop :=
  ∀ row, row ∈ bucket → 0 ≤ row_highest_confidence row ≤ top.

Definition event_rows_within (top : Z) (bucket : list EventRow) : Prop :=
  ∀ row, row ∈ bucket → 0 ≤ ev_highest_confidence row ≤ top.

Definition buckets_within (top : Z) (buckets : Buckets) : Prop :=
  object_rows_within top buckets.1 ∧ event_rows_within top buckets.2.

(** A call does not run into the recursion limit. *)
Definition no_overflow {A : Type} (r : result A) : Prop :=
  r ≠ Raise RecursionError.

(** The nesting of [add_relative] calls that the two budgets of a call
    allow, and that of the calls [add_family] makes. *)
Definition relative_depth (ancestors offspring : Z) : nat :=
  Z.to_nat (2 * Z.max ancestors 1 + Z.max offspring 0).

Definition family_depth (ancestors offspring : Z) : nat :=
  Nat.max (relative_depth ancestors 1) (relative_depth 1 offspring).

(** The tests of [merge_step] that leave an event out. *)
Definition merge_rejects (relative : bool) (birth death : option Event)
    (tl : Timeline) (keyed_event : Keyed) : bool :=
  py_in (handle keyed_event.2) (cached_events tl)
  || (negb (is_eligible tl keyed_event.2 relative)
      && negb (same_event birth keyed_event.2
               || same_event death keyed_event.2))
  || before_start tl keyed_event.1
  || after_end tl keyed_event.1.

(** A later state of a timeline: the bounds and the filters are the same
    and no handle has left the cache of seen events. *)
Definition later_state (tl tl' : Timeline) : Prop :=
  start_date tl' = start_date tl ∧ end_date tl' = end_date tl
  ∧ event_filters tl' = event_filters tl
  ∧ eligible_events tl' = eligible_events tl
  ∧ eligible_relative_events tl' = eligible_relative_events tl
  ∧ ∀ h, h ∈ cached_events tl → h ∈ cached_events tl'.

(** [tl'] continues [tl]: the entries and the seen handles of [tl] are a
    prefix of those of [tl'], as many of the one as of the other were
    added, and everything a caller configured is as it was. *)
Definition continues (tl tl' : Timeline) : Prop :=
  (∃ added seen,
      timeline tl' = timeline tl ++ added
      ∧ cached_events tl' = cached_events tl ++ seen
      ∧ handles_of added = seen)
  ∧ db_handle tl' = db_handle tl
  ∧ timeline_type tl' = timeline_type tl
  ∧ reference_person tl' = reference_person tl
  ∧ start_date tl' = start_date tl ∧ end_date tl' = end_date tl
  ∧ precision tl' = precision tl ∧ depth tl' = depth tl
  ∧ eligible_events tl' = eligible_events tl
  ∧ event_filters tl' = event_filters tl
  ∧ eligible_relatives tl' = eligible_relatives tl
  ∧ eligible_relative_events tl' = eligible_relative_events tl
  ∧ relative_event_filters tl' = relative_event_filters tl.

(** The event chosen for a birth or a death among the events of a list:
    the last of the type itself, else the first of a substitute type. *)
Definition chosen_vital (main substitute : EventType → bool)
    (events : list Event) : option Event :=
  match last (List.filter (λ e, main (type e)) events) with
  | Some e => Some e
  | None => head (List.filter (λ e, substitute (type e)) events)
  end.

(** The events the references of a list stand for. *)
Definition events_at (db : Db) (refs : list EventRef) (events : list Event)
  : Prop :=
  Forall2 (λ r e, event_table db (ref r) = Some e) refs events.

(** An undated marriage or divorce. *)
Definition undated_union (e : Event) : Prop :=
  sortval (date e) = 0 ∧ (is_marriage (type e) || is_divorce (type e)) = true.

(** The filter token of a menu category: its label in lower case, with
    [vital] for [life events]. *)
Definition category_key (label : string) : string :=
  str_replace "life events" "vital" (str_lower label).

(** [name] is the name of a type of a menu category the filters name. *)
Definition category_type (event_filters : list string) (name : string)
  : Prop :=
  ∃ entry event_id,
    entry ∈ menu_standard_xml
    ∧ category_key entry.1 ∈ event_filters
    ∧ event_id ∈ entry.2
    ∧ default_event_map !! event_id = Some name.

(** The type names a list of filter tokens lets in. *)
Definition admits (db : Db) (event_filters : list string) (name : string)
  : Prop :=
  name = "Birth" ∨ name = "Death"
  ∨ (name ∈ event_filters
     ∧ (name ∈ default_event_types ∨ name ∈ get_event_types db))
  ∨ category_type event_filters name
  ∨ ("custom" ∈ event_filters ∧ name ∈ get_event_types db).

(** How many times a character occurs in a string. *)
Fixpoint occurrences (c : ascii) (s : string) : nat :=
  match s with
  | EmptyString => 0
  | String c' s' => (if Ascii.eqb c' c then 1 else 0) + occurrences c s'
  end.

(** The members of a family: the father and the mother, where a handle is
    set, and the children, in the order of the family. *)
Definition family_members (family : Family) : list Handle :=
  option_list (handle_set (father_handle family))
  ++ option_list (handle_set (mother_handle family))
  ++ (ref <$> child_ref_list family).

(** The ranking keywords for what only a person has. *)
Definition person_keywords : list string :=
  ["names"; "associations"; "addresses"].

Definition without_person_keywords (rank_list : list string) : list string :=
  List.filter (λ keyword, negb (py_in keyword person_keywords)) rank_list.

(** The events that the loop over the families of a person keys: with each
    family, the events of the families before it and its own. *)
Fixpoint accumulated (before : list Event) (family_events : list (list Event))
  : list Event :=
  match family_events with
  | [] => []
  | events :: rest => (before ++ events) ++ accumulated (before ++ events) rest
  end.

(** The families a list of handles stands for. *)
Definition families_at (db : Db) (handles : list Handle)
    (families : list Family) : Prop :=
  Forall2 (λ h f, family_table db h = Some f) handles families.

(** The birth (or birth fallback) event of a child, chosen as
    [extract_person_events] chooses the birth of a person: the last birth
    of the child's event list, and the first birth fallback where the list
    holds no birth. *)
Definition child_birth (db : Db) (child : Person) (b : Event) : Prop :=
  ∃ events,
    events_at db (person_event_ref_list child) events
    ∧ chosen_vital is_birth is_birth_fallback events = Some b.

(** ** Sample data *)

(** An English locale: the display name of a type is its XML name and
    nothing is translated. *)
Definition sample_type_str : EventType → string := xml_str.
Definition sample_gettext : string → string := id.

Definition sample_get_confidence (level : Z) : string :=
  if level =? 0 then "Very Low"
  else if level =? 1 then "Low"
  else if level =? 2 then "Normal"
  else if level =? 3 then "High" else "Very High".

Definition sample_plain : Secondary := {| secondary_citations := [] |}.

Definition sample_undated : Date := {| sortval := 0 |}.

(** A person with two residences, each with one citation, and no birth or
    death event. *)
Definition sample_home1 : Event :=
  {| event_handle := "E1"; type := OTHER "Residence"; date := sample_undated;
     description := "first home"; event_citations := ["C1"] |}.

Definition sample_home2 : Event :=
  {| event_handle := "E2"; type := OTHER "Residence"; date := sample_undated;
     description := "second home"; event_citations := ["C2"] |}.

Definition sample_tenant : Person :=
  {| person_handle := "I1";
     person_event_ref_list :=
       [{| event_ref_target := "E1" |}; {| event_ref_target := "E2" |}];
     family_list := []; parent_family_list := [];
     birth_ref := None; death_ref := None;
     primary_name := sample_plain; alternate_names := [];
     person_lds_ord_list := []; person_attribute_list := [];
     person_ref_list := []; address_list := []; person_media_list := [];
     person_citations := [] |}.

(** A person with a birth and a death event, neither of them the
    preferred one. *)
Definition sample_stray_birth : Event :=
  {| event_handle := "E3"; type := BIRTH; date := sample_undated;
     description := "a birth"; event_citations := [] |}.

Definition sample_stray_death : Event :=
  {| event_handle := "E4"; type := DEATH; date := sample_undated;
     description := "a death"; event_citations := [] |}.

Definition sample_stranger : Person :=
  {| person_handle := "I2";
     person_event_ref_list :=
       [{| event_ref_target := "E3" |}; {| event_ref_target := "E4" |}];
     family_list := []; parent_family_list := [];
     birth_ref := None; death_ref := None;
     primary_name := sample_plain; alternate_names := [];
     person_lds_ord_list := []; person_attribute_list := [];
     person_ref_list := []; address_list := []; person_media_list := [];
     person_citations := [] |}.

Definition sample_ranking_db : Db :=
  {| person_table := λ h,
       if bool_decide (h = "I1") then Some sample_tenant
       else if bool_decide (h = "I2") then Some sample_stranger else None;
     family_table := λ _, None;
     event_table := λ h,
       if bool_decide (h = "E1") then Some sample_home1
       else if bool_decide (h = "E2") then Some sample_home2
       else if bool_decide (h = "E3") then Some sample_stray_birth
       else if bool_decide (h = "E4") then Some sample_stray_death
       else None;
     citation_table := λ h,
       if bool_decide (h = "C1") then Some {| confidence := 3 |}
       else if bool_decide (h = "C2") then Some {| confidence := 2 |}
       else None;
     get_event_types := [] |}.

(** The row of the second residence: it is not primary. *)
Definition sample_home2_row : EventRow :=
  {| ev_event := sample_home2; ev_event_type := OTHER "Residence";
     ev_primary := false; ev_total_count := 1; ev_total_confidence := 2;
     ev_highest_confidence := 2 |}.

(** A German locale for the display names of births and deaths: they
    differ from the names a prepared filter set holds. *)
Definition sample_type_str_de (t : EventType) : string :=
  match t with
  | BIRTH => "Geburt"
  | DEATH => "Tod"
  | _ => xml_str t
  end.

(** Event type metadata: a few standard names, their numbers and two
    menu categories. *)
Definition sample_event_types : list string :=
  ["Birth"; "Death"; "Marriage"; "Divorce"; "Baptism"; "Residence"].

Definition sample_event_map : gmap Z string :=
  <[12 := "Birth"]> (<[13 := "Death"]> (<[15 := "Baptism"]>
    (<[1 := "Marriage"]> (<[7 := "Divorce"]> (<[42 := "Residence"]> ∅))))).

Definition sample_menu : list (string * list Z) :=
  [("Life Events", [12; 15; 13]); ("Family", [1; 7]); ("Residence", [42])].

(** Dates ordered as year, month, day; decimal literals. *)
Definition sample_mk_date (y m d : Z) : Date :=
  {| sortval := 10000 * y + 100 * m + d |}.

Definition sample_digit (c : ascii) : option Z :=
  let n := nat_of_ascii c in
  if (Nat.leb 48 n && Nat.leb n 57)%bool
  then Some (Z.of_nat (n - 48)) else None.

Fixpoint sample_digits (acc : Z) (s : string) : option Z :=
  match s with
  | EmptyString => Some acc
  | String c s' =>
      match sample_digit c with
      | Some d => sample_digits (10 * acc + d) s'
      | None => None
      end
  end.

Definition sample_py_int (s : string) : option Z :=
  match s with
  | EmptyString => None
  | _ => sample_digits 0 s
  end.

(** A mother, her daughter and their family. The marriage and the divorce
    of the family are undated; the daughter has a baptism and no birth. *)
Definition sample_anna_birth : Event :=
  {| event_handle := "EB"; type := BIRTH;
     date := sample_mk_date 1895 3 10;
     description := "birth of Anna"; event_citations := [] |}.

Definition sample_anna_home : Event :=
  {| event_handle := "ER"; type := OTHER "Residence";
     date := sample_mk_date 1920 1 1;
     description := "home of Anna"; event_citations := [] |}.

Definition sample_anna_death : Event :=
  {| event_handle := "ED"; type := DEATH;
     date := sample_mk_date 1960 5 5;
     description := "death of Anna"; event_citations := [] |}.

Definition sample_marriage : Event :=
  {| event_handle := "EM"; type := MARRIAGE; date := sample_undated;
     description := "marriage"; event_citations := [] |}.

Definition sample_divorce : Event :=
  {| event_handle := "EV"; type := DIVORCE; date := sample_undated;
     description := "divorce"; event_citations := [] |}.

Definition sample_baptism : Event :=
  {| event_handle := "EC"; type := BAPTISM;
     date := sample_mk_date 1922 4 15;
     description := "baptism of Berta"; event_citations := [] |}.

Definition sample_person (h : Handle) (event_handles families : list Handle)
  : Person :=
  {| person_handle := h;
     person_event_ref_list :=
       (λ e, {| event_ref_target := e |}) <$> event_handles;
     family_list := families; parent_family_list := [];
     birth_ref := None; death_ref := None;
     primary_name := sample_plain; alternate_names := [];
     person_lds_ord_list := []; person_attribute_list := [];
     person_ref_list := []; address_list := []; person_media_list := [];
     person_citations := [] |}.

Definition sample_anna : Person :=
  sample_person "I10" ["EB"; "ER"; "ED"] ["F1"].

Definition sample_berta : Person := sample_person "I11" ["EC"] [].

Definition sample_family : Family :=
  {| family_handle := "F1"; father_handle := None;
     mother_handle := Some "I10";
     child_ref_list :=
       [{| child_ref_target := "I11"; child_ref_citations := [] |}];
     family_event_ref_list :=
       [{| event_ref_target := "EM" |}; {| event_ref_target := "EV" |}];
     family_lds_ord_list := []; family_attribute_list := [];
     family_media_list := []; family_citations := [] |}.

(** Clara's baptism is listed before her birth, and is undated. *)
Definition sample_clara_baptism : Event :=
  {| event_handle := "EC2"; type := BAPTISM; date := sample_undated;
     description := "baptism of Clara"; event_citations := [] |}.

Definition sample_clara_birth : Event :=
  {| event_handle := "EB2"; type := BIRTH;
     date := sample_mk_date 1921 1 1;
     description := "birth of Clara"; event_citations := [] |}.

Definition sample_clara : Person := sample_person "I12" ["EC2"; "EB2"] [].

Definition sample_wedding : Event :=
  {| event_handle := "EM2"; type := MARRIAGE; date := sample_undated;
     description := "wedding"; event_citations := [] |}.

Definition sample_family2 : Family :=
  {| family_handle := "F2"; father_handle := None; mother_handle := None;
     child_ref_list :=
       [{| child_ref_target := "I12"; child_ref_citations := [] |}];
     family_event_ref_list := [{| event_ref_target := "EM2" |}];
     family_lds_ord_list := []; family_attribute_list := [];
     family_media_list := []; family_citations := [] |}.

Definition sample_db : Db :=
  {| person_table := λ h,
       if bool_decide (h = "I10") then Some sample_anna
       else if bool_decide (h = "I11") then Some sample_berta
       else if bool_decide (h = "I12") then Some sample_clara else None;
     family_table := λ h,
       if bool_decide (h = "F1") then Some sample_family
       else if bool_decide (h = "F2") then Some sample_family2 else None;
     event_table := λ h,
       if bool_decide (h = "EB") then Some sample_anna_birth
       else if bool_decide (h = "ER") then Some sample_anna_home
       else if bool_decide (h = "ED") then Some sample_anna_death
       else if bool_decide (h = "EM") then Some sample_marriage
       else if bool_decide (h = "EV") then Some sample_divorce
       else if bool_decide (h = "EC") then Some sample_baptism
       else if bool_decide (h = "EC2") then Some sample_clara_baptism
       else if bool_decide (h = "EB2") then Some sample_clara_birth
       else if bool_decide (h = "EM2") then Some sample_wedding else None;
     citation_table := λ _, None;
     get_event_types := ["Reunion"] |}.

(** Berta is the daughter of Anna; nobody else is related. *)
Definition sample_relationship (_ : Z) (_ : Db) (_ : option Person)
    (person : Person) : string :=
  if bool_decide (handle person = "I11") then "daughter" else "".

Definition sample_alive_range (_ : Person) (_ : Db)
  : option Date * option Date := (None, None).

(** A timeline that filters on residences and follows daughters, with no
    bounds, and the same with the bounds 1900/01/01 and 1950/12/31. *)
Definition sample_timeline : Timeline :=
  {| db_handle := sample_db; timeline := []; timeline_type := None;
     reference_person := None; start_date := None; end_date := None;
     precision := 1; depth := 1;
     eligible_events := {["Residence"; "Death"; "Birth"]};
     event_filters := ["Residence"];
     eligible_relatives := ["daughter"];
     eligible_relative_events := {["Death"; "Birth"]};
     relative_event_filters := [];
     cached_people := ∅; cached_events := [] |}.

Definition sample_bounded : Timeline :=
  assign_dates sample_timeline (Some (sample_mk_date 1900 1 1))
    (Some (sample_mk_date 1950 12 31)).

(** Further sample data: Dora, whose own event list holds an undated
    wedding, and Erna, a child of the sample family, in a store that holds
    the people of the first one as well. *)
Definition sample_dora : Person := sample_person "I20" ["EB2"; "EM2"] [].

Definition sample_erna : Person :=
  {| person_handle := "I21";
     person_event_ref_list := [{| event_ref_target := "EC" |}];
     family_list := []; parent_family_list := ["F1"];
     birth_ref := None; death_ref := None;
     primary_name := sample_plain; alternate_names := [];
     person_lds_ord_list := []; person_attribute_list := [];
     person_ref_list := []; address_list := []; person_media_list := [];
     person_citations := [] |}.

Definition sample_kin_db : Db :=
  {| person_table := λ h,
       if bool_decide (h = "I20") then Some sample_dora
       else if bool_decide (h = "I21") then Some sample_erna
       else person_table sample_db h;
     family_table := family_table sample_db;
     event_table := event_table sample_db;
     citation_table := citation_table sample_db;
     get_event_types := get_event_types sample_db |}.

(** A timeline over that store that follows no relative. *)
Definition sample_alone : Timeline :=
  {| db_handle := sample_kin_db; timeline := []; timeline_type := None;
     reference_person := None; start_date := None; end_date := None;
     precision := 1; depth := 1;
     eligible_events := {["Residence"; "Death"; "Birth"]};
     event_filters := ["Residence"];
     eligible_relatives := [];
     eligible_relative_events := {["Death"; "Birth"]};
     relative_event_filters := [];
     cached_people := ∅; cached_events := [] |}.

(** Two undated residences listed before a dated one. *)
Definition sample_homes : list Event :=
  [sample_home1; sample_home2; sample_anna_home].

(** Gerda, with no event of her own and the two sample families. *)
Definition sample_gerda : Person := sample_person "I22" [] ["F1"; "F2"].

(** Frieda, whose baptism is listed before her birth, both dated, and the
    family of her parents with its undated marriage and divorce. *)
Definition sample_frieda_birth : Event :=
  {| event_handle := "EB3"; type := BIRTH;
     date := sample_mk_date 1922 4 1;
     description := "birth of Frieda"; event_citations := [] |}.

Definition sample_frieda : Person := sample_person "I23" ["EC"; "EB3"] [].

Definition sample_family3 : Family :=
  {| family_handle := "F3"; father_handle := None; mother_handle := None;
     child_ref_list :=
       [{| child_ref_target := "I23"; child_ref_citations := [] |}];
     family_event_ref_list :=
       [{| event_ref_target := "EM" |}; {| event_ref_target := "EV" |}];
     family_lds_ord_list := []; family_attribute_list := [];
     family_media_list := []; family_citations := [] |}.

Definition sample_scan_db : Db :=
  {| person_table := λ h,
       if bool_decide (h = "I23") then Some sample_frieda
       else person_table sample_kin_db h;
     family_table := λ h,
       if bool_decide (h = "F3") then Some sample_family3
       else family_table sample_kin_db h;
     event_table := λ h,
       if bool_decide (h = "EB3") then Some sample_frieda_birth
       else event_table sample_kin_db h;
     citation_table := citation_table sample_kin_db;
     get_event_types := get_event_types sample_kin_db |}.

(** * Properties *)

(** Automation takes every hypothesis of the context into account; this
    drops the collaborators a statement does not mention. *)
Ltac forget_collaborators :=
  try clear type_str; try clear gettext; try clear get_confidence;
  try clear default_event_types; try clear default_event_map;
  try clear menu_standard_xml; try clear mk_date; try clear py_int;
  try clear get_one_relationship; try clear probably_alive_range.

(** ** The error monad and the loops *)

Lemma bind_Ok {A B : Type} (m : result A) (f : A → result B) (b : B) :
  m ≫= f = Ok b ↔ ∃ a, m = Ok a ∧ f a = Ok b.
Proof.
  destruct m as [a|e]; simpl.
  - split; [eauto | intros (a' & [= ->] & H); exact H].
  - split; [discriminate | intros (a' & [=] & _)].
Qed.

Lemma for_each_inv {A S : Type} (P : S → Prop) (body : S → A → result S)
    (l : list A) (s s' : S) :
  P s →
  (∀ s x s', x ∈ l → P s → body s x = Ok s' → P s') →
  for_each body s l = Ok s' → P s'.
Proof.
  revert s. induction l as [|x l IH]; intros s Hs Hstep; simpl.
  - intros [= <-]. exact Hs.
  - intros H. apply bind_Ok in H as (s1 & H1 & H2).
    apply (IH s1); [| |exact H2].
    + eapply Hstep; [left|exact Hs|exact H1].
    + intros s2 y s3 Hy. apply Hstep. by right.
Qed.

Lemma py_in_true (x : string) (l : list string) : py_in x l = true ↔ x ∈ l.
Proof. unfold py_in. apply bool_decide_eq_true. Qed.

Lemma py_in_false (x : string) (l : list string) : py_in x l = false ↔ x ∉ l.
Proof. unfold py_in. apply bool_decide_eq_false. Qed.

(** ** The scan of the events bucket *)

Lemma counts_for_rank_true rank_list row :
  counts_for_rank rank_list row = true ↔
  (ev_primary row = true ∧ xml_str (ev_event_type row) ∈ rank_list)
  ∨ "events" ∈ rank_list.
Proof.
  unfold counts_for_rank.
  rewrite orb_true_iff, andb_true_iff, !py_in_true. tauto.
Qed.

Lemma scan_totals rank_list alert_list alert_minimum required_list rows s :
  let s' :=
    foldl (scan_event rank_list alert_list alert_minimum required_list)
      s rows in
  total_rank_items s'
    = total_rank_items s + Z.of_nat (length (ranked_rows rank_list rows))
  ∧ total_rank_confidence s'
    = total_rank_confidence s + sum_highest (ranked_rows rank_list rows)
  ∧ vital_count s' = vital_count s - Z.of_nat (length (vital_rows rows)).
Proof.
  revert s. induction rows as [|row rows IH]; intros s; simpl.
  - repeat split; lia.
  - specialize
      (IH (scan_event rank_list alert_list alert_minimum required_list s row)).
    simpl in IH. destruct IH as (-> & -> & ->).
    unfold ranked_rows, vital_rows. simpl.
    destruct (counts_for_rank rank_list row),
      (is_vital (ev_event_type row)); simpl; repeat split; lia.
Qed.

Lemma object_totals (rows : list ObjectRow) (items conf : Z) :
  foldl (λ '(items, conf) object_data,
           (items + 1, conf + row_highest_confidence object_data))
    (items, conf) rows
  = (items + Z.of_nat (length rows), conf + sum_object_highest rows).
Proof.
  revert items conf. induction rows as [|row rows IH]; intros items conf.
  - simpl. f_equal; lia.
  - simpl. rewrite IH. simpl. f_equal; lia.
Qed.

(** The totals [get_status_ranking] returns, in closed form. *)
Lemma rank_buckets_totals rank_list alert_list alert_minimum required_list
    object_bucket events_bucket :
  let r :=
    rank_buckets rank_list alert_list alert_minimum required_list
      (object_bucket, events_bucket) in
  r.1.1.1 = Z.of_nat (length (ranked_rows rank_list events_bucket))
            + Z.max 0 (2 - Z.of_nat (length (vital_rows events_bucket)))
            + Z.of_nat (length object_bucket)
  ∧ r.1.1.2 = sum_highest (ranked_rows rank_list events_bucket)
              + sum_object_highest object_bucket.
Proof.
  unfold rank_buckets.
  destruct (scan_totals rank_list alert_list alert_minimum required_list
              events_bucket scan_start) as (Hi & Hc & Hv).
  simpl in Hi, Hc, Hv. rewrite object_totals. simpl.
  rewrite Hi, Hc, Hv.
  destruct (2 - Z.of_nat (length (vital_rows events_bucket)) >? 0) eqn:E;
    split; lia.
Qed.

(** The found list after the scan: what was found before, and the names
    of the primary events that are required. *)
Lemma scan_found rank_list alert_list alert_minimum required_list rows s
    (name : string) :
  name ∈ found_list
           (foldl (scan_event rank_list alert_list alert_minimum
                     required_list) s rows)
  ↔ name ∈ found_list s
    ∨ (name ∈ required_list ∧ primary_name_in rows name).
Proof.
  revert s. induction rows as [|row rows IH]; intros s; simpl.
  - split; [by left|]. intros [H|(_ & row & Hr & _)]; [done|].
    by apply elem_of_nil in Hr.
  - rewrite IH. clear IH. simpl.
    assert (name ∈ (if ev_primary row
                       && py_in (xml_str (ev_event_type row)) required_list
                       && negb (py_in (xml_str (ev_event_type row))
                                  (found_list s))
                    then found_list s ++ [xml_str (ev_event_type row)]
                    else found_list s)
            ↔ name ∈ found_list s
              ∨ (name ∈ required_list ∧ ev_primary row = true
                 ∧ xml_str (ev_event_type row) = name)) as ->.
    { destruct (ev_primary row) eqn:Ep; simpl.
      2:{ split; [by left|]. intros [H|(_ & H & _)]; [done|discriminate]. }
      destruct (py_in (xml_str (ev_event_type row)) required_list) eqn:Er;
        simpl.
      - apply py_in_true in Er.
        destruct (py_in (xml_str (ev_event_type row)) (found_list s)) eqn:Ef;
          simpl.
        + apply py_in_true in Ef. split; [by left|].
          intros [H|(_ & _ & <-)]; done.
        + rewrite elem_of_app, list_elem_of_singleton. split.
          * intros [H| ->]; [by left|by right].
          * intros [H|(_ & _ & <-)]; [by left|by right].
      - apply py_in_false in Er. split; [by left|].
        intros [H|(H & _ & <-)]; done. }
    unfold primary_name_in. split.
    + intros [[H|(Hq & Hp & Hn)]|(Hq & row' & Hin & Hp & Hn)].
      * by left.
      * right. split; [done|]. exists row. split; [left|done].
      * right. split; [done|]. exists row'. split; [by right|done].
    + intros [H|(Hq & row' & Hin & Hp & Hn)]; [by left; left|].
      apply elem_of_cons in Hin as [->|Hin].
      * left. right. done.
      * right. split; [done|]. by exists row'.
Qed.

Lemma get_status_ranking_Ok db obj rank_list alert_list alert_minimum
    required_list r :
  get_status_ranking db obj rank_list alert_list alert_minimum required_list
    = Ok r
  ↔ ∃ buckets,
      collect_primary_object_data db obj (default [] rank_list) = Ok buckets
      ∧ r = rank_buckets (default [] rank_list) (default [] alert_list)
              alert_minimum (default [] required_list) buckets.
Proof.
  unfold get_status_ranking. rewrite bind_Ok.
  split; intros (b & Hb & Hr); exists b; split; try done; congruence.
Qed.

(** C1, as the code has it: an event row adds one to [total_rank_items]
    and its highest confidence to [total_rank_confidence] if and only if it
    is primary with its type name in the rank list, or the keyword [events]
    is in the rank list (then whether or not the row is primary); any other
    row leaves both sums as they are, and the confidence total returned is
    the sum over exactly those rows and the object rows. *)
Theorem event_row_rank_contribution (rank_list alert_list : list string)
    (alert_minimum : Z) (required_list : list string) :
  (∀ (s : Scan) (row : EventRow),
     let s' :=
       scan_event rank_list alert_list alert_minimum required_list s row in
     let counted :=
       (ev_primary row = true ∧ xml_str (ev_event_type row) ∈ rank_list)
       ∨ "events" ∈ rank_list in
     ((total_rank_items s' = total_rank_items s + 1
       ∧ total_rank_confidence s'
         = total_rank_confidence s + ev_highest_confidence row)
      ↔ counted)
     ∧ ((total_rank_items s' = total_rank_items s
         ∧ total_rank_confidence s' = total_rank_confidence s)
        ↔ ¬ counted))
  ∧ (∀ object_bucket events_bucket,
       let r :=
         rank_buckets rank_list alert_list alert_minimum required_list
           (object_bucket, events_bucket) in
       r.1.1.1
         = Z.of_nat (length (ranked_rows rank_list events_bucket))
           + Z.max 0 (2 - Z.of_nat (length (vital_rows events_bucket)))
           + Z.of_nat (length object_bucket)
       ∧ r.1.1.2 = sum_highest (ranked_rows rank_list events_bucket)
                   + sum_object_highest object_bucket).
Proof.
  split.
  - intros s row. cbv zeta.
    pose proof (counts_for_rank_true rank_list row) as Hc.
    unfold scan_event. simpl.
    destruct (counts_for_rank rank_list row).
    + assert (Hyes := proj1 Hc eq_refl).
      split; split.
      * intros _. exact Hyes.
      * intros _. split; reflexivity.
      * intros [H _]. lia.
      * intros H. contradiction.
    + assert (Hno : ¬ ((ev_primary row = true
                        ∧ xml_str (ev_event_type row) ∈ rank_list)
                       ∨ "events" ∈ rank_list)).
      { intros H. apply Hc in H. discriminate. }
      split; split.
      * intros [H _]. lia.
      * intros H. contradiction.
      * intros _. exact Hno.
      * intros _. split; reflexivity.
  - intros object_bucket events_bucket. apply rank_buckets_totals.
Qed.


(** ** Where the rows of the events bucket come from *)

Lemma of_option_Ok {A : Type} (e : exn) (o : option A) (a : A) :
  of_option e o = Ok a ↔ o = Some a.
Proof. destruct o; simpl; split; congruence. Qed.

Lemma collect_event_step_row db vital_handles seen bucket event_ref st :
  collect_event_step db vital_handles (seen, bucket) event_ref = Ok st →
  ∃ row, st.2 = bucket ++ [row]
         ∧ event_table db (ref event_ref) = Some (ev_event row)
         ∧ ev_event_type row = type (ev_event row).
Proof.
  unfold collect_event_step. intros H.
  apply bind_Ok in H as (event & He & H).
  apply of_option_Ok in He.
  apply bind_Ok in H as ([[n total] highest] & _ & H).
  injection H as <-. simpl. eexists. split; [reflexivity|]. simpl. done.
Qed.

Lemma collect_event_data_rows db obj bucket bucket' (Q : EventRow → Prop) :
  collect_event_data db obj bucket = Ok bucket' →
  (∀ row, row ∈ bucket → Q row) →
  (∀ row r, r ∈ get_event_ref_list obj →
            event_table db (ref r) = Some (ev_event row) →
            ev_event_type row = type (ev_event row) → Q row) →
  ∀ row, row ∈ bucket' → Q row.
Proof.
  unfold collect_event_data. intros H Hold Hnew.
  apply bind_Ok in H as ([seen b] & H & [= <-]).
  revert H.
  apply (for_each_inv (λ st, ∀ row, row ∈ st.2 → Q row)); [exact Hold|].
  intros [seen0 b0] r [seen1 b1] Hr Hinv Hstep row.
  apply collect_event_step_row in Hstep as (row' & -> & Hev & Hty).
  rewrite elem_of_app, list_elem_of_singleton.
  intros [Hin| ->]; [by apply Hinv|]. by apply (Hnew _ r).
Qed.

(** Every event row collected for a person is the row of an event of the
    person or of one of the person's families, under its own type. *)
Lemma collect_person_rows db p rank_list object_bucket events_bucket :
  collect_primary_object_data db (PersonObj p) rank_list
    = Ok (object_bucket, events_bucket) →
  ∀ row, row ∈ events_bucket →
         person_reads_event db p (ev_event row)
         ∧ ev_event_type row = type (ev_event row).
Proof.
  simpl. unfold collect_person_data. intros H.
  apply bind_Ok in H as (ob1 & _ & H).
  apply bind_Ok in H as (eb1 & Hev & H).
  apply bind_Ok in H as (ob2 & _ & H).
  set (Q := λ row : EventRow,
              person_reads_event db p (ev_event row)
              ∧ ev_event_type row = type (ev_event row)).
  assert (∀ row, row ∈ eb1 → Q row) as H1.
  { apply (collect_event_data_rows _ _ _ _ Q Hev).
    - intros row Hin. by apply elem_of_nil in Hin.
    - intros row r Hr Hlook Hty. split; [|done]. left. by exists r. }
  refine (for_each_inv (λ st : Buckets, ∀ row, row ∈ st.2 → Q row)
            _ _ _ _ H1 _ H).
  intros [ob eb] fh [ob' eb'] Hfh Hinv Hstep.
  apply bind_Ok in Hstep as (family & Hfam & Hstep).
  apply of_option_Ok in Hfam.
  apply bind_Ok in Hstep as (ob3 & _ & Hstep).
  apply bind_Ok in Hstep as (eb3 & Hev3 & [= <- <-]).
  simpl. apply (collect_event_data_rows _ _ _ _ Q Hev3); [exact Hinv|].
  intros row r Hr Hlook Hty. split; [|done]. right.
  exists fh, family, r. done.
Qed.

(** C9: the missing alerts returned are exactly the entries of the
    required list whose name is the type name of no primary event of the
    events bucket, in the order of the required list; so for the required
    list [["Death"]] and a person none of whose events is named Death the
    missing alerts are [["Death"]]. *)
Theorem missing_alerts_exact (db : Db) (obj : Primary)
    (rank_list alert_list : option (list string)) (alert_minimum : Z)
    (required_list : option (list string)) (items conf : Z)
    (missing : list string) (alerts : list (Event * string)) :
  get_status_ranking db obj rank_list alert_list alert_minimum required_list
    = Ok (items, conf, missing, alerts) →
  ∃ object_bucket events_bucket,
    collect_primary_object_data db obj (default [] rank_list)
      = Ok (object_bucket, events_bucket)
    ∧ (∀ item, item ∈ missing
               ↔ item ∈ default [] required_list
                 ∧ ¬ primary_name_in events_bucket item)
    ∧ (∃ keep, missing = List.filter keep (default [] required_list))
    ∧ (∀ p, obj = PersonObj p →
            required_list = Some ["Death"] →
            (∀ e, person_reads_event db p e → xml_str (type e) ≠ "Death") →
            missing = ["Death"]).
Proof.
  intros H. apply get_status_ranking_Ok in H as ([ob eb] & Hcollect & Hr).
  exists ob, eb. split; [exact Hcollect|].
  unfold rank_buckets in Hr. rewrite object_totals in Hr.
  injection Hr as _ _ Hmissing _.
  assert (∀ item, item ∈ missing
                  ↔ item ∈ default [] required_list
                    ∧ ¬ primary_name_in eb item) as Hexact.
  { intros item. rewrite Hmissing, list_elem_of_In, filter_In,
      <- list_elem_of_In, negb_true_iff, py_in_false.
    rewrite scan_found. simpl.
    split.
    - intros [Hreq Hnot]. split; [done|]. intros Hp. apply Hnot. by right.
    - intros [Hreq Hnot]. split; [done|].
      intros [Hnil|[_ Hp]]; [by apply elem_of_nil in Hnil|done]. }
  split; [exact Hexact|]. split; [eexists; exact Hmissing|].
  intros p -> -> Hnone.
  assert ("Death" ∈ missing) as Hin.
  { apply Hexact. split; [simpl; by left|].
    intros (row & Hrow & _ & Hname).
    destruct (collect_person_rows _ _ _ _ _ Hcollect row Hrow) as [Hreads Hty].
    apply (Hnone _ Hreads). by rewrite <- Hty. }
  rewrite Hmissing in Hin |- *. simpl in Hin |- *.
  destruct (negb _); [reflexivity|]. by apply elem_of_nil in Hin.
Qed.

(** ** Sorting by key *)

Lemma insert_by_key_perm {A : Type} (x : Z * A) (l : list (Z * A)) :
  insert_by_key x l ≡ₚ x :: l.
Proof.
  induction l as [|y l IH]; simpl; [done|].
  destruct (x.1 <=? y.1); [done|].
  rewrite IH. apply Permutation_swap.
Qed.

Lemma sort_by_key_perm {A : Type} (l : list (Z * A)) : sort_by_key l ≡ₚ l.
Proof.
  induction l as [|x l IH]; simpl; [done|].
  by rewrite insert_by_key_perm, IH.
Qed.

Lemma insert_by_key_sorted {A : Type} (x : Z * A) (l : list (Z * A)) :
  Sorted key_le l → Sorted key_le (insert_by_key x l).
Proof.
  induction 1 as [|y l Hl IH Hhd]; simpl.
  - repeat constructor.
  - destruct (x.1 <=? y.1) eqn:E.
    + constructor; [by constructor|]. constructor. unfold key_le. lia.
    + constructor; [exact IH|].
      destruct Hhd as [|z l' Hz]; simpl.
      * constructor. unfold key_le. lia.
      * destruct (x.1 <=? z.1); constructor; unfold key_le in *; lia.
Qed.

Lemma sort_by_key_sorted {A : Type} (l : list (Z * A)) :
  Sorted key_le (sort_by_key l).
Proof.
  induction l as [|x l IH]; simpl; [constructor|].
  by apply insert_by_key_sorted.
Qed.

Lemma sorted_adjacent {A : Type} (l : list (Z * A)) (i : nat) (a b : Z * A) :
  Sorted key_le l → l !! i = Some a → l !! S i = Some b → a.1 ≤ b.1.
Proof.
  intros Hs. revert i. induction Hs as [|y l Hl IH Hhd]; intros i Ha Hb.
  - discriminate.
  - destruct i as [|i]; simpl in *.
    + injection Ha as <-. destruct Hhd as [|z l' Hz]; [discriminate|].
      simpl in Hb. injection Hb as <-. exact Hz.
    + by apply (IH i).
Qed.

(** Rows of one key keep the order they had. *)
Lemma insert_by_key_stable {A : Type} (k : Z) (x : Z * A)
    (l : list (Z * A)) :
  List.filter (λ y, y.1 =? k) (insert_by_key x l)
  = List.filter (λ y, y.1 =? k) (x :: l).
Proof.
  induction l as [|y l IH]; [done|].
  simpl. destruct (x.1 <=? y.1) eqn:E; [done|].
  simpl. rewrite IH. simpl.
  destruct (x.1 =? k) eqn:Ex, (y.1 =? k) eqn:Ey; try done. lia.
Qed.

Lemma sort_by_key_stable {A : Type} (k : Z) (l : list (Z * A)) :
  List.filter (λ y, y.1 =? k) (sort_by_key l)
  = List.filter (λ y, y.1 =? k) l.
Proof.
  induction l as [|x l IH]; [done|].
  simpl. rewrite insert_by_key_stable. simpl. by rewrite IH.
Qed.

(** C5: [events(raw=True)] returns the accumulated entries (all of them,
    nothing else) in non-decreasing order of key, entries of equal key in
    the order they were accumulated in, and [events(raw=False)] returns the
    same sequence, each entry reduced to (event, person, relation). *)
Theorem events_sorted_by_key (tl : Timeline) :
  ∃ sorted : list Entry,
    (events true tl).1 = RawEvents sorted
    ∧ sorted ≡ₚ timeline tl
    ∧ (∀ i a b, sorted !! i = Some a → sorted !! S i = Some b → a.1 ≤ b.1)
    ∧ (∀ k, List.filter (λ entry, entry.1 =? k) sorted
            = List.filter (λ entry, entry.1 =? k) (timeline tl))
    ∧ (events false tl).1 = Events (snd <$> sorted)
    ∧ timeline (events true tl).2 = sorted
    ∧ timeline (events false tl).2 = sorted.
Proof.
  exists (sort_by_key (timeline tl)). simpl.
  split; [reflexivity|]. split; [apply sort_by_key_perm|].
  split; [|split; [|done]].
  - intros i a b. apply sorted_adjacent, sort_by_key_sorted.
  - intros k. apply sort_by_key_stable.
Qed.

(** ** The event filters *)

Lemma eligible_token_Ok db eligible key :
  known_token db key →
  ∃ eligible', eligible_token (get_event_types db) eligible key = Ok eligible'.
Proof.
  intros Hk. unfold eligible_token.
  destruct (py_in key default_event_types) eqn:E1; [eexists; reflexivity|].
  destruct (py_in key (get_event_types db)) eqn:E2; [eexists; reflexivity|].
  destruct (py_in key EVENT_CATEGORIES) eqn:E3; simpl; [eexists; reflexivity|].
  apply py_in_false in E1, E2, E3. destruct Hk as [H|[H|H]]; done.
Qed.

Lemma eligible_token_Raise db eligible key :
  ¬ known_token db key →
  eligible_token (get_event_types db) eligible key = Raise ValueError.
Proof.
  intros Hk. unfold eligible_token.
  destruct (py_in key default_event_types) eqn:E1.
  { apply py_in_true in E1. destruct Hk. by left. }
  destruct (py_in key (get_event_types db)) eqn:E2.
  { apply py_in_true in E2. destruct Hk. by right; left. }
  destruct (py_in key EVENT_CATEGORIES) eqn:E3; simpl; [|done].
  apply py_in_true in E3. destruct Hk. by right; right.
Qed.

Lemma eligible_token_error db eligible key e :
  eligible_token (get_event_types db) eligible key = Raise e →
  e = ValueError ∧ ¬ known_token db key.
Proof.
  unfold eligible_token.
  destruct (py_in key default_event_types) eqn:E1; [done|].
  destruct (py_in key (get_event_types db)) eqn:E2; [done|].
  destruct (py_in key EVENT_CATEGORIES) eqn:E3; simpl; [done|].
  intros [= <-]. split; [done|].
  apply py_in_false in E1, E2, E3. intros [H|[H|H]]; done.
Qed.

Lemma eligible_tokens_all db filters eligible :
  (∀ key, key ∈ filters → known_token db key) →
  ∃ eligible',
    for_each (eligible_token (get_event_types db)) eligible filters
    = Ok eligible'.
Proof.
  revert eligible. induction filters as [|key filters IH];
    intros eligible Hall; simpl; [eexists; reflexivity|].
  destruct (eligible_token_Ok db eligible key) as [e1 ->]; [apply Hall; left|].
  simpl. apply IH. intros k Hk. apply Hall. by right.
Qed.

Lemma eligible_tokens_some db filters eligible :
  (∃ key, key ∈ filters ∧ ¬ known_token db key) →
  for_each (eligible_token (get_event_types db)) eligible filters
  = Raise ValueError.
Proof.
  revert eligible. induction filters as [|key filters IH];
    intros eligible (bad & Hin & Hbad); simpl.
  { by apply elem_of_nil in Hin. }
  destruct (eligible_token (get_event_types db) eligible key) as [e1|e] eqn:E.
  - simpl. apply IH. exists bad. split; [|done].
    apply elem_of_cons in Hin as [->|Hin]; [|done].
    by rewrite eligible_token_Raise in E.
  - simpl. by apply eligible_token_error in E as [-> _].
Qed.

(** C6: preparing the filters raises [ValueError] when some token is
    neither a standard type name, nor a custom type name of the store, nor
    one of the ten category names; and it returns a set when every token
    is one of these. *)
Theorem unknown_filter_token_rejected (db : Db) (event_filters : list string) :
  length EVENT_CATEGORIES = 10%nat
  ∧ ((∃ key, key ∈ event_filters ∧ ¬ known_token db key) →
     _prepare_eligible_events db event_filters = Raise ValueError)
  ∧ ((∀ key, key ∈ event_filters → known_token db key) →
     ∃ eligible, _prepare_eligible_events db event_filters = Ok eligible).
Proof.
  split; [reflexivity|]. unfold _prepare_eligible_events. split.
  - intros Hbad. by rewrite eligible_tokens_some.
  - intros Hall.
    destruct (eligible_tokens_all db event_filters
                ({["Death"]} ∪ ({["Birth"]} ∪ ∅)) Hall) as [e1 ->].
    simpl. eexists; reflexivity.
Qed.

(** Birth and Death are in every prepared set. *)
Lemma eligible_token_grows db eligible key eligible' (name : string) :
  eligible_token (get_event_types db) eligible key = Ok eligible' →
  name ∈ eligible → name ∈ eligible'.
Proof.
  forget_collaborators. unfold eligible_token.
  repeat (case_match; try done); intros [= <-] Hin; set_solver.
Qed.

Lemma eligible_category_grows filters eligible entry (name : string) :
  name ∈ eligible → name ∈ eligible_category filters eligible entry.
Proof.
  forget_collaborators.
  unfold eligible_category. destruct (py_in _ filters); [|done].
  generalize eligible. induction (entry.2) as [|id ids IH]; intros el Hin;
    simpl; [done|].
  apply IH. destruct (default_event_map !! id); [set_solver|done].
Qed.

Lemma prepared_has_vitals db filters eligible :
  _prepare_eligible_events db filters = Ok eligible →
  "Birth" ∈ eligible ∧ "Death" ∈ eligible.
Proof.
  forget_collaborators. unfold _prepare_eligible_events. intros H.
  apply bind_Ok in H as (e1 & H1 & [= <-]).
  assert ("Birth" ∈ e1 ∧ "Death" ∈ e1) as Hv.
  { refine (for_each_inv (λ s : gset string, "Birth" ∈ s ∧ "Death" ∈ s)
              _ _ _ _ _ _ H1); [set_solver|].
    intros s x s' _ [Hb Hd] Hstep.
    split; by eapply eligible_token_grows. }
  assert (∀ name : string, name ∈ e1 →
            name ∈ foldl (eligible_category filters) e1 menu_standard_xml)
    as Hmenu.
  { intros name. generalize e1.
    induction menu_standard_xml as [|entry menu IH]; intros el Hin; simpl;
      [done|].
    apply IH. by apply eligible_category_grows. }
  assert (∀ (name : string) (l : list string) (el : gset string),
            name ∈ el →
            name ∈ foldl (λ el n, {[n]} ∪ el) el l) as Hcustom.
  { intros name l. induction l as [|n l IH]; intros el Hin; simpl; [done|].
    apply IH, elem_of_union. by right. }
  destruct Hv as [Hb Hd].
  destruct (py_in "custom" filters);
    split; try apply Hcustom; by apply Hmenu.
Qed.

(** ** The date bounds *)

Lemma str_contains_dash (s : string) :
  str_contains "-" s = true ↔ "-"%char ∈ list_ascii_of_string s.
Proof.
  induction s as [|c s IH].
  - simpl. split; [discriminate|]. intros H. by apply elem_of_nil in H.
  - change (str_contains "-" (String c s))
      with ((if ascii_dec "-" c then String.prefix "" s else false)
            || str_contains "-" s).
    change (list_ascii_of_string (String c s))
      with (c :: list_ascii_of_string s).
    rewrite elem_of_cons, <- IH. destruct (ascii_dec "-" c) as [<-|Hne].
    + assert (String.prefix "" s = true) as -> by (by destruct s).
      split; [by left|done].
    + simpl. split; [by right|]. intros [H|H]; done.
Qed.

Lemma parse_bound_Some side d :
  parse_bound side = Ok (Some d) → str_contains "/" side = true.
Proof. unfold parse_bound. destruct (str_contains "/" side); done. Qed.

(** C10: a [dates] string without a dash is ignored: the constructor does
    what it does without the argument, no bound is set, and the string
    raises nothing. Of a string with one dash, a side sets a bound only if
    it holds a slash. *)
Theorem dates_without_dash_ignored (db : Db) (dates : string)
    (events relatives relative_events : option (list string))
    (precision : Z) :
  "-"%char ∉ list_ascii_of_string dates →
  parse_dates (Some dates) = Ok (None, None)
  ∧ __init__ db (Some dates) events relatives relative_events precision
    = __init__ db None events relatives relative_events precision
  ∧ (∀ tl,
       __init__ db (Some dates) events relatives relative_events precision
         = Ok tl →
       start_date tl = None ∧ end_date tl = None)
  ∧ (∀ (d start finish : string) (lower upper : option Date),
       str_split "-" d = [start; finish] →
       parse_dates (Some d) = Ok (lower, upper) →
       (is_Some lower → str_contains "/" start = true)
       ∧ (is_Some upper → str_contains "/" finish = true)).
Proof.
  intros Hdash.
  assert (parse_dates (Some dates) = Ok (None, None)) as Hparse.
  { unfold parse_dates.
    destruct (str_contains "-" dates) eqn:E.
    - apply str_contains_dash in E. done.
    - by rewrite andb_false_r. }
  split; [exact Hparse|]. split; [|split].
  - unfold __init__. by rewrite Hparse.
  - unfold __init__. rewrite Hparse. intros tl H.
    apply bind_Ok in H as (tl1 & _ & H).
    apply bind_Ok in H as (tl2 & _ & H).
    simpl in H. injection H as <-. done.
  - intros d first second lower upper Hsplit. unfold parse_dates.
    destruct (negb (bool_decide (d = "")) && str_contains "-" d).
    + rewrite Hsplit. intros H.
      apply bind_Ok in H as (lo & Hlo & H).
      apply bind_Ok in H as (up & Hup & [= <- <-]).
      split; intros [x ->]; by eapply parse_bound_Some.
    + intros [= <- <-]. split; intros [x [=]].
Qed.

(** ** Properties every method keeps

    The timeline and the cache of seen events change in [merge_step] only,
    the cache of people in [cache_person] only. A property these two keep
    is kept by every method that adds to a timeline. *)

Section Preservation.

Variable P : Timeline → Prop.

Hypothesis P_merge : ∀ person relation relative birth death tl keyed_event,
  P tl → P (merge_step person relation relative birth death tl keyed_event).

Hypothesis P_cache : ∀ tl people, P tl → P (assign_cached_people tl people).

Lemma merge_preserves person keyed relation relative birth death tl :
  P tl →
  P (merge_eligible_events person keyed relation relative birth death tl).
Proof using P_merge.
  unfold merge_eligible_events. revert tl.
  induction keyed as [|k keyed IH]; intros tl HP; simpl; [done|].
  apply IH, P_merge, HP.
Qed.

Lemma cache_person_preserves person birth tl :
  P tl → P (cache_person person birth tl).
Proof using P_cache.
  unfold cache_person. destruct (_ !! _); [done|]. apply P_cache.
Qed.

Lemma add_person_preserves h tl tl' :
  P tl → add_person h tl = Ok tl' → P tl'.
Proof using P_merge P_cache.
  unfold add_person. intros HP H.
  apply bind_Ok in H as (person & _ & H).
  apply bind_Ok in H as ([[keyed birth] death] & _ & [= <-]).
  by apply cache_person_preserves, merge_preserves.
Qed.

Lemma add_family_with_preserves
    (rel : Handle → Z → Z → Timeline → result Timeline)
    h ancestors offspring include_children tl tl' :
  (∀ h a o tl tl', P tl → rel h a o tl = Ok tl' → P tl') →
  P tl →
  add_family_with rel h ancestors offspring include_children tl = Ok tl' →
  P tl'.
Proof using P_merge P_cache.
  intros Hrel HP H. unfold add_family_with in H.
  apply bind_Ok in H as (family & _ & H).
  destruct (reference_person tl).
  - apply bind_Ok in H as (tl1 & H1 & H).
    assert (P tl1) as HP1.
    { destruct (uncached tl _); [by eapply Hrel|by injection H1 as <-]. }
    apply bind_Ok in H as (tl2 & H2 & H).
    assert (P tl2) as HP2.
    { destruct (uncached tl1 _); [by eapply Hrel|by injection H2 as <-]. }
    destruct include_children; [|by injection H as <-].
    refine (for_each_inv P _ _ _ _ HP2 _ H).
    intros s child s' _ Hs Hstep.
    destruct (cached_people s !! ref child);
      [by injection Hstep as <-|by eapply Hrel].
  - apply bind_Ok in H as (tl1 & H1 & H).
    assert (P tl1) as HP1.
    { destruct (handle_set (father_handle family));
        [by eapply add_person_preserves|by injection H1 as <-]. }
    apply bind_Ok in H as (tl2 & H2 & H).
    assert (P tl2) as HP2.
    { destruct (handle_set (mother_handle family));
        [by eapply add_person_preserves|by injection H2 as <-]. }
    refine (for_each_inv P _ _ _ _ HP2 _ H).
    intros s child s' _ Hs Hstep. by eapply add_person_preserves.
Qed.

Lemma add_relative_preserves fuel h ancestors offspring tl tl' :
  P tl → add_relative fuel h ancestors offspring tl = Ok tl' → P tl'.
Proof using P_merge P_cache.
  revert h ancestors offspring tl tl'.
  induction fuel as [|fuel IH]; intros h ancestors offspring tl tl' HP H;
    simpl in H; [discriminate|].
  destruct (eligible_relatives tl) as [|r0 rs] eqn:Erel;
    [by injection H as <-|].
  apply bind_Ok in H as (person & _ & H).
  refine (for_each_inv P _ _ _ _ HP _ H).
  clear H HP tl' Erel. intros tl1 relative tl' _ HP H.
  destruct (str_contains relative _); [|by injection H as <-].
  apply bind_Ok in H as ([[keyed birth] death] & _ & H).
  apply bind_Ok in H as (tl2 & Hoff & H).
  assert (P tl2) as HP2.
  { assert (P (cache_person person birth
                 (merge_eligible_events person keyed
                    (get_one_relationship (depth tl) (db_handle tl)
                       (reference_person tl) person)
                    true birth death tl1))) as HP1
      by by apply cache_person_preserves, merge_preserves.
    destruct (offspring >? 0); [|by injection Hoff as <-].
    refine (for_each_inv P _ _ _ _ HP1 _ Hoff).
    intros s fh s' _ Hs Hstep.
    apply bind_Ok in Hstep as (family & _ & Hstep).
    apply bind_Ok in Hstep as (s1 & H1 & Hstep).
    assert (P s1) as Hs1.
    { destruct (uncached s _); [by eapply IH|by injection H1 as <-]. }
    apply bind_Ok in Hstep as (s2 & H2 & Hstep).
    assert (P s2) as Hs2.
    { destruct (uncached s1 _); [by eapply IH|by injection H2 as <-]. }
    refine (for_each_inv P _ _ _ _ Hs2 _ Hstep).
    intros s3 child s4 _ Hs3 Hchild.
    destruct (cached_people s3 !! ref child);
      [by injection Hchild as <-|by eapply IH]. }
  destruct (_ && _); [|by injection H as <-].
  refine (for_each_inv P _ _ _ _ HP2 _ H).
  intros s fh s' _ Hs Hstep.
  eapply add_family_with_preserves; [|exact Hs|exact Hstep].
  intros h0 a o t t'. apply IH.
Qed.

Lemma add_family_preserves fuel h ancestors offspring include_children
    tl tl' :
  P tl →
  add_family fuel h ancestors offspring include_children tl = Ok tl' →
  P tl'.
Proof using P_merge P_cache.
  intros HP H. eapply add_family_with_preserves; [|exact HP|exact H].
  intros h0 a o t t'. apply add_relative_preserves.
Qed.

Lemma calls_preserve fuel calls tl tl' :
  P tl → for_each (call fuel) tl calls = Ok tl' → P tl'.
Proof using P_merge P_cache.
  intros HP H. refine (for_each_inv P _ _ _ _ HP _ H).
  intros s c s' _ Hs Hc. destruct c; simpl in Hc.
  - by eapply add_person_preserves.
  - by eapply add_relative_preserves.
  - by eapply add_family_preserves.
Qed.

(** The start of a run: [Q] is what is asked of the state before,
    [P_run] that the reset establishes [P], and [P_reference] that the
    assignment of the reference person, of the depth and of bounds that
    were not set keeps it. *)
Variable Q : Timeline → Prop.

Hypothesis P_run : ∀ tl kind, Q tl → P (assign_run tl kind).

Hypothesis P_reference : ∀ tl person d lower upper,
  P tl →
  (start_date tl = None ∨ lower = start_date tl) →
  (end_date tl = None ∨ upper = end_date tl) →
  P (assign_reference tl person d lower upper).

Lemma start_establishes fuel s tl tl' :
  Q tl → start fuel s tl = Ok tl' → P tl'.
Proof using P_merge P_cache P_run P_reference.
  intros HQ H. destruct s as [h a o|h a o]; simpl in H.
  - unfold set_person in H.
    apply bind_Ok in H as (person & _ & H).
    apply bind_Ok in H as ([[keyed birth] death] & _ & H).
    set (tl1 := cache_person person birth
                  (merge_eligible_events person keyed "self" false birth
                     death (assign_run tl "person"))) in *.
    assert (P tl1) as HP1
      by by apply cache_person_preserves, merge_preserves, P_run.
    destruct (_ || _); [|by injection H as <-].
    apply bind_Ok in H as (upper & Hup & H).
    apply bind_Ok in H as (tl2 & Hparents & H).
    set (tl0 := assign_reference tl1 person _ _ upper) in *.
    assert (P tl0) as HP0.
    { apply P_reference; [exact HP1| |].
      - destruct (start_date tl1); [by right|by left].
      - destruct (end_date tl1); [right|by left]. by injection Hup as <-. }
    assert (P tl2) as HP2.
    { refine (for_each_inv P _ _ _ _ HP0 _ Hparents).
      intros s f s' _ Hs Hstep. by eapply add_family_preserves. }
    refine (for_each_inv P _ _ _ _ HP2 _ H).
    intros s f s' _ Hs Hstep. by eapply add_family_preserves.
  - unfold set_family in H.
    eapply add_family_preserves; [|exact H]. by apply P_run.
Qed.

Lemma run_establishes fuel s calls tl tl' :
  Q tl → run fuel s calls tl = Ok tl' → P tl'.
Proof using P_merge P_cache P_run P_reference.
  unfold run. intros HQ H. apply bind_Ok in H as (tl1 & H1 & H).
  eapply calls_preserve; [|exact H]. by eapply start_establishes.
Qed.

End Preservation.

(** ** No event twice *)

Lemma handles_of_app entries entry :
  handles_of (entries ++ [entry])
  = handles_of entries ++ [handle (entry_event entry)].
Proof. unfold handles_of. by rewrite fmap_app. Qed.

Lemma merge_step_seen person relation relative birth death tl keyed_event :
  seen_exactly tl →
  seen_exactly (merge_step person relation relative birth death tl
                  keyed_event).
Proof.
  intros [Hnd Hsame]. unfold merge_step.
  destruct (py_in _ (cached_events tl)) eqn:Eseen; [done|].
  destruct (_ && _); [done|].
  destruct (before_start tl _); [done|].
  destruct (after_end tl _); [done|].
  apply py_in_false in Eseen.
  unfold seen_exactly. simpl. rewrite handles_of_app. simpl. split.
  - apply NoDup_app. split; [done|]. split; [|apply NoDup_singleton].
    intros h Hin Hh. apply list_elem_of_singleton in Hh as ->.
    by apply Eseen, Hsame.
  - intros h. rewrite !elem_of_app, Hsame. done.
Qed.

(** C4: in one construction run every event handle is in the timeline at
    most once, and so in what [events] returns, raw or not: the merge
    leaves out an event whose handle is in the cache of seen events, and
    the cache holds the handle of every entry. *)
Theorem event_handles_unique (fuel : nat) (s : Start) (calls : list Call)
    (tl tl' : Timeline) :
  run fuel s calls tl = Ok tl' →
  NoDup (handles_of (timeline tl'))
  ∧ (∀ h, h ∈ handles_of (timeline tl') ↔ h ∈ cached_events tl')
  ∧ (∀ entries, (events true tl').1 = RawEvents entries →
                NoDup (handles_of entries))
  ∧ (∀ items, (events false tl').1 = Events items →
              NoDup ((λ item : Item, handle item.1.1) <$> items))
  ∧ (∀ person relation relative birth death t keyed_event,
       handle keyed_event.2 ∈ cached_events t →
       merge_step person relation relative birth death t keyed_event = t).
Proof.
  intros H.
  assert (seen_exactly tl') as [Hnd Hsame].
  { refine (run_establishes seen_exactly _ _ (λ _, True) _ _
              fuel s calls tl tl' I H).
    - intros. by apply merge_step_seen.
    - intros t people Ht. exact Ht.
    - intros t kind _. split; [constructor|]. done.
    - intros t person d lower upper Ht _ _. exact Ht. }
  assert (NoDup (handles_of (sort_by_key (timeline tl')))) as Hsorted.
  { unfold handles_of. by rewrite sort_by_key_perm. }
  split; [exact Hnd|]. split; [exact Hsame|]. split; [|split].
  - simpl. by intros entries [= <-].
  - simpl. intros items [= <-]. by rewrite <- list_fmap_compose.
  - intros person relation relative birth death t keyed_event Hin.
    unfold merge_step. apply py_in_true in Hin. by rewrite Hin.
Qed.

(** ** Within the bounds *)

Lemma merge_step_bounded lower upper person relation relative birth death
    tl keyed_event :
  bounded_by lower upper tl →
  bounded_by lower upper
    (merge_step person relation relative birth death tl keyed_event).
Proof.
  intros (Hlo & Hup & Hin). unfold merge_step.
  destruct (py_in _ (cached_events tl)); [done|].
  destruct (_ && _); [done|].
  destruct (before_start tl _) eqn:Eb; [done|].
  destruct (after_end tl _) eqn:Ea; [done|].
  unfold before_start in Eb. unfold after_end in Ea.
  rewrite Hlo in Eb. rewrite Hup in Ea.
  split; [done|]. split; [done|]. simpl.
  intros entry. rewrite elem_of_app, list_elem_of_singleton.
  intros [Hold| ->]; [by apply Hin|]. simpl. lia.
Qed.

(** The override of a birth or death event is an override of the
    eligibility test only: out of the bounds, the event is left out. *)
Lemma out_of_bounds_left_out person relation relative birth death tl
    keyed_event :
  before_start tl keyed_event.1 || after_end tl keyed_event.1 = true →
  merge_step person relation relative birth death tl keyed_event = tl.
Proof.
  intros H. unfold merge_step.
  destruct (py_in _ (cached_events tl)); [done|].
  destruct (_ && _); [done|].
  destruct (before_start tl _); [done|].
  destruct (after_end tl _); done.
Qed.

(** C2: in a run with a start bound and an end bound, every entry
    returned has its key within the two sort values, ends included. This
    holds for the entries of overridden birth and death events too: no
    entry is outside the bounds. *)
Theorem timeline_within_bounds (fuel : nat) (s : Start) (calls : list Call)
    (tl tl' : Timeline) (lower upper : Date) :
  start_date tl = Some lower →
  end_date tl = Some upper →
  run fuel s calls tl = Ok tl' →
  start_date tl' = Some lower ∧ end_date tl' = Some upper
  ∧ ∀ entries, (events true tl').1 = RawEvents entries →
               ∀ entry, entry ∈ entries →
                        sortval lower ≤ entry.1 ≤ sortval upper.
Proof.
  intros Hlo Hup H.
  assert (bounded_by lower upper tl') as (Hlo' & Hup' & Hin).
  { refine (run_establishes (bounded_by lower upper) _ _
              (λ t, start_date t = Some lower ∧ end_date t = Some upper)
              _ _ fuel s calls tl tl' (conj Hlo Hup) H).
    - intros. by apply merge_step_bounded.
    - intros t people Ht. exact Ht.
    - intros t kind [H1 H2]. split; [done|]. split; [done|].
      intros entry Hentry. by apply elem_of_nil in Hentry.
    - intros t person d lo up (H1 & H2 & H3) Hs He.
      split; [|split; [|exact H3]]; simpl.
      + destruct Hs as [Hs|Hs]; congruence.
      + destruct He as [He|He]; congruence. }
  split; [exact Hlo'|]. split; [exact Hup'|].
  simpl. intros entries [= <-] entry Hentry. apply Hin.
  by rewrite <- (sort_by_key_perm (timeline tl')).
Qed.

(** ** The chosen birth and death are among the keyed events *)

Lemma keyed_steps_events db family events st st' :
  for_each (keyed_step db family) st events = Ok st' →
  snd <$> st'.2 = (snd <$> st.2) ++ events.
Proof.
  revert st. induction events as [|e events IH]; intros st; simpl.
  - intros [= <-]. by rewrite app_nil_r.
  - intros H. apply bind_Ok in H as (st1 & H1 & H).
    apply IH in H. rewrite H.
    unfold keyed_step in H1. apply bind_Ok in H1 as (k & _ & [= <-]).
    simpl. rewrite fmap_app. simpl. by rewrite <- app_assoc.
Qed.

Lemma prepare_event_sortvals_events db events family keyed :
  prepare_event_sortvals db events family = Ok keyed →
  snd <$> keyed = events.
Proof.
  unfold prepare_event_sortvals. destruct events as [|e events].
  - by intros [= <-].
  - intros H. apply bind_Ok in H as (st & H & [= <-]).
    by apply keyed_steps_events in H.
Qed.

Lemma extract_step_chosen db v event_ref v' :
  extract_step db v event_ref = Ok v' →
  (∀ e, e ∈ [v_birth v; v_birth_fallback v; v_death v; v_death_fallback v]
        → ∀ x, e = Some x → x ∈ v_events v) →
  ∀ e, e ∈ [v_birth v'; v_birth_fallback v'; v_death v'; v_death_fallback v']
       → ∀ x, e = Some x → x ∈ v_events v'.
Proof.
  unfold extract_step. intros H Hinv.
  apply bind_Ok in H as (event & _ & [= <-]). simpl.
  intros e He x Hx. rewrite elem_of_app, list_elem_of_singleton.
  assert (∀ (c : bool) (o : option Event),
            o ∈ [v_birth v; v_birth_fallback v; v_death v;
                 v_death_fallback v] →
            (if c then Some event else o) = Some x →
            x ∈ v_events v ∨ x = event) as Hcase.
  { intros c o Ho. destruct c; [intros [= <-]; by right|].
    intros ->. left. by eapply Hinv. }
  rewrite !elem_of_cons in He.
  destruct He as [->|[->|[->|[->|He]]]].
  - eapply Hcase; [|exact Hx]. left.
  - eapply Hcase; [|exact Hx]. right; left.
  - eapply Hcase; [|exact Hx]. right; right; left.
  - eapply Hcase; [|exact Hx]. right; right; right; left.
  - by apply elem_of_nil in He.
Qed.

Lemma or_fallback_Some chosen fallback x :
  or_fallback chosen fallback = Some x → chosen = Some x ∨ fallback = Some x.
Proof. destruct chosen, fallback; simpl; intros [= <-]; auto. Qed.

Lemma extract_chosen_keyed db person keyed birth death :
  extract_person_events db person = Ok (keyed, birth, death) →
  ∀ e x, e ∈ [birth; death] → e = Some x → x ∈ (snd <$> keyed).
Proof.
  unfold extract_person_events. intros H.
  apply bind_Ok in H as (v & Hv & H).
  apply bind_Ok in H as (keyed0 & Hk & H).
  apply bind_Ok in H as (st & Hfam & [= <- <- <-]).
  apply prepare_event_sortvals_events in Hk.
  assert (∀ e, e ∈ [v_birth v; v_birth_fallback v; v_death v;
                    v_death_fallback v]
               → ∀ x, e = Some x → x ∈ v_events v) as Hchosen.
  { refine (for_each_inv
              (λ v, ∀ e, e ∈ [v_birth v; v_birth_fallback v; v_death v;
                              v_death_fallback v]
                         → ∀ x, e = Some x → x ∈ v_events v)
              _ _ _ _ _ _ Hv).
    - simpl. intros e He x ->. rewrite !elem_of_cons in He.
      destruct He as [?|[?|[?|[?|He]]]]; try done.
      by apply elem_of_nil in He.
    - intros s r s' _ Hs Hstep. by eapply extract_step_chosen. }
  assert (∀ x, x ∈ keyed0 → x ∈ st.1) as Hprefix.
  { refine (for_each_inv (λ st : list Keyed * list Event,
                            ∀ x, x ∈ keyed0 → x ∈ st.1) _ _ _ _ _ _ Hfam);
      [done|].
    intros s fh s' _ Hs Hstep. unfold extract_family_step in Hstep.
    apply bind_Ok in Hstep as (family & _ & Hstep).
    apply bind_Ok in Hstep as (events' & _ & Hstep).
    apply bind_Ok in Hstep as (keyed' & _ & [= <-]). simpl.
    intros x Hx. apply elem_of_app. left. by apply Hs. }
  assert (∀ x, x ∈ v_events v → x ∈ (snd <$> st.1)) as Hevents.
  { intros x Hx. rewrite <- Hk in Hx.
    apply list_elem_of_fmap in Hx as (y & -> & Hy).
    apply list_elem_of_fmap. exists y. split; [done|]. by apply Hprefix. }
  intros e x He ->. apply Hevents.
  rewrite !elem_of_cons in He. destruct He as [He|[He|He]].
  - symmetry in He. apply or_fallback_Some in He as [He|He].
    + apply (Hchosen (v_birth v)); [left|done].
    + apply (Hchosen (v_birth_fallback v)); [right; left|done].
  - symmetry in He. apply or_fallback_Some in He as [He|He].
    + apply (Hchosen (v_death v)); [right; right; left|done].
    + apply (Hchosen (v_death_fallback v));
        [right; right; right; left|done].
  - by apply elem_of_nil in He.
Qed.

(** ** What the merge lets in *)

Lemma merge_step_frame person relation relative birth death tl keyed_event :
  let tl' :=
    merge_step person relation relative birth death tl keyed_event in
  start_date tl' = start_date tl ∧ end_date tl' = end_date tl
  ∧ (∀ e r, is_eligible tl' e r = is_eligible tl e r)
  ∧ (∀ h, h ∈ handles_of (timeline tl) → h ∈ handles_of (timeline tl')).
Proof.
  unfold merge_step.
  destruct (py_in _ (cached_events tl)); [done|].
  destruct (_ && _); [done|].
  destruct (before_start tl _); [done|].
  destruct (after_end tl _); [done|].
  simpl. split; [done|]. split; [done|]. split; [done|].
  intros h Hh. rewrite handles_of_app. apply elem_of_app. by left.
Qed.

Lemma merge_lets_in person keyed relation relative birth death tl k e :
  (∀ h, h ∈ cached_events tl → h ∈ handles_of (timeline tl)) →
  start_date tl = None → end_date tl = None →
  (k, e) ∈ keyed →
  same_event birth e || same_event death e || is_eligible tl e relative
    = true →
  handle e ∈ handles_of
               (timeline (merge_eligible_events person keyed relation
                            relative birth death tl)).
Proof.
  unfold merge_eligible_events. revert tl.
  induction keyed as [|ke keyed IH]; intros tl Hcache Hlo Hup Hin Hpass.
  { by apply elem_of_nil in Hin. }
  simpl.
  destruct (merge_step_frame person relation relative birth death tl ke)
    as (Hlo' & Hup' & Hel' & Hmono).
  assert (∀ h, h ∈ cached_events
                     (merge_step person relation relative birth death tl ke)
               → h ∈ handles_of
                       (timeline (merge_step person relation relative birth
                                    death tl ke))) as Hcache'.
  { unfold merge_step.
    destruct (py_in _ (cached_events tl)); [done|].
    destruct (_ && _); [done|].
    destruct (before_start tl _); [done|].
    destruct (after_end tl _); [done|].
    simpl. intros h. rewrite handles_of_app, !elem_of_app.
    intros [Hh|Hh]; [left; by apply Hcache|by right]. }
  assert (∀ t, (∀ h, h ∈ handles_of
                           (timeline (merge_step person relation relative
                                        birth death tl ke))
                     → h ∈ handles_of (timeline t)) →
               ∀ l, (∀ h, h ∈ handles_of (timeline t) →
                          h ∈ handles_of
                                (timeline
                                   (foldl (merge_step person relation
                                             relative birth death) t l))))
    as Hgrow.
  { intros t _ l. revert t. induction l as [|x l IHl]; intros t h Hh;
      simpl; [done|].
    apply IHl.
    by apply (merge_step_frame person relation relative birth death t x). }
  apply elem_of_cons in Hin as [<-|Hin].
  - apply (Hgrow _ (λ h Hh, Hh)).
    unfold merge_step. simpl.
    destruct (py_in (handle e) (cached_events tl)) eqn:Eseen.
    { apply py_in_true in Eseen. by apply Hcache. }
    assert (negb (is_eligible tl e relative)
            && negb (same_event birth e || same_event death e) = false)
      as ->.
    { destruct (is_eligible tl e relative),
        (same_event birth e), (same_event death e); done. }
    unfold before_start, after_end. rewrite Hlo, Hup. simpl.
    rewrite handles_of_app. apply elem_of_app. right. by left.
  - apply IH; try done; [congruence|congruence|by rewrite Hel'].
Qed.

(** With no date bounds, [set_person(handle)] returns once the extraction
    has, and its timeline holds the chosen birth and death. *)
Lemma set_person_includes_vitals (fuel : nat) (h : Handle) (tl : Timeline)
    (person : Person) (keyed : list Keyed) (birth death : option Event) :
  start_date tl = None →
  end_date tl = None →
  person_table (db_handle tl) h = Some person →
  extract_person_events (db_handle tl) person = Ok (keyed, birth, death) →
  (∃ tl',
     set_person fuel h 0 0 tl = Ok tl'
     ∧ (∀ b, birth = Some b → handle b ∈ handles_of (timeline tl'))
     ∧ (∀ d, death = Some d → handle d ∈ handles_of (timeline tl')))
  ∧ (∀ db filters eligible,
       _prepare_eligible_events db filters = Ok eligible →
       "Birth" ∈ eligible ∧ "Death" ∈ eligible).
Proof.
  intros Hlo Hup Hperson Hextract. split.
  - unfold set_person, get_person_from_handle. simpl.
    rewrite Hperson. simpl. rewrite Hextract. simpl.
    eexists. split; [reflexivity|].
    assert (∀ e x, e ∈ [birth; death] → e = Some x →
              handle x ∈ handles_of
                (timeline
                   (merge_eligible_events person keyed "self" false birth
                      death (assign_run tl "person")))) as Hin.
    { intros e x He ->.
      pose proof (extract_chosen_keyed _ _ _ _ _ Hextract (Some x) x He
                    eq_refl) as Hx.
      apply list_elem_of_fmap in Hx as ([k x'] & Heq & Hx).
      simpl in Heq. subst x'.
      apply (merge_lets_in _ _ _ _ _ _ _ k x); try done.
      rewrite !elem_of_cons in He.
      destruct He as [<-|[<-|He]]; [| |by apply elem_of_nil in He]; simpl.
      - by rewrite bool_decide_eq_true_2.
      - rewrite (bool_decide_eq_true_2 (handle x = handle x)) by done.
        by rewrite orb_true_r. }
    assert (∀ t, timeline (cache_person person birth t) = timeline t) as Hc.
    { intros t. unfold cache_person. by destruct (_ !! _). }
    rewrite Hc. split.
    + intros b ->. apply (Hin (Some b)); [left|done].
    + intros d ->. apply (Hin (Some d)); [right; left|done].
  - intros db filters eligible. forget_collaborators.
    apply prepared_has_vitals.
Qed.

(** ** Synthetic sort keys of family events *)

Lemma union_child_scan_found db refs birth fallback :
  union_child_scan db refs None None = Ok (birth, fallback) →
  ∀ b, or_fallback birth fallback = Some b →
       ∃ pre r post,
         refs = pre ++ r :: post
         ∧ Forall (λ r', ∃ e, event_table db (ref r') = Some e
                              ∧ birth_like e = false) pre
         ∧ event_table db (ref r) = Some b
         ∧ birth_like b = true.
Proof.
  induction refs as [|r refs IH]; simpl.
  - intros [= <- <-] b [=].
  - intros H. apply bind_Ok in H as (event & He & H).
    apply of_option_Ok in He.
    destruct (is_birth (type event)) eqn:Eb.
    + injection H as <- <-. simpl. intros b [= <-].
      exists [], r, refs. repeat split; try done.
      unfold birth_like. by rewrite Eb.
    + simpl in H. destruct (is_birth_fallback (type event)) eqn:Ef.
      * injection H as <- <-. simpl. intros b [= <-].
        exists [], r, refs. repeat split; try done.
        unfold birth_like. by rewrite Eb, Ef.
      * intros b Hb. destruct (IH H b Hb) as (pre & r' & post & -> & Hpre & Hr).
        exists (r :: pre), r', post. split; [done|]. split; [|done].
        constructor; [|done]. exists event. split; [done|].
        unfold birth_like. by rewrite Eb, Ef.
Qed.

Lemma scan_stops_at_found db child b :
  scan_stops_at db child b →
  ∃ birth fallback,
    union_child_scan db (person_event_ref_list child) None None
      = Ok (birth, fallback)
    ∧ or_fallback birth fallback = Some b.
Proof.
  intros (pre & r & post & -> & Hpre & Hr & Hb).
  induction Hpre as [|r' pre (e & He & Hne) Hpre IH]; simpl.
  - unfold get_event_from_handle. rewrite Hr. simpl.
    unfold birth_like in Hb. destruct (is_birth (type b)); simpl.
    + by eexists _, _.
    + simpl in Hb. rewrite Hb. by eexists _, _.
  - unfold get_event_from_handle. rewrite He. simpl.
    unfold birth_like in Hne. apply orb_false_iff in Hne as [-> ->].
    simpl. exact IH.
Qed.

Lemma py_index_first {A : Type} (x : A) (l : list A) :
  py_index (x :: l) 0 = Ok x.
Proof.
  assert (0 < Z.of_nat (S (length l))) as H by lia.
  apply Z.ltb_lt in H.
  unfold py_index. cbn [length]. cbv zeta.
  change (0 <? 0) with false. cbv iota.
  change (0 <=? 0) with true. rewrite H. done.
Qed.

Lemma py_index_last {A : Type} (x : A) (l : list A) :
  last l = Some x → py_index l (-1) = Ok x.
Proof.
  intros Hlast. destruct l as [|y l]; [done|].
  rewrite last_lookup in Hlast. cbn [length Nat.pred] in Hlast.
  unfold py_index. cbn [length]. cbv zeta.
  change (-1 <? 0) with true. cbv iota.
  replace (Z.of_nat (S (length l)) + -1) with (Z.of_nat (length l)) by lia.
  assert (0 <= Z.of_nat (length l)) as H1 by lia.
  assert (Z.of_nat (length l) < Z.of_nat (S (length l))) as H2 by lia.
  apply Z.leb_le in H1. apply Z.ltb_lt in H2. rewrite H1, H2.
  simpl. by rewrite Nat2Z.id, Hlast.
Qed.

Lemma py_index_elem {A : Type} (x : A) (l : list A) (i : Z) :
  py_index l i = Ok x → x ∈ l.
Proof.
  unfold py_index. destruct (_ && _); [|done].
  intros H. apply of_option_Ok in H. by eapply list_elem_of_lookup_2.
Qed.

(** The sort value generated from a child whose scan stops at a dated
    event. *)
Lemma generate_from_child db family union c child b :
  py_index (child_ref_list family) (Z.b2z union - 1) = Ok c →
  person_table db (ref c) = Some child →
  scan_stops_at db child b →
  sortval (date b) ≠ 0 →
  generate_union_event_sortval db (Some family) union
  = Ok (Some (sortval (date b) + (if union then -1 else 1))).
Proof.
  intros Hc Hchild Hbirth Hs.
  unfold generate_union_event_sortval. simpl.
  destruct (child_ref_list family) as [|c0 cs] eqn:El.
  { apply py_index_elem in Hc. by apply elem_of_nil in Hc. }
  rewrite Hc. simpl. unfold get_person_from_handle. rewrite Hchild. simpl.
  destruct (scan_stops_at_found db child b Hbirth) as (bi & fb & -> & Hor).
  simpl. unfold or_fallback in Hor.
  assert (match bi with
          | Some _ => bi
          | None => match fb with Some f => Some f | None => bi end
          end = Some b) as ->.
  { destruct bi, fb; done. }
  assert ((sortval (date b) =? 0) = false) as -> by by apply Z.eqb_neq. simpl.
  by destruct union.
Qed.

(** Where the scan finds no date nothing is generated. *)
Lemma generate_without_child db family union v :
  scan_finds_no_date db family →
  generate_union_event_sortval db (Some family) union = Ok v →
  no_sortval v = true.
Proof.
  intros Hnone. unfold generate_union_event_sortval. simpl.
  destruct (child_ref_list family) as [|c0 cs] eqn:El; [by intros [= <-]|].
  intros H. apply bind_Ok in H as (c & Hc & H).
  apply bind_Ok in H as (child & Hchild & H). apply of_option_Ok in Hchild.
  apply bind_Ok in H as ([bi fb] & Hscan & H).
  apply py_index_elem in Hc. rewrite <- El in Hc.
  pose proof (union_child_scan_found _ _ _ _ Hscan) as Hfound.
  unfold or_fallback in Hfound.
  destruct (match bi with
            | Some _ => bi
            | None => match fb with Some f => Some f | None => bi end
            end) as [b|] eqn:Eb; [|by injection H as <-].
  assert (sortval (date b) = 0) as Hzero.
  { apply (Hnone c child b Hc Hchild).
    destruct (Hfound b) as (pre & r & post & Hl & Hrest).
    - destruct bi, fb; done.
    - by exists pre, r, post. }
  rewrite Hzero in H. simpl in H. by injection H as <-.
Qed.

(** The keyed list, position by position. *)
Lemma keyed_steps_prefix db family events st st' :
  for_each (keyed_step db family) st events = Ok st' →
  ∃ more, st'.2 = st.2 ++ more.
Proof.
  revert st. induction events as [|e events IH]; intros st; simpl.
  - intros [= <-]. exists []. by rewrite app_nil_r.
  - intros H. apply bind_Ok in H as (st1 & H1 & H).
    apply IH in H as (more & ->).
    unfold keyed_step in H1. apply bind_Ok in H1 as (k & _ & [= <-]).
    simpl. rewrite <- app_assoc. by eexists.
Qed.

Lemma keyed_steps_at db family events lastval acc st i e :
  for_each (keyed_step db family) (lastval, acc) events = Ok st →
  events !! i = Some e →
  ∃ k,
    st.2 !! (length acc + i)%nat = Some (k, e)
    ∧ event_sortval db family
        (match i with
         | O => lastval
         | S j => default 0 (fst <$> st.2 !! (length acc + j)%nat)
         end) e = Ok k.
Proof.
  revert lastval acc i. induction events as [|e0 events IH];
    intros lastval acc i H Hi; [done|].
  simpl in H. apply bind_Ok in H as ([k0 acc0] & H0 & H).
  unfold keyed_step in H0. simpl in H0.
  apply bind_Ok in H0 as (k & Hk & [= <- <-]).
  destruct (keyed_steps_prefix _ _ _ _ _ H) as (more & Hmore).
  simpl in Hmore.
  assert (st.2 !! length acc = Some (k, e0)) as Hhere.
  { rewrite Hmore, <- app_assoc. simpl. by apply list_lookup_middle. }
  destruct i as [|j].
  - injection Hi as <-. exists k. rewrite Nat.add_0_r. done.
  - simpl in Hi. destruct (IH _ _ j H Hi) as (k' & Hat & Hkey).
    rewrite length_app in Hat, Hkey. simpl in Hat, Hkey.
    exists k'. split.
    + rewrite <- Hat. f_equal. lia.
    + destruct j as [|j'].
      * rewrite Nat.add_0_r, Hhere. done.
      * rewrite <- Hkey.
        by replace (length acc + S j')%nat with (length acc + 1 + j')%nat
          by lia.
Qed.

Lemma event_sortval_undated db family lastval e k :
  sortval (date e) = 0 →
  event_sortval db (Some family) lastval e = Ok k →
  ∃ v1 v2,
    (if is_marriage (type e)
     then generate_union_event_sortval db (Some family) true
     else Ok (Some 0)) = Ok v1
    ∧ (if is_divorce (type e)
       then generate_union_event_sortval db (Some family) false
       else Ok v1) = Ok v2
    ∧ k = if no_sortval v2 then lastval + 1 else default 0 v2.
Proof.
  intros Hzero. unfold event_sortval. rewrite Hzero. simpl.
  intros H. apply bind_Ok in H as (v1 & H1 & H).
  apply bind_Ok in H as (v2 & H2 & [= <-]). by exists v1, v2.
Qed.

(** The key of an undated union event as the code derives it: in a family
    event list, an undated marriage gets the sort value of the event at
    which the scan of the first child stops, less one; an undated divorce
    that of the last child, plus one; and where the scan finds no date the
    key is the last known key plus one. A derived key of 0 counts as none.
    The scan stops at the first birth or birth fallback in list order. *)
Theorem union_event_sort_key (db : Db) (family : Family)
    (events : list Event) (keyed : list Keyed) (i : nat) (e : Event) :
  prepare_event_sortvals db events (Some family) = Ok keyed →
  events !! i = Some e →
  sortval (date e) = 0 →
  ∃ k,
    keyed !! i = Some (k, e)
    ∧ (is_marriage (type e) = true →
       ∀ c child b,
         head (child_ref_list family) = Some c →
         person_table db (ref c) = Some child →
         scan_stops_at db child b →
         sortval (date b) ≠ 0 → sortval (date b) - 1 ≠ 0 →
         k = sortval (date b) - 1)
    ∧ (is_divorce (type e) = true →
       ∀ c child b,
         last (child_ref_list family) = Some c →
         person_table db (ref c) = Some child →
         scan_stops_at db child b →
         sortval (date b) ≠ 0 → sortval (date b) + 1 ≠ 0 →
         k = sortval (date b) + 1)
    ∧ (is_marriage (type e) || is_divorce (type e) = true →
       scan_finds_no_date db family →
       k = last_known_key events keyed i + 1).
Proof.
  intros Hprep Hi Hzero. unfold prepare_event_sortvals in Hprep.
  destruct events as [|e0 events]; [done|].
  apply bind_Ok in Hprep as (st & Hsteps & [= <-]).
  destruct (keyed_steps_at _ _ _ _ _ _ _ _ Hsteps Hi) as (k & Hat & Hkey).
  simpl in Hat.
  change (match i with
          | O => seed_lastval (e0 :: events)
          | S j => default 0 (fst <$> st.2 !! (length (@nil Keyed) + j)%nat)
          end) with (last_known_key (e0 :: events) st.2 i) in Hkey.
  exists k. split; [exact Hat|].
  destruct (event_sortval_undated _ _ _ _ _ Hzero Hkey)
    as (v1 & v2 & H1 & H2 & Hk).
  assert (∀ z, z ≠ 0 → no_sortval (Some z) = false) as Hsome.
  { intros z Hz. simpl. by apply Z.eqb_neq. }
  split; [|split].
  - intros Hm c child b Hc Hchild Hbirth Hs Hs1.
    rewrite Hm in H1.
    assert (is_divorce (type e) = false) as Hd.
    { unfold is_marriage in Hm. apply bool_decide_eq_true in Hm.
      unfold is_divorce. rewrite Hm. done. }
    rewrite Hd in H2. injection H2 as <-.
    destruct (child_ref_list family) as [|c0 cs] eqn:El; [done|].
    injection Hc as ->.
    rewrite (generate_from_child db family true c child b) in H1;
      [|rewrite El; apply py_index_first|done..].
    injection H1 as <-. rewrite Hsome in Hk by done. simpl in Hk. lia.
  - intros Hd c child b Hc Hchild Hbirth Hs Hs1.
    rewrite Hd in H2.
    rewrite (generate_from_child db family false c child b) in H2;
      [|by apply py_index_last|done..].
    injection H2 as <-. by rewrite Hsome in Hk by done.
  - intros Hmd Hnone.
    assert (no_sortval v2 = true) as Hv2; [|by rewrite Hv2 in Hk].
    destruct (is_divorce (type e)) eqn:Ed.
    + by eapply generate_without_child.
    + injection H2 as <-. rewrite orb_false_r in Hmd. rewrite Hmd in H1.
      by eapply generate_without_child.
Qed.

(** ** The extraction returns on a store whose references resolve *)

Lemma for_each_total {A S : Type} (P : S → Prop) (body : S → A → result S)
    (l : list A) (s : S) :
  P s →
  (∀ s x, x ∈ l → P s → ∃ s', body s x = Ok s' ∧ P s') →
  ∃ s', for_each body s l = Ok s' ∧ P s'.
Proof.
  revert s. induction l as [|x l IH]; intros s Hs Hstep; simpl.
  - by exists s.
  - destruct (Hstep s x) as (s1 & -> & Hs1); [left|done|].
    simpl. apply IH; [done|].
    intros s2 y Hy. apply Hstep. by right.
Qed.

Lemma union_child_scan_total db refs birth fallback :
  (∀ r, r ∈ refs → is_Some (event_table db (ref r))) →
  ∃ found, union_child_scan db refs birth fallback = Ok found.
Proof.
  induction refs as [|r refs IH]; intros Hres; simpl; [by eexists|].
  destruct (Hres r) as [e He]; [left|].
  unfold get_event_from_handle. rewrite He. simpl.
  destruct (is_birth (type e)); [by eexists|].
  destruct (_ && _); [by eexists|].
  apply IH. intros r' Hr'. apply Hres. by right.
Qed.

Lemma generate_union_total db family union :
  refs_resolve db →
  (∀ c, c ∈ child_ref_list family → is_Some (person_table db (ref c))) →
  ∃ v, generate_union_event_sortval db (Some family) union = Ok v.
Proof.
  intros [Hpersons _] Hchildren.
  unfold generate_union_event_sortval. simpl.
  destruct (child_ref_list family) as [|c0 cs] eqn:El; [by eexists|].
  assert (∃ c, py_index (c0 :: cs) (Z.b2z union - 1) = Ok c) as [c Hc].
  { destruct union; simpl.
    - exists c0. apply py_index_first.
    - destruct (last (c0 :: cs)) as [c|] eqn:Elast.
      + exists c. by apply py_index_last.
      + by apply last_None in Elast. }
  rewrite Hc. simpl.
  destruct (Hchildren c) as [child Hchild].
  { eapply py_index_elem. exact Hc. }
  unfold get_person_from_handle. rewrite Hchild. simpl.
  destruct (union_child_scan_total db (person_event_ref_list child)
              None None) as [[bi fb] ->].
  { by apply (Hpersons (ref c) child). }
  simpl. repeat case_match; by eexists.
Qed.

Lemma event_sortval_total db family lastval e :
  match family with
  | Some f =>
      refs_resolve db
      ∧ ∀ c, c ∈ child_ref_list f → is_Some (person_table db (ref c))
  | None =>
      sortval (date e) = 0 →
      is_marriage (type e) = false ∧ is_divorce (type e) = false
  end →
  ∃ k, event_sortval db family lastval e = Ok k.
Proof.
  intros Hfam. unfold event_sortval. simpl.
  destruct (sortval (date e) =? 0) eqn:Ez; [|by eexists].
  apply Z.eqb_eq in Ez.
  destruct family as [f|].
  - destruct Hfam as [Hres Hchildren].
    destruct (generate_union_total db f true Hres Hchildren) as [v1 H1].
    destruct (generate_union_total db f false Hres Hchildren) as [v2 H2].
    rewrite H1, H2.
    destruct (is_marriage (type e)), (is_divorce (type e)); simpl;
      by eexists.
  - destruct (Hfam Ez) as [-> ->]. simpl. by eexists.
Qed.

Lemma prepare_event_sortvals_total db events family :
  (∀ e, e ∈ events →
        match family with
        | Some f =>
            refs_resolve db
            ∧ ∀ c, c ∈ child_ref_list f → is_Some (person_table db (ref c))
        | None =>
            sortval (date e) = 0 →
            is_marriage (type e) = false ∧ is_divorce (type e) = false
        end) →
  ∃ keyed, prepare_event_sortvals db events family = Ok keyed.
Proof.
  intros Hall. unfold prepare_event_sortvals.
  destruct events as [|e0 events]; [by eexists|].
  destruct (for_each_total (λ _, True) (keyed_step db family)
              (e0 :: events) (seed_lastval (e0 :: events), []) I)
    as (st & -> & _); [|by eexists].
  intros st e He _. unfold keyed_step.
  destruct (event_sortval_total db family st.1 e (Hall e He)) as [k ->].
  simpl. by eexists.
Qed.

Lemma extract_person_events_total db h person :
  refs_resolve db →
  person_table db h = Some person →
  own_union_dated db person →
  ∃ keyed birth death,
    extract_person_events db person = Ok (keyed, birth, death).
Proof.
  intros Hres Hperson Hown. pose proof Hres as [Hpersons Hfamilies].
  destruct (Hpersons h person Hperson) as [Hevents Hfams].
  unfold extract_person_events.
  destruct (for_each_total
              (λ v, ∀ e, e ∈ v_events v →
                         sortval (date e) = 0 →
                         is_marriage (type e) = false
                         ∧ is_divorce (type e) = false)
              (extract_step db)
              (person_event_ref_list person)
              {| v_birth := None; v_birth_fallback := None;
                 v_death := None; v_death_fallback := None;
                 v_events := [] |})
    as (v & -> & Hv).
  { simpl. intros e He. by apply elem_of_nil in He. }
  { intros v r Hr Hv. unfold extract_step.
    destruct (Hevents r Hr) as [e He].
    unfold get_event_from_handle. rewrite He. simpl.
    eexists. split; [reflexivity|]. simpl.
    intros e' He'. apply elem_of_app in He' as [He'|He'];
      [by apply Hv|].
    apply list_elem_of_singleton in He' as ->. by apply (Hown r). }
  simpl.
  destruct (prepare_event_sortvals_total db (v_events v) None Hv)
    as [keyed0 ->].
  simpl.
  destruct (for_each_total (λ _, True) (extract_family_step db)
              (family_list person) (keyed0, []) I) as (st & -> & _);
    [|simpl; by eexists _, _, _].
  intros st fh Hfh _. unfold extract_family_step.
  destruct (Hfams fh Hfh) as [family Hfamily].
  unfold get_family_from_handle. rewrite Hfamily. simpl.
  destruct (Hfamilies fh family Hfamily) as [Hfe Hfc].
  destruct (for_each_total (λ _, True)
              (λ (events : list Event) (event_ref : EventRef),
                 get_event_from_handle db (ref event_ref)
                 ≫= λ event, Ok (events ++ [event]))
              (family_event_ref_list family) st.2 I) as (events' & -> & _).
  { intros es r Hr _. destruct (Hfe r Hr) as [e He].
    unfold get_event_from_handle. rewrite He. simpl. by eexists. }
  simpl.
  destruct (prepare_event_sortvals_total db events' (Some family))
    as [keyed' ->]; [done|].
  simpl. by eexists.
Qed.

(** Where the person's own list holds no undated marriage or divorce: on
    a store whose references resolve, with no date bounds and whatever the
    event filters, [set_person(handle)] returns a timeline that holds the
    birth and the death event the extraction chose for the person (the
    events themselves, or the fallbacks that stand in for them), whether
    or not these events pass the eligibility test; and every prepared set
    of eligible type names holds "Birth" and "Death". *)
Theorem vital_events_included (fuel : nat) (h : Handle) (tl : Timeline)
    (person : Person) :
  start_date tl = None →
  end_date tl = None →
  refs_resolve (db_handle tl) →
  person_table (db_handle tl) h = Some person →
  own_union_dated (db_handle tl) person →
  (∃ keyed birth death tl',
     extract_person_events (db_handle tl) person = Ok (keyed, birth, death)
     ∧ set_person fuel h 0 0 tl = Ok tl'
     ∧ (∀ b, birth = Some b → handle b ∈ handles_of (timeline tl'))
     ∧ (∀ d, death = Some d → handle d ∈ handles_of (timeline tl')))
  ∧ (∀ db filters eligible,
       _prepare_eligible_events db filters = Ok eligible →
       "Birth" ∈ eligible ∧ "Death" ∈ eligible).
Proof.
  intros Hlo Hup Hres Hperson Hown.
  destruct (extract_person_events_total _ _ _ Hres Hperson Hown)
    as (keyed & birth & death & Hextract).
  destruct (set_person_includes_vitals fuel h tl person keyed birth death
              Hlo Hup Hperson Hextract)
    as [(tl' & Hset & Hbirth & Hdeath) Hsets].
  split; [|exact Hsets].
  by exists keyed, birth, death, tl'.
Qed.

(** * Further properties of the code *)

(** ** events: calling it again *)

Lemma sort_by_key_sorted_id {A : Type} (l : list (Z * A)) :
  Sorted key_le l → sort_by_key l = l.
Proof.
  induction 1 as [|y l Hl IH Hhd]; [done|].
  simpl. rewrite IH. destruct Hhd as [|z l' Hz]; [done|].
  simpl. unfold key_le in Hz. apply Z.leb_le in Hz. by rewrite Hz.
Qed.

(** X1: [events] sorts the timeline in place, so a second call returns
    what the first returned, raw or not, and leaves the timeline as the
    first call left it. *)
Theorem events_again (raw raw' : bool) (tl : Timeline) :
  (events raw (events raw' tl).2).1 = (events raw tl).1
  ∧ (events raw (events raw' tl).2).2 = (events raw' tl).2.
Proof.
  unfold events. simpl.
  rewrite (sort_by_key_sorted_id (sort_by_key (timeline tl)))
    by apply sort_by_key_sorted.
  done.
Qed.

(** ** get_citation_metrics *)

Lemma citation_loop db handles citations total highest :
  citations_of db handles citations →
  for_each
    (λ '(total_confidence, highest_confidence) h,
       citation ← get_citation_from_handle db h;
       Ok (total_confidence + confidence citation,
           if confidence citation >? highest_confidence
           then confidence citation else highest_confidence))
    (total, highest) handles
  = Ok (total + sum_confidence citations,
        foldl (λ m c, Z.max m (confidence c)) highest citations).
Proof.
  intros H. revert total highest.
  induction H as [|h c handles citations Hc _ IH]; intros total highest;
    simpl.
  - by rewrite Z.add_0_r.
  - unfold get_citation_from_handle. rewrite Hc. simpl. rewrite IH.
    f_equal. f_equal; [lia|]. f_equal.
    destruct (confidence c >? highest) eqn:E; lia.
Qed.

Lemma foldl_max_bounds (citations : list Citation) (m : Z) :
  let top := foldl (λ m c, Z.max m (confidence c)) m citations in
  m ≤ top
  ∧ (∀ c, c ∈ citations → confidence c ≤ top)
  ∧ (top = m ∨ ∃ c, c ∈ citations ∧ confidence c = top).
Proof.
  revert m. induction citations as [|c citations IH]; intros m; simpl.
  - split; [lia|]. split; [|by left].
    intros c Hc. by apply elem_of_nil in Hc.
  - destruct (IH (Z.max m (confidence c))) as (H1 & H2 & H3).
    split; [lia|]. split.
    + intros c' Hc'. apply elem_of_cons in Hc' as [->|Hc']; [lia|].
      by apply H2.
    + destruct H3 as [H3|(c' & Hc' & H3)].
      * destruct (Z.max_spec m (confidence c)) as [[_ Hm]|[_ Hm]].
        -- right. exists c. split; [left|]. lia.
        -- left. lia.
      * right. exists c'. split; [by right|done].
Qed.

(** X2: when every citation handle of an object resolves,
    [get_citation_metrics] returns the number of citations, the sum of
    their confidences and the highest confidence, which is never below 0
    and is 0 or the confidence of one of the citations; when a handle does
    not resolve it raises [HandleError]. *)
Theorem citation_metrics_value {A : Type} `{HasCitations A} (db : Db)
    (obj : A) :
  (∀ citations,
     citations_of db (get_citation_list obj) citations →
     ∃ highest,
       get_citation_metrics db obj
       = Ok (Z.of_nat (length citations), sum_confidence citations, highest)
       ∧ 0 ≤ highest
       ∧ (∀ c, c ∈ citations → confidence c ≤ highest)
       ∧ (highest = 0 ∨ ∃ c, c ∈ citations ∧ confidence c = highest))
  ∧ ((∃ h, h ∈ get_citation_list obj ∧ citation_table db h = None) →
     get_citation_metrics db obj = Raise HandleError).
Proof.
  split.
  - intros citations Hc. unfold get_citation_metrics.
    rewrite (citation_loop db _ citations 0 0 Hc). simpl.
    rewrite (Forall2_length _ _ _ Hc).
    eexists. split; [reflexivity|]. apply foldl_max_bounds.
  - intros (h & Hin & Hnone). unfold get_citation_metrics.
    assert (∀ st,
              for_each
                (λ '(total_confidence, highest_confidence) h,
                   citation ← get_citation_from_handle db h;
                   Ok (total_confidence + confidence citation,
                       if confidence citation >? highest_confidence
                       then confidence citation else highest_confidence))
                st (get_citation_list obj) = Raise HandleError) as ->;
      [|done].
    induction (get_citation_list obj) as [|h0 hs IH]; intros [t m].
    { by apply elem_of_nil in Hin. }
    simpl. unfold get_citation_from_handle.
    destruct (citation_table db h0) as [c|] eqn:E; [|done].
    simpl. apply IH. apply elem_of_cons in Hin as [->|Hin]; [|done].
    congruence.
Qed.

(** ** collect_event_data: which rows are primary *)

Lemma collect_event_loop db vital_handles refs seen bucket before st :
  (∀ name, name ∈ seen ↔ name ∈ (row_name <$> before)) →
  for_each (collect_event_step db vital_handles) (seen, bucket) refs = Ok st →
  ∃ rows,
    st.2 = bucket ++ rows
    ∧ Forall2 (row_of_ref db) refs rows
    ∧ NoDup (primary_names rows)
    ∧ (∀ row, row ∈ rows → ev_primary row = true →
              row_name row ∉ (row_name <$> before))
    ∧ (∀ l1 row l2 rs1 r rs2,
         rows = l1 ++ row :: l2 → refs = rs1 ++ r :: rs2 →
         length l1 = length rs1 →
         (ev_primary row = true
          ↔ (row_name row ∉ (row_name <$> (before ++ l1)))
            ∧ (is_vital (ev_event_type row) = true →
               ref r ∈ vital_handles))).
Proof.
  revert seen bucket before st.
  induction refs as [|r0 refs IH]; intros seen bucket before st Hseen H.
  { simpl in H. injection H as <-. exists []. simpl.
    rewrite app_nil_r. split; [done|]. split; [constructor|].
    split; [constructor|]. split.
    - intros row Hrow. by apply elem_of_nil in Hrow.
    - intros l1 row l2 rs1 r rs2 Hl. by destruct l1. }
  simpl in H. apply bind_Ok in H as ([seen1 bucket1] & Hstep & H).
  unfold collect_event_step in Hstep.
  apply bind_Ok in Hstep as (event & He & Hstep).
  apply of_option_Ok in He.
  apply bind_Ok in Hstep as ([[n total] highest] & _ & Hstep).
  injection Hstep as <- <-.
  set (fresh := negb (py_in (xml_str (type event)) seen)) in *.
  set (row0 :=
         {| ev_event := event; ev_event_type := type event;
            ev_primary :=
              fresh && (if is_vital (type event)
                        then py_in (ref r0) vital_handles else true);
            ev_total_count := n; ev_total_confidence := total;
            ev_highest_confidence := highest |}) in *.
  assert (fresh = true ↔ row_name row0 ∉ (row_name <$> before)) as Hfresh.
  { unfold fresh. rewrite negb_true_iff, py_in_false, Hseen. done. }
  assert (∀ name,
            name ∈ (if fresh then seen ++ [xml_str (type event)] else seen)
            ↔ name ∈ (row_name <$> (before ++ [row0]))) as Hseen1.
  { intros name. rewrite fmap_app, elem_of_app. simpl.
    rewrite list_elem_of_singleton, <- Hseen.
    destruct fresh eqn:Ef.
    - by rewrite elem_of_app, list_elem_of_singleton.
    - split; [by left|]. intros [Hn| ->]; [done|].
      unfold fresh in Ef. apply negb_false_iff, py_in_true in Ef. done. }
  destruct (IH _ _ (before ++ [row0]) st Hseen1 H)
    as (rows & Hst & Hrows & Hnd & Hprim & Hchar).
  exists (row0 :: rows). split.
  { rewrite Hst, <- app_assoc. done. }
  split; [by constructor|]. split.
  { unfold primary_names. simpl.
    destruct (fresh && _) eqn:Ep; [|exact Hnd].
    simpl. constructor; [|exact Hnd].
    intros Hin. apply list_elem_of_fmap in Hin as (row & Hname & Hrow).
    apply list_elem_of_In, filter_In in Hrow as [Hrow Hp].
    apply list_elem_of_In in Hrow.
    apply (Hprim row Hrow Hp). rewrite fmap_app, elem_of_app. right.
    simpl. rewrite list_elem_of_singleton. by symmetry. }
  split.
  { intros row Hrow Hp. apply elem_of_cons in Hrow as [->|Hrow].
    - apply Hfresh. simpl in Hp. by apply andb_true_iff in Hp as [Hp _].
    - intros Hin. apply (Hprim row Hrow Hp).
      rewrite fmap_app, elem_of_app. by left. }
  intros l1 row l2 rs1 r rs2 Hl Hr Hlen.
  destruct l1 as [|x l1], rs1 as [|y rs1]; try discriminate.
  - simpl in Hl, Hr. injection Hl as <- _. injection Hr as <- _.
    rewrite app_nil_r, <- Hfresh. simpl.
    destruct fresh; simpl; [|by split; [|intros [? _]]].
    destruct (is_vital (type event)).
    + rewrite py_in_true. split; [done|]. intros [_ Hv]. by apply Hv.
    + split; [done|done].
  - simpl in Hl, Hr, Hlen. injection Hl as <- ->. injection Hr as <- ->.
    injection Hlen as Hlen.
    rewrite (Hchar l1 row l2 rs1 r rs2 eq_refl eq_refl Hlen).
    by rewrite <- app_assoc.
Qed.

(** X3: [collect_event_data] adds one row per event reference of the
    object, in their order, each holding the event under its type. A row
    is primary exactly when no earlier row of the call has its type name
    and, for a birth or a death, the reference is the preferred one; so a
    type name is primary at most once per object, and an unpreferred
    birth listed first leaves the preferred birth not primary. *)
Theorem event_rows_primary (db : Db) (obj : Primary)
    (bucket bucket' : list EventRow) :
  collect_event_data db obj bucket = Ok bucket' →
  ∃ rows,
    bucket' = bucket ++ rows
    ∧ Forall2 (row_of_ref db) (get_event_ref_list obj) rows
    ∧ NoDup (primary_names rows)
    ∧ (∀ l1 row l2 rs1 r rs2,
         rows = l1 ++ row :: l2 →
         get_event_ref_list obj = rs1 ++ r :: rs2 →
         length l1 = length rs1 →
         (ev_primary row = true
          ↔ (row_name row ∉ (row_name <$> l1))
            ∧ (is_vital (ev_event_type row) = true →
               ref r ∈ get_preferred_vital_handles obj))).
Proof.
  unfold collect_event_data. intros H.
  apply bind_Ok in H as ([seen b] & H & [= <-]).
  destruct (collect_event_loop db _ _ [] bucket [] _ (λ _, reflexivity _) H)
    as (rows & Hst & Hrows & Hnd & _ & Hchar).
  exists rows. done.
Qed.

(** ** get_status_ranking: the confidence alerts *)

Lemma scan_alerts rank_list alert_list alert_minimum required_list rows s
    (alert : Event * string) :
  alert ∈ confidence_alerts
            (foldl (scan_event rank_list alert_list alert_minimum
                      required_list) s rows)
  ↔ alert ∈ confidence_alerts s
    ∨ ∃ row, row ∈ rows ∧ row_alert alert_list alert_minimum row alert.
Proof.
  revert s. induction rows as [|row rows IH]; intros s; simpl.
  - split; [by left|]. intros [H|(row & Hr & _)]; [done|].
    by apply elem_of_nil in Hr.
  - rewrite IH. clear IH. simpl.
    assert (alert ∈ (if ev_primary row
                        && py_in (xml_str (ev_event_type row)) alert_list
                     then
                       if ev_total_count row =? 0
                       then confidence_alerts s ++
                            [(ev_event row,
                              type_str (ev_event_type row) +:+ ": "
                              +:+ gettext "Missing")]
                       else if ev_highest_confidence row <? alert_minimum
                            then confidence_alerts s ++
                                 [(ev_event row,
                                   type_str (ev_event_type row) +:+ ": "
                                   +:+ get_confidence
                                         (ev_highest_confidence row))]
                            else confidence_alerts s
                     else confidence_alerts s)
            ↔ alert ∈ confidence_alerts s
              ∨ row_alert alert_list alert_minimum row alert) as ->.
    { unfold row_alert, row_name. destruct alert as [e text]. simpl.
      destruct (ev_primary row); simpl.
      2:{ split; [by left|]. intros [H|(H & _)]; [done|discriminate]. }
      destruct (py_in (xml_str (ev_event_type row)) alert_list) eqn:Ea.
      2:{ apply py_in_false in Ea. split; [by left|].
          intros [H|(_ & H & _)]; done. }
      apply py_in_true in Ea.
      destruct (ev_total_count row =? 0) eqn:Ec.
      - apply Z.eqb_eq in Ec.
        rewrite elem_of_app, list_elem_of_singleton. split.
        + intros [H|[= -> ->]]; [by left|]. right.
          repeat split; try done. by left.
        + intros [H|(_ & _ & -> & [[_ ->]|[Hne _]])]; [by left|by right|].
          done.
      - apply Z.eqb_neq in Ec.
        destruct (ev_highest_confidence row <? alert_minimum) eqn:Eh.
        + apply Z.ltb_lt in Eh.
          rewrite elem_of_app, list_elem_of_singleton. split.
          * intros [H|[= -> ->]]; [by left|]. right.
            repeat split; try done. by right.
          * intros [H|(_ & _ & -> & [[Hz _]|(_ & _ & ->)])];
              [by left|done|by right].
        + apply Z.ltb_ge in Eh. split; [by left|].
          intros [H|(_ & _ & _ & [[Hz _]|(_ & Hlt & _)])]; [done|done|lia]. }
    split.
    + intros [[H|H]|(row' & Hin & H)].
      * by left.
      * right. exists row. split; [left|done].
      * right. exists row'. split; [by right|done].
    + intros [H|(row' & Hin & H)]; [by left; left|].
      apply elem_of_cons in Hin as [->|Hin].
      * left. by right.
      * right. by exists row'.
Qed.

(** X4: the confidence alerts returned are exactly the alerts of the
    primary rows whose type name is in the alert list: "Missing" for a row
    without citation, whatever the minimum, and the confidence label for a
    row whose highest confidence is below the minimum; any other row gives
    no alert. *)
Theorem confidence_alerts_exact (db : Db) (obj : Primary)
    (rank_list alert_list : option (list string)) (alert_minimum : Z)
    (required_list : option (list string)) (items conf : Z)
    (missing : list string) (alerts : list (Event * string)) :
  get_status_ranking db obj rank_list alert_list alert_minimum required_list
    = Ok (items, conf, missing, alerts) →
  ∃ object_bucket events_bucket,
    collect_primary_object_data db obj (default [] rank_list)
      = Ok (object_bucket, events_bucket)
    ∧ ∀ alert,
        alert ∈ alerts
        ↔ ∃ row, row ∈ events_bucket
                 ∧ row_alert (default [] alert_list) alert_minimum row alert.
Proof.
  intros H. apply get_status_ranking_Ok in H as ([ob eb] & Hcollect & Hr).
  exists ob, eb. split; [exact Hcollect|].
  unfold rank_buckets in Hr. rewrite object_totals in Hr.
  injection Hr as _ _ _ ->. intros alert. rewrite scan_alerts. simpl.
  split; [|by right]. intros [H|H]; [by apply elem_of_nil in H|done].
Qed.

(** ** get_status_ranking: the totals as a score *)

(** X5: the item total is never negative, and it is positive whenever the
    confidence total is not 0: the division of the confidence total by the
    item total, which the caller does in that case, never divides by
    zero. *)
Theorem rank_division_defined (db : Db) (obj : Primary)
    (rank_list alert_list : option (list string)) (alert_minimum : Z)
    (required_list : option (list string)) (items conf : Z)
    (missing : list string) (alerts : list (Event * string)) :
  get_status_ranking db obj rank_list alert_list alert_minimum required_list
    = Ok (items, conf, missing, alerts) →
  0 ≤ items ∧ (conf ≠ 0 → 0 < items).
Proof.
  intros H. apply get_status_ranking_Ok in H as ([ob eb] & _ & Hr).
  destruct (rank_buckets_totals (default [] rank_list)
              (default [] alert_list) alert_minimum
              (default [] required_list) ob eb) as [Hi Hc].
  rewrite <- Hr in Hi, Hc. simpl in Hi, Hc. split; [lia|].
  intros Hconf.
  destruct (ranked_rows (default [] rank_list) eb) as [|row rows];
    [|simpl in Hi; lia].
  destruct ob as [|o ob]; [|simpl in Hi; lia].
  simpl in Hc. lia.
Qed.

(** ** Bounds of the collected confidences *)

Section Bounds.

Variable db : Db.
Variable top : Z.
Hypothesis Hwithin : confidence_within db top.
Hypothesis Htop : 0 ≤ top.

Local Abbreviation object_rows_within := (object_rows_within top).
Local Abbreviation event_rows_within := (event_rows_within top).
Local Abbreviation buckets_within := (buckets_within top).

Lemma metrics_within {A : Type} `{HasCitations A} (obj : A) n total highest :
  get_citation_metrics db obj = Ok (n, total, highest) →
  0 ≤ highest ≤ top.
Proof using Hwithin Htop.
  unfold get_citation_metrics. intros H0.
  apply bind_Ok in H0 as ([t m] & Hloop & [= _ _ <-]).
  refine (for_each_inv (λ st : Z * Z, 0 ≤ st.2 ≤ top) _ _ _ _ _ _ Hloop);
    [simpl; lia|].
  intros [t0 m0] h [t1 m1] _ Hm Hstep. simpl in *.
  apply bind_Ok in Hstep as (c & Hc & [= _ <-]).
  apply of_option_Ok in Hc. apply Hwithin in Hc.
  destruct (confidence c >? m0); lia.
Qed.

Lemma child_object_data_within obj description child_list bucket bucket' :
  object_rows_within bucket →
  collect_child_object_data db obj description child_list bucket
    = Ok bucket' →
  object_rows_within bucket'.
Proof using Hwithin Htop.
  intros Hb H. refine (for_each_inv object_rows_within _ _ _ _ Hb _ H).
  intros b child b' _ Hin Hstep.
  apply bind_Ok in Hstep as ([[n total] highest] & Hm & [= <-]).
  apply metrics_within in Hm.
  intros row. rewrite elem_of_app, list_elem_of_singleton.
  intros [Hrow| ->]; [by apply Hin|done].
Qed.

Lemma object_data_within obj rank_list bucket bucket' :
  object_rows_within bucket →
  collect_object_data db obj rank_list bucket = Ok bucket' →
  object_rows_within bucket'.
Proof using Hwithin Htop.
  intros Hb H. unfold collect_object_data in H.
  assert (∀ (cond : bool) label children b b',
            object_rows_within b →
            (if cond
             then collect_child_object_data db obj (gettext label)
                    (RankedSecondary <$> children) b
             else Ok b) = Ok b' →
            object_rows_within b') as Hon.
  { intros cond label children b b' Hin Hc. destruct cond.
    - by eapply child_object_data_within.
    - by injection Hc as <-. }
  apply bind_Ok in H as (b1 & H1 & H).
  assert (object_rows_within b1) as Hb1.
  { destruct (py_in "object" rank_list).
    - by eapply child_object_data_within.
    - by injection H1 as <-. }
  apply bind_Ok in H as (b2 & H2 & H). apply Hon in H2; [|done].
  apply bind_Ok in H as (b3 & H3 & H). apply Hon in H3; [|done].
  apply bind_Ok in H as (b4 & H4 & H). apply Hon in H4; [|done].
  apply bind_Ok in H as (b5 & H5 & H). apply Hon in H5; [|done].
  apply bind_Ok in H as (b6 & H6 & H). apply Hon in H6; [|done].
  by apply Hon in H.
Qed.

Lemma event_data_within obj bucket bucket' :
  event_rows_within bucket →
  collect_event_data db obj bucket = Ok bucket' →
  event_rows_within bucket'.
Proof using Hwithin Htop.
  intros Hb H. unfold collect_event_data in H.
  apply bind_Ok in H as ([seen b] & H & [= <-]).
  refine (for_each_inv (λ st : list string * list EventRow,
                          event_rows_within st.2) _ _ ([], bucket) _ Hb _ H).
  intros [s0 b0] r [s1 b1] _ Hin Hstep. simpl in *.
  unfold collect_event_step in Hstep.
  apply bind_Ok in Hstep as (event & _ & Hstep).
  apply bind_Ok in Hstep as ([[n total] highest] & Hm & [= _ <-]).
  apply metrics_within in Hm.
  intros row. rewrite elem_of_app, list_elem_of_singleton.
  intros [Hrow| ->]; [by apply Hin|done].
Qed.

Lemma child_ref_within family person_handle child_refs bucket bucket' :
  object_rows_within bucket →
  collect_child_ref db family person_handle child_refs bucket = Ok bucket' →
  object_rows_within bucket'.
Proof using Hwithin Htop.
  induction child_refs as [|c cs IH]; simpl; intros Hb H.
  - by injection H as <-.
  - destruct (bool_decide _).
    + by eapply child_object_data_within.
    + by apply IH.
Qed.

Lemma person_data_within person rank_list buckets include_family buckets' :
  buckets_within buckets →
  collect_person_data db person rank_list buckets include_family
    = Ok buckets' →
  buckets_within buckets'.
Proof using Hwithin Htop.
  destruct buckets as [ob eb]. intros [Ho He] H.
  unfold collect_person_data in H. simpl in Ho, He.
  apply bind_Ok in H as (ob1 & H1 & H). apply object_data_within in H1;
    [|done].
  apply bind_Ok in H as (eb1 & H2 & H). apply event_data_within in H2;
    [|done].
  destruct include_family; [|by injection H as <-].
  apply bind_Ok in H as (ob2 & H3 & H).
  assert (object_rows_within ob2) as Hob2.
  { destruct (py_in "object" rank_list); [|by injection H3 as <-].
    refine (for_each_inv object_rows_within _ _ _ _ H1 _ H3).
    intros b fh b' _ Hin Hstep.
    apply bind_Ok in Hstep as (family & _ & Hstep).
    by eapply child_ref_within. }
  refine (for_each_inv buckets_within _ _ (ob2, eb1) _ (conj Hob2 H2) _ H).
  intros [o0 e0] fh [o1 e1] _ [Hin1 Hin2] Hstep. simpl in *.
  apply bind_Ok in Hstep as (family & _ & Hstep).
  apply bind_Ok in Hstep as (o2 & Ho2 & Hstep).
  apply bind_Ok in Hstep as (e2 & He2 & [= <- <-]).
  split; simpl.
  - by eapply object_data_within.
  - by eapply event_data_within.
Qed.

Lemma family_data_within family rank_list buckets skip buckets' :
  buckets_within buckets →
  collect_family_data db family rank_list buckets skip = Ok buckets' →
  buckets_within buckets'.
Proof using Hwithin Htop.
  destruct buckets as [ob eb]. intros [Ho He] H.
  unfold collect_family_data in H. simpl in Ho, He.
  apply bind_Ok in H as (ob1 & H1 & H). apply object_data_within in H1;
    [|done].
  apply bind_Ok in H as (eb1 & H2 & H). apply event_data_within in H2;
    [|done].
  assert (∀ h b b',
            buckets_within b →
            match handle_set h with
            | Some h' =>
                if bool_decide (Some h' ≠ skip)
                then person ← get_person_from_handle db h';
                     collect_person_data db person rank_list b false
                else Ok b
            | None => Ok b
            end = Ok b' →
            buckets_within b') as Hspouse.
  { intros h b b' Hb Hs. destruct (handle_set h); [|by injection Hs as <-].
    destruct (bool_decide _); [|by injection Hs as <-].
    apply bind_Ok in Hs as (person & _ & Hs).
    by eapply person_data_within. }
  apply bind_Ok in H as (b1 & Hb1 & H).
  assert (buckets_within b1) as Hw1.
  { destruct (py_in "spouses" rank_list); [|by injection Hb1 as <-].
    apply bind_Ok in Hb1 as (b0 & Hb0 & Hb1).
    apply Hspouse in Hb0; [|done]. by apply Hspouse in Hb1. }
  destruct (py_in "children" rank_list); [|by injection H as <-].
  refine (for_each_inv buckets_within _ _ _ _ Hw1 _ H).
  intros b c b' _ Hb Hstep.
  apply bind_Ok in Hstep as (child & _ & Hstep).
  by eapply person_data_within.
Qed.

Lemma primary_object_data_within obj rank_list buckets :
  collect_primary_object_data db obj rank_list = Ok buckets →
  buckets_within buckets.
Proof using Hwithin Htop.
  assert (buckets_within ([], [])) as Hnil.
  { split; intros row Hrow; by apply elem_of_nil in Hrow. }
  destruct obj as [p|f]; simpl; intros H.
  - exact (person_data_within p rank_list ([], []) true buckets Hnil H).
  - exact (family_data_within f rank_list ([], []) None buckets Hnil H).
Qed.

Lemma sum_highest_within (rows : list EventRow) :
  event_rows_within rows →
  0 ≤ sum_highest rows ≤ top * Z.of_nat (length rows).
Proof using Type.
  induction rows as [|row rows IH]; intros Hin; simpl; [lia|].
  assert (0 ≤ ev_highest_confidence row ≤ top) by (apply Hin; left).
  assert (0 ≤ sum_highest rows ≤ top * Z.of_nat (length rows)).
  { apply IH. intros r Hr. apply Hin. by right. }
  lia.
Qed.

Lemma sum_object_highest_within (rows : list ObjectRow) :
  object_rows_within rows →
  0 ≤ sum_object_highest rows ≤ top * Z.of_nat (length rows).
Proof using Type.
  induction rows as [|row rows IH]; intros Hin; simpl; [lia|].
  assert (0 ≤ row_highest_confidence row ≤ top) by (apply Hin; left).
  assert (0 ≤ sum_object_highest rows ≤ top * Z.of_nat (length rows)).
  { apply IH. intros r Hr. apply Hin. by right. }
  lia.
Qed.

End Bounds.

(** X6: when every citation of the store has a confidence from 0 to
    [top], the confidence total returned lies from 0 to [top] times the
    item total: the score, the one divided by the other, is at most
    [top]. *)
Theorem rank_confidence_within (db : Db) (top : Z) (obj : Primary)
    (rank_list alert_list : option (list string)) (alert_minimum : Z)
    (required_list : option (list string)) (items conf : Z)
    (missing : list string) (alerts : list (Event * string)) :
  confidence_within db top →
  0 ≤ top →
  get_status_ranking db obj rank_list alert_list alert_minimum required_list
    = Ok (items, conf, missing, alerts) →
  0 ≤ conf ≤ top * items.
Proof.
  intros Hwithin Htop H.
  apply get_status_ranking_Ok in H as ([ob eb] & Hcollect & Hr).
  destruct (primary_object_data_within db top Hwithin Htop _ _ _ Hcollect)
    as [Ho He]. simpl in Ho, He.
  destruct (rank_buckets_totals (default [] rank_list)
              (default [] alert_list) alert_minimum
              (default [] required_list) ob eb) as [Hi Hc].
  rewrite <- Hr in Hi, Hc. simpl in Hi, Hc.
  assert (event_rows_within top (ranked_rows (default [] rank_list) eb))
    as Hranked.
  { intros row Hrow. apply He.
    unfold ranked_rows in Hrow.
    apply list_elem_of_In, filter_In in Hrow as [Hrow _].
    by apply list_elem_of_In. }
  pose proof (sum_highest_within top _ Hranked).
  pose proof (sum_object_highest_within top _ Ho).
  nia.
Qed.

(** ** The depth of the expansion to relatives *)

Lemma no_overflow_bind {A B : Type} (m : result A) (f : A → result B) :
  no_overflow m → (∀ a, m = Ok a → no_overflow (f a)) →
  no_overflow (m ≫= f).
Proof.
  destruct m as [a|e]; simpl.
  - intros _ Hf. by apply Hf.
  - intros Hm _ [= ->]. by apply Hm.
Qed.

Lemma no_overflow_for_each {A S : Type} (body : S → A → result S)
    (l : list A) (s : S) :
  (∀ s x, x ∈ l → no_overflow (body s x)) →
  no_overflow (for_each body s l).
Proof.
  revert s. induction l as [|x l IH]; intros s Hbody; simpl; [done|].
  apply no_overflow_bind; [apply Hbody; left|].
  intros s' _. apply IH. intros s2 y Hy. apply Hbody. by right.
Qed.

Lemma no_overflow_of_option {A : Type} (e : exn) (o : option A) :
  e ≠ RecursionError → no_overflow (of_option e o).
Proof. destruct o; simpl; unfold no_overflow; congruence. Qed.

Lemma no_overflow_Ok {A : Type} (a : A) : no_overflow (Ok a).
Proof. done. Qed.

Lemma no_overflow_py_index {A : Type} (l : list A) (i : Z) :
  no_overflow (py_index l i).
Proof.
  unfold py_index. destruct (_ && _); [|done].
  by apply no_overflow_of_option.
Qed.

Lemma no_overflow_event db h : no_overflow (get_event_from_handle db h).
Proof. by apply no_overflow_of_option. Qed.

Lemma no_overflow_person db h : no_overflow (get_person_from_handle db h).
Proof. by apply no_overflow_of_option. Qed.

Lemma no_overflow_family db h : no_overflow (get_family_from_handle db h).
Proof. by apply no_overflow_of_option. Qed.

Lemma no_overflow_scan db refs birth fallback :
  no_overflow (union_child_scan db refs birth fallback).
Proof.
  induction refs as [|r refs IH]; simpl; [done|].
  apply no_overflow_bind; [apply no_overflow_event|].
  intros e _. repeat case_match; done.
Qed.

Lemma no_overflow_generate db family union :
  no_overflow (generate_union_event_sortval db family union).
Proof.
  unfold generate_union_event_sortval.
  apply no_overflow_bind; [by apply no_overflow_of_option|].
  intros f _. destruct (child_ref_list f) as [|c cs]; [done|].
  apply no_overflow_bind; [apply no_overflow_py_index|]. intros c' _.
  apply no_overflow_bind; [apply no_overflow_person|]. intros child _.
  apply no_overflow_bind; [apply no_overflow_scan|]. intros [bi fb] _.
  repeat case_match; done.
Qed.

Lemma no_overflow_prepare db events family :
  no_overflow (prepare_event_sortvals db events family).
Proof.
  unfold prepare_event_sortvals. destruct events as [|e0 events]; [done|].
  apply no_overflow_bind; [|done].
  apply no_overflow_for_each. intros st e _. unfold keyed_step.
  apply no_overflow_bind; [|done]. unfold event_sortval.
  destruct (no_sortval _); [|done].
  apply no_overflow_bind.
  { destruct (is_marriage _); [apply no_overflow_generate|done]. }
  intros v1 _. apply no_overflow_bind; [|done].
  destruct (is_divorce _); [apply no_overflow_generate|done].
Qed.

Lemma no_overflow_extract db person :
  no_overflow (extract_person_events db person).
Proof.
  unfold extract_person_events.
  apply no_overflow_bind.
  { apply no_overflow_for_each. intros v r _. unfold extract_step.
    apply no_overflow_bind; [apply no_overflow_event|done]. }
  intros v _. apply no_overflow_bind; [apply no_overflow_prepare|].
  intros keyed _. apply no_overflow_bind; [|done].
  apply no_overflow_for_each. intros st fh _. unfold extract_family_step.
  apply no_overflow_bind; [apply no_overflow_family|]. intros family _.
  apply no_overflow_bind.
  { apply no_overflow_for_each. intros es r _.
    apply no_overflow_bind; [apply no_overflow_event|done]. }
  intros es _. apply no_overflow_bind; [apply no_overflow_prepare|done].
Qed.

Lemma no_overflow_add_person h tl : no_overflow (add_person h tl).
Proof.
  unfold add_person.
  apply no_overflow_bind; [apply no_overflow_person|]. intros person _.
  apply no_overflow_bind; [apply no_overflow_extract|].
  intros [[keyed birth] death] _. done.
Qed.

Lemma no_overflow_add_family_with
    (rel : Handle → Z → Z → Timeline → result Timeline)
    h ancestors offspring include_children tl :
  (∀ h' t, no_overflow (rel h' ancestors 1 t)) →
  (include_children = true → ∀ h' t, no_overflow (rel h' 1 offspring t)) →
  no_overflow
    (add_family_with rel h ancestors offspring include_children tl).
Proof.
  intros Hparent Hchild. unfold add_family_with.
  apply no_overflow_bind; [apply no_overflow_family|]. intros family _.
  destruct (reference_person tl).
  - apply no_overflow_bind.
    { destruct (uncached tl _); [apply Hparent|done]. }
    intros tl1 _. apply no_overflow_bind.
    { destruct (uncached tl1 _); [apply Hparent|done]. }
    intros tl2 _. destruct include_children; [|done].
    apply no_overflow_for_each. intros t c _.
    destruct (cached_people t !! ref c); [done|by apply Hchild].
  - apply no_overflow_bind.
    { destruct (handle_set _); [apply no_overflow_add_person|done]. }
    intros tl1 _. apply no_overflow_bind.
    { destruct (handle_set _); [apply no_overflow_add_person|done]. }
    intros tl2 _. apply no_overflow_for_each. intros t c _.
    apply no_overflow_add_person.
Qed.

Lemma no_overflow_add_relative fuel h ancestors offspring tl :
  (relative_depth ancestors offspring < fuel)%nat →
  no_overflow (add_relative fuel h ancestors offspring tl).
Proof.
  revert h ancestors offspring tl.
  induction fuel as [|fuel IH]; intros h ancestors offspring tl Hfuel;
    [lia|].
  simpl. destruct (eligible_relatives tl) as [|r0 rs]; [done|].
  apply no_overflow_bind; [apply no_overflow_person|]. intros person _.
  apply no_overflow_for_each. intros t relative _.
  destruct (str_contains relative _); [|done].
  apply no_overflow_bind; [apply no_overflow_extract|].
  intros [[keyed birth] death] _.
  unfold relative_depth in Hfuel.
  apply no_overflow_bind.
  { destruct (offspring >? 0) eqn:Eo; [|done]. apply Z.gtb_lt in Eo.
    assert (relative_depth 1 (offspring - 1) < fuel)%nat as Hless
      by (unfold relative_depth; lia).
    apply no_overflow_for_each. intros t1 fh _.
    apply no_overflow_bind; [apply no_overflow_family|]. intros family _.
    apply no_overflow_bind.
    { destruct (uncached t1 _); [by apply IH|done]. }
    intros t2 _. apply no_overflow_bind.
    { destruct (uncached t2 _); [by apply IH|done]. }
    intros t3 _. apply no_overflow_for_each. intros t4 c _.
    destruct (cached_people t4 !! ref c); [done|by apply IH]. }
  intros t1 _.
  destruct (ancestors >? 1) eqn:Ea; [|done]. apply Z.gtb_lt in Ea.
  destruct (_ || _); [|done]. simpl.
  apply no_overflow_for_each. intros t2 fh _.
  apply no_overflow_add_family_with; [|done].
  intros h' t5. apply IH. unfold relative_depth. lia.
Qed.

(** X7: the expansion to relatives nests no deeper than the two budgets
    allow, whatever the families of the store, cycles included: a call of
    [add_relative] with more nested calls left than twice the ancestor
    budget (1 at least) plus the offspring budget never reaches the
    recursion limit, and so for [add_family], [set_family] and
    [set_person] with the depth of the calls they make. *)
Theorem expansion_depth_bounded (fuel : nat) (h : Handle)
    (ancestors offspring : Z) (include_children : bool) (tl : Timeline) :
  ((relative_depth ancestors offspring < fuel)%nat →
   no_overflow (add_relative fuel h ancestors offspring tl))
  ∧ ((family_depth ancestors offspring < fuel)%nat →
     no_overflow (add_family fuel h ancestors offspring include_children tl)
     ∧ no_overflow (set_family fuel h ancestors offspring tl))
  ∧ ((Nat.max (family_depth ancestors 0) (family_depth ancestors offspring)
      < fuel)%nat →
     no_overflow (set_person fuel h ancestors offspring tl)).
Proof.
  assert (∀ a o ic t h',
            (family_depth a o < fuel)%nat →
            no_overflow (add_family fuel h' a o ic t)) as Hfamily.
  { intros a o ic t h' Hfuel. unfold add_family, family_depth in *.
    apply no_overflow_add_family_with.
    - intros h2 t2. apply no_overflow_add_relative. lia.
    - intros _ h2 t2. apply no_overflow_add_relative. lia. }
  split; [apply no_overflow_add_relative|]. split.
  - intros Hfuel. split; [by apply Hfamily|].
    unfold set_family. by apply Hfamily.
  - intros Hfuel. unfold set_person.
    apply no_overflow_bind; [apply no_overflow_person|]. intros person _.
    apply no_overflow_bind; [apply no_overflow_extract|].
    intros [[keyed birth] death] _.
    destruct (_ || _); [|done].
    apply no_overflow_bind.
    { destruct (end_date _); [done|]. destruct death; [|done].
      apply no_overflow_bind; [apply no_overflow_py_index|done]. }
    intros upper _. apply no_overflow_bind.
    + apply no_overflow_for_each. intros t f _. apply Hfamily. lia.
    + intros t _. apply no_overflow_for_each. intros t' f _.
      apply Hfamily. lia.
Qed.

(** ** Merging twice *)

Lemma merge_step_cases person relation relative birth death tl keyed_event :
  merge_step person relation relative birth death tl keyed_event
  = if merge_rejects relative birth death tl keyed_event then tl
    else assign_merged tl
           (timeline tl
            ++ [(keyed_event.1, (keyed_event.2, person, relation))])
           (cached_events tl ++ [handle keyed_event.2]).
Proof.
  unfold merge_step, merge_rejects.
  destruct (py_in _ (cached_events tl)); [done|].
  destruct (_ && _); [done|].
  destruct (before_start tl _); [done|].
  by destruct (after_end tl _).
Qed.

Lemma later_state_rejects relative birth death tl tl' keyed_event :
  later_state tl tl' →
  merge_rejects relative birth death tl keyed_event = true →
  merge_rejects relative birth death tl' keyed_event = true.
Proof.
  intros (Hs & He & Hf & Hel & Her & Hc). unfold merge_rejects.
  unfold is_eligible, before_start, after_end.
  rewrite Hs, He, Hf, Hel, Her.
  destruct (py_in _ (cached_events tl)) eqn:E; [|by rewrite !orb_false_l,
    <- !orb_assoc; intros ->; rewrite orb_true_r].
  apply py_in_true, Hc, py_in_true in E. by rewrite E.
Qed.

Lemma merge_step_later person relation relative birth death tl keyed_event :
  let tl' :=
    merge_step person relation relative birth death tl keyed_event in
  later_state tl tl'
  ∧ merge_rejects relative birth death tl' keyed_event = true.
Proof.
  simpl. rewrite merge_step_cases.
  destruct (merge_rejects relative birth death tl keyed_event) eqn:E.
  - split; [|done]. by repeat split.
  - split.
    + repeat split; try done. simpl. intros h Hh. apply elem_of_app.
      by left.
    + unfold merge_rejects. simpl.
      assert (py_in (handle keyed_event.2)
                (cached_events tl ++ [handle keyed_event.2]) = true) as ->;
        [|done].
      apply py_in_true, elem_of_app. right. left.
Qed.

Lemma later_state_trans tl1 tl2 tl3 :
  later_state tl1 tl2 → later_state tl2 tl3 → later_state tl1 tl3.
Proof.
  intros (H1 & H2 & H3 & H4 & H5 & H6) (G1 & G2 & G3 & G4 & G5 & G6).
  repeat split; try congruence. intros h Hh. by apply G6, H6.
Qed.

Lemma merge_later person keyed relation relative birth death tl :
  let tl' :=
    merge_eligible_events person keyed relation relative birth death tl in
  later_state tl tl'
  ∧ ∀ keyed_event, keyed_event ∈ keyed →
                   merge_rejects relative birth death tl' keyed_event = true.
Proof.
  unfold merge_eligible_events. revert tl.
  induction keyed as [|ke keyed IH]; intros tl; simpl.
  - split; [by repeat split|]. intros k Hk. by apply elem_of_nil in Hk.
  - destruct (merge_step_later person relation relative birth death tl ke)
      as [Hl Hr]. simpl in Hl, Hr.
    destruct (IH (merge_step person relation relative birth death tl ke))
      as [Hl' Hr'].
    split; [by eapply later_state_trans|].
    intros k Hk. apply elem_of_cons in Hk as [->|Hk]; [|by apply Hr'].
    by eapply later_state_rejects.
Qed.

Lemma merge_all_rejected person keyed relation relative birth death tl :
  (∀ keyed_event, keyed_event ∈ keyed →
                  merge_rejects relative birth death tl keyed_event = true) →
  merge_eligible_events person keyed relation relative birth death tl = tl.
Proof.
  unfold merge_eligible_events.
  induction keyed as [|ke keyed IH]; intros Hall; simpl; [done|].
  rewrite merge_step_cases, (Hall ke) by left.
  apply IH. intros k Hk. apply Hall. by right.
Qed.

Lemma merge_cached_people person keyed relation relative birth death tl
    people :
  merge_eligible_events person keyed relation relative birth death
    (assign_cached_people tl people)
  = assign_cached_people
      (merge_eligible_events person keyed relation relative birth death tl)
      people.
Proof.
  unfold merge_eligible_events. revert tl.
  induction keyed as [|ke keyed IH]; intros tl; simpl; [done|].
  rewrite <- IH. f_equal. rewrite !merge_step_cases.
  unfold merge_rejects, is_eligible, before_start, after_end. simpl.
  by destruct (_ || _).
Qed.

(** X8: merging the same keyed events a second time adds nothing, since
    every event was let in and is now in the cache of seen events, or was
    left out by a test that has not changed; so a second [add_person] of
    the same person leaves the timeline, and the whole state, as the first
    left it. *)
Theorem add_person_again (h : Handle) (tl tl' : Timeline) :
  add_person h tl = Ok tl' →
  add_person h tl' = Ok tl'
  ∧ ∀ person keyed relation relative birth death t,
      merge_eligible_events person keyed relation relative birth death
        (merge_eligible_events person keyed relation relative birth death t)
      = merge_eligible_events person keyed relation relative birth death t.
Proof.
  assert (∀ person keyed relation relative birth death t,
            merge_eligible_events person keyed relation relative birth death
              (merge_eligible_events person keyed relation relative birth
                 death t)
            = merge_eligible_events person keyed relation relative birth
                death t) as Hagain.
  { intros. apply merge_all_rejected. apply merge_later. }
  intros H. split; [|exact Hagain].
  unfold add_person in H.
  apply bind_Ok in H as (person & Hperson & H).
  apply bind_Ok in H as ([[keyed birth] death] & Hextract & [= <-]).
  set (merged :=
         merge_eligible_events person keyed "self" false birth death tl).
  assert (db_handle (cache_person person birth merged) = db_handle tl)
    as Hdb.
  { unfold cache_person, merged, merge_eligible_events.
    assert (∀ l t, db_handle
                     (foldl (merge_step person "self" false birth death) t l)
                   = db_handle t) as Hfold.
    { induction l as [|k l IH]; intros t; simpl; [done|].
      rewrite IH, merge_step_cases. by destruct (merge_rejects _ _ _ _ _). }
    destruct (_ !! _); simpl; apply Hfold. }
  unfold add_person. rewrite Hdb, Hperson. simpl. rewrite Hextract. simpl.
  f_equal.
  destruct (cached_people merged !! handle person) eqn:Ec.
  - assert (cache_person person birth merged = merged) as Hc
      by (unfold cache_person; by rewrite Ec).
    rewrite Hc. unfold merged at 1. rewrite Hagain. exact Hc.
  - assert (cache_person person birth merged
            = assign_cached_people merged
                (<[handle person := birth]> (cached_people merged))) as Hc
      by (unfold cache_person; by rewrite Ec).
    rewrite Hc, merge_cached_people. unfold merged at 1. rewrite Hagain.
    fold merged. unfold cache_person. simpl. by rewrite lookup_insert_eq.
Qed.

(** ** What the adding methods leave alone *)

Lemma continues_refl tl : continues tl tl.
Proof.
  split; [|by repeat split]. exists [], []. by rewrite !app_nil_r.
Qed.

Lemma continues_merge tl0 person relation relative birth death tl
    keyed_event :
  continues tl0 tl →
  continues tl0
    (merge_step person relation relative birth death tl keyed_event).
Proof.
  intros Hc. rewrite merge_step_cases.
  destruct (merge_rejects _ _ _ _ _); [done|].
  destruct Hc as ((added & seen & Ht & Hs & Hh) & Hrest).
  split; [|exact Hrest]. simpl.
  exists (added ++ [(keyed_event.1, (keyed_event.2, person, relation))]),
         (seen ++ [handle keyed_event.2]).
  rewrite Ht, Hs, !app_assoc. split; [done|]. split; [done|].
  by rewrite handles_of_app, Hh.
Qed.

(** X9: a sequence of [add_person], [add_relative] and [add_family] calls
    that returns only appends: the entries found before are a prefix of
    the entries after, in their order, the handles added to the cache of
    seen events are those of the added entries, and the database, the
    bounds, the filters, the relatives, the reference person and the depth
    are those of before the calls. *)
Theorem calls_only_append (fuel : nat) (calls : list Call)
    (tl tl' : Timeline) :
  for_each (call fuel) tl calls = Ok tl' → continues tl tl'.
Proof.
  apply (calls_preserve (continues tl)).
  - intros. by apply continues_merge.
  - intros t people Hc. exact Hc.
  - apply continues_refl.
Qed.

(** ** The vital events of a person *)

Lemma last_filter_snoc {A : Type} (f : A → bool) (l : list A) (x : A) :
  last (List.filter f (l ++ [x]))
  = if f x then Some x else last (List.filter f l).
Proof.
  rewrite List.filter_app. simpl. destruct (f x).
  - apply last_snoc.
  - by rewrite app_nil_r.
Qed.

Lemma head_filter_snoc {A : Type} (f : A → bool) (l : list A) (x : A) :
  head (List.filter f (l ++ [x]))
  = match head (List.filter f l) with
    | Some y => Some y
    | None => if f x then Some x else None
    end.
Proof.
  rewrite List.filter_app. simpl.
  destruct (List.filter f l); simpl; [|done]. by destruct (f x).
Qed.

Lemma extract_steps_vitals db refs v v' :
  for_each (extract_step db) v refs = Ok v' →
  v_birth v = last (List.filter (λ e, is_birth (type e)) (v_events v)) →
  v_death v = last (List.filter (λ e, is_death (type e)) (v_events v)) →
  (v_birth v = None →
   v_birth_fallback v
   = head (List.filter (λ e, is_birth_fallback (type e)) (v_events v))) →
  (v_death v = None →
   v_death_fallback v
   = head (List.filter (λ e, bool_decide (type e ∈ DEATH_INDICATORS))
             (v_events v))) →
  (∃ events, events_at db refs events
             ∧ v_events v' = v_events v ++ events)
  ∧ or_fallback (v_birth v') (v_birth_fallback v')
    = chosen_vital is_birth is_birth_fallback (v_events v')
  ∧ or_fallback (v_death v') (v_death_fallback v')
    = chosen_vital is_death (λ t, bool_decide (t ∈ DEATH_INDICATORS))
        (v_events v').
Proof.
  revert v. induction refs as [|r refs IH]; intros v H Hb Hd Hbf Hdf.
  - injection H as <-. split.
    + exists []. split; [constructor|by rewrite app_nil_r].
    + unfold chosen_vital. rewrite <- Hb, <- Hd. split.
      * destruct (v_birth v); [done|]. rewrite <- Hbf by done.
        by destruct (v_birth_fallback v).
      * destruct (v_death v); [done|]. rewrite <- Hdf by done.
        by destruct (v_death_fallback v).
  - simpl in H. apply bind_Ok in H as (v1 & Hstep & H).
    unfold extract_step in Hstep.
    apply bind_Ok in Hstep as (event & Hevent & [= <-]).
    apply of_option_Ok in Hevent.
    apply IH in H; simpl.
    + destruct H as ((events & Hat & Hev) & Hrest). split; [|exact Hrest].
      exists (event :: events). split; [by constructor|].
      simpl in Hev. by rewrite Hev, <- app_assoc.
    + rewrite last_filter_snoc. by destruct (is_birth (type event)).
    + rewrite last_filter_snoc. by destruct (is_death (type event)).
    + rewrite head_filter_snoc.
      destruct (is_birth (type event)); [done|]. intros Hnone.
      rewrite <- Hbf by done. rewrite Hnone. simpl.
      destruct (v_birth_fallback v); simpl; [done|].
      by destruct (is_birth_fallback (type event)).
    + rewrite head_filter_snoc.
      destruct (is_death (type event)); [done|]. intros Hnone.
      rewrite <- Hdf by done. rewrite Hnone. simpl.
      destruct (v_death_fallback v); simpl; [done|].
      by destruct (bool_decide (type event ∈ DEATH_INDICATORS)).
Qed.

(** X10: of the events of a person, in the order of the person's list, the
    birth that [extract_person_events] returns is the last event of type
    Birth, and where there is none the first christening or baptism; the
    death is the last event of type Death, and where there is none the
    first burial, cremation, cause of death or probate. The keyed list
    starts with the person's own events, in their order, and the events of
    the families follow. *)
Theorem vitals_chosen (db : Db) (person : Person) (keyed : list Keyed)
    (birth death : option Event) :
  extract_person_events db person = Ok (keyed, birth, death) →
  ∃ events own of_families,
    events_at db (person_event_ref_list person) events
    ∧ keyed = own ++ of_families
    ∧ snd <$> own = events
    ∧ birth = chosen_vital is_birth is_birth_fallback events
    ∧ death = chosen_vital is_death
                (λ t, bool_decide (t ∈ [BURIAL; CREMATION; CAUSE_DEATH;
                                        PROBATE]))
                events.
Proof.
  unfold extract_person_events. intros H.
  apply bind_Ok in H as (v & Hv & H).
  apply bind_Ok in H as (own & Hown & H).
  apply bind_Ok in H as (st & Hst & [= <- <- <-]).
  apply extract_steps_vitals in Hv as ((events & Hat & Hev) & Hb & Hd);
    try done.
  simpl in Hev. subst events.
  exists (v_events v), own.
  assert (∃ more, st.1 = own ++ more) as [more Hmore].
  { refine (for_each_inv (λ s, ∃ more, s.1 = own ++ more) _ _ _ _ _ _ Hst).
    - exists []. by rewrite app_nil_r.
    - intros s fh s' _ [more Hs] Hstep. unfold extract_family_step in Hstep.
      apply bind_Ok in Hstep as (family & _ & Hstep).
      apply bind_Ok in Hstep as (evs & _ & Hstep).
      apply bind_Ok in Hstep as (k & _ & [= <-]). simpl.
      exists (more ++ k). by rewrite Hs, app_assoc. }
  exists more. split; [exact Hat|]. split; [exact Hmore|].
  split; [by eapply prepare_event_sortvals_events|].
  split; [exact Hb|]. rewrite Hd. unfold chosen_vital.
  destruct (last (List.filter (λ e, is_death (type e)) (v_events v)))
    eqn:El; [done|].
  f_equal. apply last_None in El.
  assert (∀ l, List.filter (λ e, is_death (type e)) l = [] →
               List.filter (λ e, bool_decide (type e ∈ DEATH_INDICATORS)) l
               = List.filter
                   (λ e, bool_decide (type e ∈ [BURIAL; CREMATION;
                                                CAUSE_DEATH; PROBATE])) l)
    as Hsame; [|by apply Hsame].
  induction l as [|e l IH]; simpl; [done|].
  unfold is_death at 1. destruct (type e) eqn:Et; simpl;
    try discriminate; intros Hl; rewrite ?IH; try done.
Qed.

(** ** An undated union among the person's own events *)

Lemma for_each_Raise_inv {A S : Type} (body : S → A → result S)
    (l : list A) (s : S) (e : exn) (bad : A → Prop) :
  Exists bad l →
  (∀ s x, bad x → body s x = Raise e) →
  (∀ s x, (∃ s', body s x = Ok s') ∨ body s x = Raise e) →
  for_each body s l = Raise e.
Proof.
  intros Hex Hbad Hother. revert s.
  induction Hex as [x l Hx|x l Hex IH]; intros s; simpl.
  - by rewrite Hbad.
  - destruct (Hother s x) as [[s' ->]| ->]; simpl; [apply IH|done].
Qed.

Lemma event_sortval_own db lastval e :
  (undated_union e → event_sortval db None lastval e = Raise AttributeError)
  ∧ ((∃ k, event_sortval db None lastval e = Ok k)
     ∨ event_sortval db None lastval e = Raise AttributeError).
Proof.
  unfold event_sortval, undated_union. simpl.
  destruct (sortval (date e) =? 0) eqn:Ez.
  - destruct (is_marriage (type e)); simpl; [by split; [|right]|].
    destruct (is_divorce (type e)); simpl; [by split; [|right]|].
    split; [by intros [_ ?]|]. left. by eexists.
  - split; [|left; by eexists]. intros [Hz _].
    apply Z.eqb_neq in Ez. done.
Qed.

Lemma extract_steps_total db refs events v :
  events_at db refs events →
  ∃ v', for_each (extract_step db) v refs = Ok v'
        ∧ v_events v' = v_events v ++ events.
Proof.
  intros Hat. revert v.
  induction Hat as [|r e refs events He Hat IH]; intros v; simpl.
  - exists v. by rewrite app_nil_r.
  - assert (∃ v1, extract_step db v r = Ok v1
                  ∧ v_events v1 = v_events v ++ [e]) as (v1 & Hstep & Hev1).
    { unfold extract_step, get_event_from_handle. simpl in He. rewrite He.
      simpl. eexists. split; reflexivity. }
    rewrite Hstep. simpl. destruct (IH v1) as (v' & Hv' & Hev).
    exists v'. split; [exact Hv'|]. by rewrite Hev, Hev1, <- app_assoc.
Qed.

(** X11: where the person's own event list holds a marriage or a divorce
    without a date, every reference of the list resolving, the events of
    the person cannot be collected: [extract_person_events] raises
    AttributeError, since the own events are keyed without a family, and
    so do [add_person] and [set_person] for that person. *)
Theorem own_undated_union_raises (fuel : nat) (h : Handle)
    (ancestors offspring : Z) (tl : Timeline) (person : Person)
    (events : list Event) :
  person_table (db_handle tl) h = Some person →
  events_at (db_handle tl) (person_event_ref_list person) events →
  Exists undated_union events →
  extract_person_events (db_handle tl) person = Raise AttributeError
  ∧ add_person h tl = Raise AttributeError
  ∧ set_person fuel h ancestors offspring tl = Raise AttributeError.
Proof.
  intros Hperson Hat Hex.
  assert (extract_person_events (db_handle tl) person
          = Raise AttributeError) as Hraise.
  { unfold extract_person_events.
    edestruct (extract_steps_total (db_handle tl)) as (v & -> & Hev);
      [exact Hat|].
    simpl in Hev. simpl. rewrite Hev.
    assert (prepare_event_sortvals (db_handle tl) events None
            = Raise AttributeError) as ->; [|done].
    unfold prepare_event_sortvals.
    destruct events as [|e0 events]; [by apply Exists_nil in Hex|].
    rewrite (for_each_Raise_inv _ _ _ AttributeError undated_union);
      [done|exact Hex| |].
    - intros s x Hx. unfold keyed_step.
      by rewrite (proj1 (event_sortval_own _ _ _) Hx).
    - intros s x. unfold keyed_step.
      destruct (proj2 (event_sortval_own (db_handle tl) s.1 x))
        as [[k ->]| ->]; simpl; [left; by eexists|by right]. }
  split; [exact Hraise|]. split.
  - unfold add_person, get_person_from_handle. rewrite Hperson. simpl.
    by rewrite Hraise.
  - unfold set_person, get_person_from_handle. simpl. rewrite Hperson.
    simpl. by rewrite Hraise.
Qed.

(** ** The keys of dated and of undated events *)

Lemma keyed_at db events family keyed i e :
  prepare_event_sortvals db events family = Ok keyed →
  events !! i = Some e →
  ∃ k, keyed !! i = Some (k, e)
       ∧ event_sortval db family (last_known_key events keyed i) e = Ok k.
Proof.
  intros Hprep Hi. unfold prepare_event_sortvals in Hprep.
  destruct events as [|e0 events]; [done|].
  apply bind_Ok in Hprep as (st & Hsteps & [= <-]).
  destruct (keyed_steps_at _ _ _ _ _ _ _ _ Hsteps Hi) as (k & Hat & Hkey).
  simpl in Hat. exists k. split; [exact Hat|]. exact Hkey.
Qed.

Lemma event_sortval_plain db family lastval e k :
  event_sortval db family lastval e = Ok k →
  (sortval (date e) ≠ 0 → k = sortval (date e))
  ∧ (sortval (date e) = 0 → is_marriage (type e) = false →
     is_divorce (type e) = false → k = lastval + 1).
Proof.
  unfold event_sortval. simpl.
  destruct (sortval (date e) =? 0) eqn:Ez.
  - apply Z.eqb_eq in Ez. intros H. split; [done|].
    intros _ Hm Hd. rewrite Hm, Hd in H. simpl in H. rewrite Ez in H.
    simpl in H. by injection H as <-.
  - apply Z.eqb_neq in Ez. intros [= <-]. done.
Qed.

Lemma seed_scan_first index events i e :
  events !! i = Some e →
  sortval (date e) ≠ 0 →
  (∀ j e', (j < i)%nat → events !! j = Some e' → sortval (date e') = 0) →
  seed_scan index events = sortval (date e) - (index + Z.of_nat i).
Proof.
  revert index i. induction events as [|e0 events IH]; intros index i Hi Hs Hj;
    [done|].
  simpl. destruct i as [|i].
  - injection Hi as ->. apply Z.eqb_neq in Hs. rewrite Hs. simpl. lia.
  - rewrite (Hj O e0) by (done || lia). simpl.
    rewrite (IH (index + 1) i Hi Hs); [lia|].
    intros j e' Hlt He'. apply (Hj (S j)); [lia|done].
Qed.

(** X12: in the list [prepare_event_sortvals] returns, the event at each
    position is the event of the list given, a dated event has its own
    sort value as key, and an undated event that is no marriage and no
    divorce has the key of the event before it plus one, the first event
    the seed plus one. *)
Theorem event_keys_follow (db : Db) (events : list Event)
    (family : option Family) (keyed : list Keyed) :
  prepare_event_sortvals db events family = Ok keyed →
  length keyed = length events
  ∧ ∀ i e,
      events !! i = Some e →
      ∃ k,
        keyed !! i = Some (k, e)
        ∧ (sortval (date e) ≠ 0 → k = sortval (date e))
        ∧ (sortval (date e) = 0 → is_marriage (type e) = false →
           is_divorce (type e) = false →
           k = last_known_key events keyed i + 1).
Proof.
  intros Hprep. split.
  - rewrite <- (prepare_event_sortvals_events _ _ _ _ Hprep).
    by rewrite length_fmap.
  - intros i e Hi.
    destruct (keyed_at _ _ _ _ _ _ Hprep Hi) as (k & Hat & Hkey).
    exists k. split; [exact Hat|]. by eapply event_sortval_plain.
Qed.

(** X13: undated events, none of them a marriage or a divorce, that come
    before the first dated event of the list get consecutive keys that end
    at the sort value of that event: the event [n] places before it has
    that sort value less [n - 1], so that a stable sort leaves them where
    the user placed them, right before the dated event. *)
Theorem leading_undated_keys (db : Db) (events : list Event)
    (family : option Family) (keyed : list Keyed) (i : nat) (e : Event) :
  prepare_event_sortvals db events family = Ok keyed →
  events !! i = Some e →
  sortval (date e) ≠ 0 →
  (∀ j e', (j < i)%nat → events !! j = Some e' →
           sortval (date e') = 0 ∧ is_marriage (type e') = false
           ∧ is_divorce (type e') = false) →
  keyed !! i = Some (sortval (date e), e)
  ∧ ∀ j e', (j < i)%nat → events !! j = Some e' →
            keyed !! j = Some (sortval (date e) - Z.of_nat (i - j) + 1, e').
Proof.
  intros Hprep Hi Hs Hlead. split.
  - destruct (keyed_at _ _ _ _ _ _ Hprep Hi) as (k & Hat & Hkey).
    apply event_sortval_plain in Hkey as [Hk _]. by rewrite Hat, Hk.
  - induction j as [|j IH]; intros e' Hlt He'.
    + destruct (keyed_at _ _ _ _ _ _ Hprep He') as (k & Hat & Hkey).
      destruct (Hlead O e' Hlt He') as (Hz & Hm & Hd).
      apply event_sortval_plain in Hkey as [_ Hk].
      rewrite Hat, (Hk Hz Hm Hd). simpl. do 2 f_equal.
      unfold seed_lastval. destruct events as [|e0 events]; [done|].
      injection He' as ->. apply Z.eqb_eq in Hz. rewrite Hz.
      rewrite (seed_scan_first 0 (e' :: events) i e Hi Hs); [lia|].
      intros j0 e0 Hj0 He0. by apply (Hlead j0 e0).
    + destruct (lookup_lt_is_Some_2 events j) as [ej Hej].
      { apply lookup_lt_Some in He'. lia. }
      pose proof (IH ej ltac:(lia) Hej) as Hprev.
      destruct (keyed_at _ _ _ _ _ _ Hprep He') as (k & Hat & Hkey).
      destruct (Hlead (S j) e' Hlt He') as (Hz & Hm & Hd).
      apply event_sortval_plain in Hkey as [_ Hk].
      rewrite Hat, (Hk Hz Hm Hd). simpl. rewrite Hprev. simpl.
      do 2 f_equal. lia.
Qed.

(** ** The eligible event types *)

Lemma eligible_tokens_exact db filters eligible eligible' :
  for_each (eligible_token (get_event_types db)) eligible filters
  = Ok eligible' →
  ∀ name,
    name ∈ eligible'
    ↔ name ∈ eligible
      ∨ (name ∈ filters
         ∧ (name ∈ default_event_types ∨ name ∈ get_event_types db)).
Proof.
  revert eligible. induction filters as [|key filters IH];
    intros eligible H name.
  - injection H as <-. split; [by left|]. intros [?|[Hin _]]; [done|].
    by apply elem_of_nil in Hin.
  - simpl in H. apply bind_Ok in H as (e1 & Hstep & H).
    rewrite (IH _ H name). clear IH H. unfold eligible_token in Hstep.
    destruct (py_in key default_event_types) eqn:E1.
    { injection Hstep as <-. apply py_in_true in E1.
      rewrite elem_of_union, elem_of_singleton, elem_of_cons. split.
      - intros [[->|?]|[? ?]]; [right|by left|right]; split; auto.
      - intros [?|[[->|?] ?]]; [left; by right|left; by left|right; auto]. }
    destruct (py_in key (get_event_types db)) eqn:E2.
    { injection Hstep as <-. apply py_in_true in E2.
      rewrite elem_of_union, elem_of_singleton, elem_of_cons. split.
      - intros [[->|?]|[? ?]]; [right|by left|right]; split; auto.
      - intros [?|[[->|?] ?]]; [left; by right|left; by left|right; auto]. }
    destruct (py_in key EVENT_CATEGORIES); simpl in Hstep; [|done].
    injection Hstep as <-. apply py_in_false in E1, E2.
    rewrite elem_of_cons. split.
    + intros [?|[? ?]]; [by left|right]; split; auto.
    + intros [?|[[->|?] Hk]]; [by left| |right; auto].
      destruct Hk; done.
Qed.

Lemma category_ids_exact ids (eligible : gset string) (name : string) :
  name ∈ foldl (λ eligible_events event_id,
                  match default_event_map !! event_id with
                  | Some n => {[n]} ∪ eligible_events
                  | None => eligible_events
                  end) eligible ids
  ↔ name ∈ eligible
    ∨ ∃ event_id, event_id ∈ ids
                  ∧ default_event_map !! event_id = Some name.
Proof.
  revert eligible. induction ids as [|id ids IH]; intros eligible; simpl.
  - split; [by left|]. intros [?|(i & Hi & _)]; [done|].
    by apply elem_of_nil in Hi.
  - rewrite IH. clear IH. split.
    + intros [Hin|(i & Hi & Hm)].
      * destruct (default_event_map !! id) as [n|] eqn:En; [|by left].
        apply elem_of_union in Hin as [Hin|Hin]; [|by left].
        apply elem_of_singleton in Hin as ->. right. exists id.
        split; [left|done].
      * right. exists i. split; [by right|done].
    + intros [Hin|(i & Hi & Hm)].
      * left. destruct (default_event_map !! id); [|done].
        apply elem_of_union. by right.
      * apply elem_of_cons in Hi as [->|Hi].
        -- left. rewrite Hm. apply elem_of_union. left.
           by apply elem_of_singleton.
        -- right. by exists i.
Qed.

Lemma categories_exact filters menu (eligible : gset string)
    (name : string) :
  name ∈ foldl (eligible_category filters) eligible menu
  ↔ name ∈ eligible
    ∨ ∃ entry event_id,
        entry ∈ menu ∧ category_key entry.1 ∈ filters
        ∧ event_id ∈ entry.2
        ∧ default_event_map !! event_id = Some name.
Proof.
  revert eligible. induction menu as [|entry menu IH]; intros eligible;
    simpl.
  - split; [by left|]. intros [?|(e & i & He & _)]; [done|].
    by apply elem_of_nil in He.
  - rewrite IH. clear IH. unfold eligible_category.
    fold (category_key entry.1).
    destruct (py_in (category_key entry.1) filters) eqn:Ek.
    + apply py_in_true in Ek. rewrite category_ids_exact. split.
      * intros [[?|(i & Hi & Hm)]|(e & i & He & Hk & Hi & Hm)].
        -- by left.
        -- right. exists entry, i. split; [left|done].
        -- right. exists e, i. split; [by right|done].
      * intros [?|(e & i & He & Hk & Hi & Hm)]; [left; by left|].
        apply elem_of_cons in He as [->|He].
        -- left. right. by exists i.
        -- right. by exists e, i.
    + apply py_in_false in Ek. split.
      * intros [?|(e & i & He & Hk & Hi & Hm)]; [by left|].
        right. exists e, i. split; [by right|done].
      * intros [?|(e & i & He & Hk & Hi & Hm)]; [by left|].
        apply elem_of_cons in He as [->|He]; [done|].
        right. by exists e, i.
Qed.

Lemma custom_types_exact (types : list string) (eligible : gset string)
    (name : string) :
  name ∈ foldl (λ eligible_events event_name,
                  {[event_name]} ∪ eligible_events) eligible types
  ↔ name ∈ eligible ∨ name ∈ types.
Proof.
  forget_collaborators.
  revert eligible. induction types as [|t types IH]; intros eligible; simpl.
  - split; [by left|]. intros [?|Hin]; [done|]. by apply elem_of_nil in Hin.
  - rewrite IH, elem_of_union, elem_of_singleton, elem_of_cons.
    clear IH. split.
    + intros [[?|?]|?]; auto.
    + intros [?|[?|?]]; auto.
Qed.

Lemma prepared_admits db event_filters eligible :
  _prepare_eligible_events db event_filters = Ok eligible →
  ∀ name, name ∈ eligible ↔ admits db event_filters name.
Proof.
  unfold _prepare_eligible_events. intros H name.
  apply bind_Ok in H as (e1 & H1 & [= <-]).
  pose proof (eligible_tokens_exact _ _ _ _ H1 name) as Htok.
  assert (name ∈ ({["Death"]} ∪ ({["Birth"]} ∪ ∅) : gset string)
          ↔ name = "Birth" ∨ name = "Death") as Hvital.
  { rewrite !elem_of_union, !elem_of_singleton. split.
    - intros [?|[?|Hin]]; auto. by apply elem_of_empty in Hin.
    - intros [?|?]; auto. }
  unfold admits, category_type.
  destruct (py_in "custom" event_filters) eqn:Ec.
  - apply py_in_true in Ec.
    rewrite custom_types_exact, categories_exact, Htok, Hvital. split.
    + intros [[[[?|?]|?]|?]|?]; auto 10.
    + intros [?|[?|[?|[?|[_ ?]]]]]; auto 10.
  - apply py_in_false in Ec.
    rewrite categories_exact, Htok, Hvital. split.
    + intros [[[?|?]|?]|?]; auto 10.
    + intros [?|[?|[?|[?|[? _]]]]]; auto 10. done.
Qed.

(** X14: the eligible event types [_prepare_eligible_events] returns are
    Birth and Death, the filter tokens that are the name of a standard or
    of a custom type, the types of every menu category whose key (the
    label in lower case, [vital] for [life events]) is among the tokens,
    and every custom type of the database when [custom] is a token: these
    and no other. *)
Theorem eligible_events_exact (db : Db) (event_filters : list string)
    (eligible : gset string) :
  _prepare_eligible_events db event_filters = Ok eligible →
  ∀ name,
    name ∈ eligible
    ↔ name = "Birth" ∨ name = "Death"
      ∨ (name ∈ event_filters
         ∧ (name ∈ default_event_types ∨ name ∈ get_event_types db))
      ∨ category_type event_filters name
      ∨ ("custom" ∈ event_filters ∧ name ∈ get_event_types db).
Proof. apply prepared_admits. Qed.

Lemma admits_nothing db (name : string) :
  admits db [] name ↔ name = "Birth" ∨ name = "Death".
Proof.
  unfold admits, category_type. split; [|intros [?|?]; auto].
  intros [?|[?|[[Hin _]|[(entry & i & _ & Hin & _)|[Hin _]]]]]; auto;
    by apply elem_of_nil in Hin.
Qed.

(** X15: for a timeline that [__init__] returned, an event of the person
    or of the family itself is eligible when no event filter was given or
    when the filters let the name of its type in, and an event of a
    relative only when the relative filters let it in: with no relative
    filter, the births and the deaths of relatives and nothing else are
    eligible, while with no event filter every event of the person is. *)
Theorem constructed_eligibility (db : Db) (dates : option string)
    (events relatives relative_events : option (list string))
    (precision : Z) (tl : Timeline) :
  __init__ db dates events relatives relative_events precision = Ok tl →
  ∀ e,
    (is_eligible tl e false = true
     ↔ default [] events = []
       ∨ admits db (default [] events) (type_str (type e)))
    ∧ (is_eligible tl e true = true
       ↔ admits db (default [] relative_events) (type_str (type e)))
    ∧ (default [] relative_events = [] →
       (is_eligible tl e true = true
        ↔ type_str (type e) = "Birth" ∨ type_str (type e) = "Death")).
Proof.
  unfold __init__, set_event_filters, set_relative_event_filters. simpl.
  intros H e.
  apply bind_Ok in H as (tl1 & H1 & H).
  apply bind_Ok in H1 as (el1 & Hel1 & [= <-]).
  apply bind_Ok in H as (tl2 & H2 & H). simpl in H2.
  apply bind_Ok in H2 as (el2 & Hel2 & [= <-]).
  apply bind_Ok in H as ([start finish] & _ & [= <-]).
  pose proof (prepared_admits _ _ _ Hel1 (type_str (type e))) as Hx1.
  pose proof (prepared_admits _ _ _ Hel2 (type_str (type e))) as Hx2.
  unfold is_eligible. simpl.
  assert (bool_decide (type_str (type e) ∈ el2) = true
          ↔ admits db (default [] relative_events) (type_str (type e)))
    as Hrel by (by rewrite bool_decide_eq_true).
  split; [|split; [exact Hrel|]].
  - destruct (decide (default [] events = [])) as [Hnil|Hsome].
    + rewrite bool_decide_eq_true_2 by done. split; [by left|done].
    + rewrite bool_decide_eq_false_2 by done.
      rewrite bool_decide_eq_true, Hx1. split; [by right|].
      by intros [?|?].
  - intros Hnil. rewrite Hrel, Hnil. apply admits_nothing.
Qed.

(** ** The [dates] argument *)

Lemma str_split_length (sep : ascii) (s : string) :
  length (str_split sep s) = S (occurrences sep s).
Proof.
  forget_collaborators.
  induction s as [|c s IH]; [done|]. simpl.
  destruct (Ascii.eqb c sep); simpl; [by rewrite IH|].
  destruct (str_split sep s); simpl in *; [done|exact IH].
Qed.

Lemma occurrences_contains (s : string) :
  (0 < occurrences "-" s)%nat → str_contains "-" s = true.
Proof.
  forget_collaborators.
  intros H. apply str_contains_dash.
  induction s as [|c s IH]; simpl in *; [lia|].
  destruct (Ascii.eqb c "-") eqn:E.
  - apply Ascii.eqb_eq in E as ->. left.
  - right. apply IH. lia.
Qed.

Lemma parse_ymd_error side e : parse_ymd side = Raise e → e = ValueError.
Proof.
  unfold parse_ymd.
  destruct (str_split "/" side) as [|y [|m [|d [|? ?]]]];
    try (by intros [= <-]).
  destruct (py_int y); simpl; [|by intros [= <-]].
  destruct (py_int m); simpl; [|by intros [= <-]].
  destruct (py_int d); simpl; [done|by intros [= <-]].
Qed.

Lemma parse_bound_error side e : parse_bound side = Raise e → e = ValueError.
Proof.
  unfold parse_bound. destruct (str_contains "/" side); [|done].
  destruct (parse_ymd side) eqn:E; simpl; [done|].
  intros [= <-]. by eapply parse_ymd_error.
Qed.

(** X16: a [dates] argument with more than one dash is refused with
    ValueError, as a date written with dashes is; a side that holds
    slashes but not two of them is refused in the same way; and ValueError
    is the only exception that the reading of the argument raises. *)
Theorem dates_refused (dates : string) :
  ((2 ≤ occurrences "-" dates)%nat →
   parse_dates (Some dates) = Raise ValueError)
  ∧ (∀ start finish,
       str_split "-" dates = [start; finish] →
       (str_contains "/" start = true ∧ occurrences "/" start ≠ 2%nat)
       ∨ (str_contains "/" finish = true ∧ occurrences "/" finish ≠ 2%nat) →
       parse_dates (Some dates) = Raise ValueError)
  ∧ (∀ e, parse_dates (Some dates) = Raise e → e = ValueError).
Proof.
  split; [|split].
  - intros Hmany. unfold parse_dates.
    rewrite occurrences_contains by lia.
    assert (dates ≠ "") as Hne by (intros ->; simpl in Hmany; lia).
    rewrite bool_decide_eq_false_2 by done. simpl.
    pose proof (str_split_length "-" dates) as Hlen.
    destruct (str_split "-" dates) as [|a [|b [|c l]]]; simpl in Hlen;
      try done.
    lia.
  - intros first second Hsplit Hbad. unfold parse_dates.
    pose proof (str_split_length "-" dates) as Hlen.
    rewrite Hsplit in Hlen. simpl in Hlen.
    rewrite occurrences_contains by lia.
    assert (dates ≠ "") as Hne by (intros ->; simpl in Hlen; lia).
    rewrite bool_decide_eq_false_2 by done. simpl. rewrite Hsplit.
    assert (∀ side, str_contains "/" side = true →
                    occurrences "/" side ≠ 2%nat →
                    parse_bound side = Raise ValueError) as Hside.
    { intros side Hc Hocc. unfold parse_bound, parse_ymd. rewrite Hc.
      pose proof (str_split_length "/" side) as Hl.
      destruct (str_split "/" side) as [|y [|m [|d [|? ?]]]];
        simpl in Hl; try done.
      lia. }
    destruct Hbad as [[Hc Hocc]|[Hc Hocc]].
    + by rewrite (Hside first Hc Hocc).
    + rewrite (Hside second Hc Hocc).
      destruct (parse_bound first) as [lo|e] eqn:E; simpl; [done|].
      f_equal. by eapply parse_bound_error.
  - intros e. unfold parse_dates.
    destruct (negb (bool_decide (dates = "")) && str_contains "-" dates);
      [|done].
    destruct (str_split "-" dates) as [|a [|b [|c l]]];
      try (by intros [= <-]).
    destruct (parse_bound a) eqn:Ea; simpl.
    + destruct (parse_bound b) eqn:Eb; simpl; [done|].
      intros [= <-]. by eapply parse_bound_error.
    + intros [= <-]. by eapply parse_bound_error.
Qed.

(** ** No relatives to follow *)

Lemma for_each_unchanged {A S : Type} (body : S → A → result S)
    (l : list A) (s : S) :
  (∀ x, x ∈ l → body s x = Ok s) → for_each body s l = Ok s.
Proof.
  induction l as [|x l IH]; intros H; simpl; [done|].
  rewrite (H x) by left. simpl. apply IH. intros y Hy. apply H. by right.
Qed.

Lemma add_relative_no_relatives fuel h ancestors offspring tl :
  eligible_relatives tl = [] →
  add_relative (S fuel) h ancestors offspring tl = Ok tl.
Proof. intros H. simpl. by rewrite H. Qed.

Lemma add_family_with_unchanged
    (rel : Handle → Z → Z → Timeline → result Timeline)
    h ancestors offspring include_children tl :
  (∀ h' a o, rel h' a o tl = Ok tl) →
  is_Some (reference_person tl) →
  is_Some (family_table (db_handle tl) h) →
  add_family_with rel h ancestors offspring include_children tl = Ok tl.
Proof.
  intros Hrel [p Hp] [family Hf].
  unfold add_family_with, get_family_from_handle.
  rewrite Hf, Hp. simpl.
  assert ((match uncached tl (father_handle family) with
           | Some f => rel f ancestors 1 tl
           | None => Ok tl
           end) = Ok tl) as ->.
  { destruct (uncached tl _); [apply Hrel|done]. }
  simpl.
  assert ((match uncached tl (mother_handle family) with
           | Some m => rel m ancestors 1 tl
           | None => Ok tl
           end) = Ok tl) as ->.
  { destruct (uncached tl _); [apply Hrel|done]. }
  simpl. destruct include_children; [|done].
  apply for_each_unchanged. intros child _.
  destruct (cached_people tl !! ref child); [done|apply Hrel].
Qed.

Lemma add_family_no_relatives fuel h ancestors offspring include_children
    tl :
  eligible_relatives tl = [] →
  is_Some (reference_person tl) →
  is_Some (family_table (db_handle tl) h) →
  add_family (S fuel) h ancestors offspring include_children tl = Ok tl.
Proof.
  intros Hrel Hp Hf. unfold add_family.
  apply add_family_with_unchanged; [|done|done].
  intros. by apply add_relative_no_relatives.
Qed.

Lemma extracted_death_keyed db person keyed birth death d :
  extract_person_events db person = Ok (keyed, birth, death) →
  death = Some d →
  ∃ entry, py_index (sort_by_key keyed) (-1) = Ok entry.
Proof.
  intros Hex ->.
  assert (d ∈ snd <$> keyed) as Hin.
  { eapply (extract_chosen_keyed _ _ _ _ _ Hex (Some d) d); [|done].
    right. left. }
  assert (length (sort_by_key keyed) ≠ 0%nat) as Hlen.
  { rewrite (Permutation_length (sort_by_key_perm keyed)).
    destruct keyed; [by apply elem_of_nil in Hin|done]. }
  destruct (last (sort_by_key keyed)) as [entry|] eqn:El.
  - exists entry. by apply py_index_last.
  - apply last_None in El. by rewrite El in Hlen.
Qed.

(** X17: with no relatives to follow, the generations asked of
    [set_person] add no entry: whatever [ancestors] and [offspring] are,
    the call returns where the call without them does, the families of the
    parents resolving, and it leaves the same entries and the same caches.
    [add_relative] returns at once, and leaves the timeline as it is. *)
Theorem no_relatives_no_expansion (fuel : nat) (h : Handle)
    (ancestors offspring : Z) (tl tl0 : Timeline) (person : Person) :
  eligible_relatives tl = [] →
  person_table (db_handle tl) h = Some person →
  (∀ f, f ∈ parent_family_list person →
        is_Some (family_table (db_handle tl) f)) →
  set_person (S fuel) h 0 0 tl = Ok tl0 →
  (∀ h' a o, add_relative (S fuel) h' a o tl0 = Ok tl0)
  ∧ ∃ tl',
      set_person (S fuel) h ancestors offspring tl = Ok tl'
      ∧ timeline tl' = timeline tl0
      ∧ cached_events tl' = cached_events tl0
      ∧ cached_people tl' = cached_people tl0.
Proof.
  intros Hrel Hperson Hparents H0.
  unfold set_person, get_person_from_handle in H0 |- *. simpl in H0 |- *.
  rewrite Hperson in H0 |- *. simpl in H0 |- *.
  destruct (extract_person_events (db_handle tl) person)
    as [[[keyed birth] death]|e] eqn:Hex; [|done].
  simpl in H0 |- *. injection H0 as <-.
  set (tl1 := cache_person person birth
                (merge_eligible_events person keyed "self" false birth death
                   (assign_run tl "person"))).
  assert (eligible_relatives tl1 = [] ∧ db_handle tl1 = db_handle tl)
    as [Hrel1 Hdb1].
  { apply (cache_person_preserves
             (λ t, eligible_relatives t = [] ∧ db_handle t = db_handle tl));
      [done|].
    apply (merge_preserves
             (λ t, eligible_relatives t = [] ∧ db_handle t = db_handle tl));
      [|done].
    intros p r rl b d t k Ht. rewrite merge_step_cases.
    by destruct (merge_rejects _ _ _ _ _). }
  split; [intros; by apply add_relative_no_relatives|].
  destruct (negb (ancestors =? 0) || negb (offspring =? 0));
    [|by exists tl1].
  assert (∃ finish,
            match end_date tl1 with
            | Some d => Ok (Some d)
            | None =>
                match death with
                | Some _ =>
                    py_index (sort_by_key keyed) (-1)
                    ≫= λ last, Ok (Some (date last.2))
                | None => Ok (probably_alive_range person (db_handle tl1)).2
                end
            end = Ok finish) as [finish ->].
  { destruct (end_date tl1); [by eexists|].
    destruct death as [d|]; [|by eexists].
    destruct (extracted_death_keyed _ _ _ _ _ d Hex eq_refl) as [entry ->].
    by eexists. }
  simpl.
  set (tl2 := assign_reference tl1 person _ _ finish).
  assert (∀ offs l,
            (∀ f, f ∈ l → is_Some (family_table (db_handle tl) f)) →
            for_each
              (λ t family, add_family (S fuel) family ancestors offs true t)
              tl2 l = Ok tl2) as Hloop.
  { intros offs l Hl. apply for_each_unchanged. intros f Hf.
    apply add_family_no_relatives; [done|by eexists|].
    simpl. rewrite Hdb1. by apply Hl. }
  rewrite Hloop by done. simpl.
  exists tl2. split; [|done]. apply Hloop. intros f Hf.
  clear Hloop tl2. unfold extract_person_events in Hex.
  apply bind_Ok in Hex as (v & _ & Hex).
  apply bind_Ok in Hex as (own & _ & Hex).
  apply bind_Ok in Hex as (st & Hst & _).
  assert (∀ l s, for_each (extract_family_step (db_handle tl)) s l = Ok st →
                 ∀ f, f ∈ l → is_Some (family_table (db_handle tl) f))
    as Hfam; [|by eapply Hfam].
  clear. induction l as [|f0 l IH]; intros s H f Hf.
  { by apply elem_of_nil in Hf. }
  simpl in H. apply bind_Ok in H as (s1 & Hstep & H).
  apply elem_of_cons in Hf as [->|Hf]; [|by eapply IH].
  unfold extract_family_step in Hstep.
  apply bind_Ok in Hstep as (family & Hfamily & _).
  apply of_option_Ok in Hfamily. by eexists.
Qed.

(** ** A family timeline without a reference person *)

Lemma for_each_app {A S : Type} (body : S → A → result S) (l1 l2 : list A)
    (s : S) :
  for_each body s (l1 ++ l2) = s' ← for_each body s l1; for_each body s' l2.
Proof.
  revert s. induction l1 as [|x l1 IH]; intros s; simpl; [done|].
  destruct (body s x); simpl; [apply IH|done].
Qed.

Lemma for_each_fmap {A B S : Type} (f : A → B) (body : S → B → result S)
    (l : list A) (s : S) :
  for_each body s (f <$> l) = for_each (λ s x, body s (f x)) s l.
Proof.
  revert s. induction l as [|x l IH]; intros s; simpl; [done|].
  destruct (body s (f x)); simpl; [apply IH|done].
Qed.

(** X18: as long as no person timeline with generations has set a
    reference person, [set_family] and [add_family] read neither
    [ancestors] nor [offspring] and call no relative: they add the father,
    the mother and the children of the family with [add_person], one after
    the other and in that order, and leave the timeline without a
    reference person. *)
Theorem family_without_reference (fuel : nat) (h : Handle)
    (ancestors offspring : Z) (include_children : bool) (tl : Timeline) :
  reference_person tl = None →
  add_family fuel h ancestors offspring include_children tl
  = (family ← get_family_from_handle (db_handle tl) h;
     for_each (λ tl member, add_person member tl) tl (family_members family))
  ∧ set_family fuel h ancestors offspring tl
    = (family ← get_family_from_handle (db_handle tl) h;
       for_each (λ tl member, add_person member tl) (assign_run tl "family")
         (family_members family))
  ∧ ∀ tl', set_family fuel h ancestors offspring tl = Ok tl' →
           reference_person tl' = None.
Proof.
  intros Href.
  assert (∀ ic t, reference_person t = None →
            add_family fuel h ancestors offspring ic t
            = (family ← get_family_from_handle (db_handle t) h;
               for_each (λ tl member, add_person member tl) t
                 (family_members family))) as Hadd.
  { intros ic t Ht. unfold add_family, add_family_with. rewrite Ht.
    destruct (get_family_from_handle (db_handle t) h) as [family|e];
      [|done].
    simpl. unfold family_members. rewrite for_each_app.
    destruct (handle_set (father_handle family)) as [f|]; simpl;
      [destruct (add_person f t) as [t1|e]; simpl; [|done]|];
      rewrite for_each_app;
      (destruct (handle_set (mother_handle family)) as [m|]; simpl;
       [match goal with
        | |- context [add_person m ?x] => destruct (add_person m x)
        end; simpl; [|done]|]);
      by rewrite for_each_fmap. }
  split; [by apply Hadd|]. split.
  - unfold set_family. by rewrite Hadd.
  - unfold set_family. intros tl' H.
    apply (add_family_preserves (λ t, reference_person t = None))
      in H; try done.
    intros p r rl b d t k Ht. rewrite merge_step_cases.
    by destruct (merge_rejects _ _ _ _ _).
Qed.

(** ** The bounds a person timeline derives *)

Lemma sorted_last_max {A : Type} (l : list (Z * A)) (x : Z * A) :
  Sorted key_le l → last l = Some x → ∀ y, y ∈ l → y.1 ≤ x.1.
Proof.
  intros Hs. apply Sorted_StronglySorted in Hs.
  2: { intros a b c Hab Hbc. unfold key_le in *. lia. }
  induction Hs as [|a l Hs IH Hall]; intros Hlast y Hy.
  { by apply elem_of_nil in Hy. }
  destruct l as [|b l].
  - injection Hlast as <-. apply list_elem_of_singleton in Hy as ->. lia.
  - change (last (a :: b :: l)) with (last (b :: l)) in Hlast.
    apply elem_of_cons in Hy as [->|Hy]; [|by apply IH].
    rewrite Forall_forall in Hall.
    assert (x ∈ b :: l) as Hx by by apply last_Some_elem_of.
    by apply (Hall x).
Qed.

(** X19: a person timeline with generations, built without bounds, takes
    its bounds from the person: the start is the date of the chosen birth,
    and the end, where there is a death, is the date of the event with the
    greatest key among the keyed events of the person and of the person's
    families, which need not be the death; without a birth or a death the
    estimated lifespan gives the bound. The person becomes the reference
    person, and the depth is one more than the greater of the two
    generation counts. *)
Theorem derived_bounds (fuel : nat) (h : Handle) (ancestors offspring : Z)
    (tl tl' : Timeline) (person : Person) (keyed : list Keyed)
    (birth death : option Event) :
  start_date tl = None →
  end_date tl = None →
  ancestors ≠ 0 ∨ offspring ≠ 0 →
  person_table (db_handle tl) h = Some person →
  extract_person_events (db_handle tl) person = Ok (keyed, birth, death) →
  set_person fuel h ancestors offspring tl = Ok tl' →
  start_date tl'
  = match birth with
    | Some b => Some (date b)
    | None => (probably_alive_range person (db_handle tl)).1
    end
  ∧ match death with
    | Some _ =>
        ∃ entry,
          last (sort_by_key keyed) = Some entry
          ∧ end_date tl' = Some (date entry.2)
          ∧ ∀ other, other ∈ keyed → other.1 ≤ entry.1
    | None => end_date tl' = (probably_alive_range person (db_handle tl)).2
    end
  ∧ reference_person tl' = Some person
  ∧ depth tl' = Z.max ancestors offspring + 1.
Proof.
  intros Hstart Hend Hgen Hperson Hex H.
  unfold set_person, get_person_from_handle in H. simpl in H.
  rewrite Hperson in H. simpl in H. rewrite Hex in H. simpl in H.
  set (tl1 := cache_person person birth
                (merge_eligible_events person keyed "self" false birth death
                   (assign_run tl "person"))) in H.
  assert (start_date tl1 = None ∧ end_date tl1 = None
          ∧ db_handle tl1 = db_handle tl) as (Hs1 & He1 & Hdb1).
  { apply (cache_person_preserves
             (λ t, start_date t = None ∧ end_date t = None
                   ∧ db_handle t = db_handle tl)); [done|].
    apply (merge_preserves
             (λ t, start_date t = None ∧ end_date t = None
                   ∧ db_handle t = db_handle tl)); [|done].
    intros p r rl b d t k Ht. rewrite merge_step_cases.
    by destruct (merge_rejects _ _ _ _ _). }
  assert (negb (ancestors =? 0) || negb (offspring =? 0) = true) as Hg.
  { destruct Hgen as [Hg|Hg]; apply Z.eqb_neq in Hg; rewrite Hg;
      [done|by rewrite orb_true_r]. }
  rewrite Hg, Hs1, He1, Hdb1 in H.
  apply bind_Ok in H as (finish & Hfinish & H).
  apply bind_Ok in H as (tl2 & Hparents & H).
  set (lower := match birth with
                | Some b => Some (date b)
                | None => (probably_alive_range person (db_handle tl)).1
                end) in *.
  set (P := λ t : Timeline,
         start_date t = lower ∧ end_date t = finish
         ∧ reference_person t = Some person
         ∧ depth t = Z.max ancestors offspring + 1).
  assert (∀ p r rl b d t k,
            P t → P (merge_step p r rl b d t k)) as Hmerge.
  { intros p r rl b d t k Ht. rewrite merge_step_cases.
    by destruct (merge_rejects _ _ _ _ _). }
  assert (∀ t people, P t → P (assign_cached_people t people)) as Hcache
    by done.
  assert (P tl2) as HP2.
  { refine (for_each_inv P _ _ _ _ _ _ Hparents); [done|].
    intros s f s' _ Hs Hstep.
    by eapply (add_family_preserves P Hmerge Hcache). }
  assert (P tl') as (Hs' & He' & Hr' & Hd').
  { refine (for_each_inv P _ _ _ _ HP2 _ H).
    intros s f s' _ Hs Hstep.
    by eapply (add_family_preserves P Hmerge Hcache). }
  split; [exact Hs'|]. split; [|by split].
  destruct death as [d|].
  - apply bind_Ok in Hfinish as (entry & Hentry & [= <-]).
    destruct (last (sort_by_key keyed)) as [x|] eqn:El.
    + rewrite (py_index_last x) in Hentry by done.
      injection Hentry as <-. exists x. split; [done|]. split; [done|].
      intros other Hother.
      apply (sorted_last_max (sort_by_key keyed)); [|done|].
      * apply sort_by_key_sorted.
      * by rewrite (sort_by_key_perm keyed).
    + apply last_None in El. rewrite El in Hentry. done.
  - injection Hfinish as <-. exact He'.
Qed.

(** ** The keywords that need ["object"] *)

Lemma py_in_without_person_keywords keyword rank_list :
  py_in keyword person_keywords = false →
  py_in keyword (without_person_keywords rank_list) = py_in keyword rank_list.
Proof.
  forget_collaborators.
  intros Hk. unfold without_person_keywords.
  destruct (py_in keyword rank_list) eqn:E.
  - apply py_in_true. apply py_in_true in E.
    apply list_elem_of_In, List.filter_In. split; [by apply list_elem_of_In|].
    by rewrite Hk.
  - apply py_in_false. apply py_in_false in E. intros Hin.
    apply list_elem_of_In, List.filter_In in Hin as [Hin _].
    by apply list_elem_of_In in Hin.
Qed.

Lemma for_each_ext {A S : Type} (f g : S → A → result S) (l : list A)
    (s : S) :
  (∀ s x, f s x = g s x) → for_each f s l = for_each g s l.
Proof.
  intros Hfg. revert s. induction l as [|x l IH]; intros s; simpl; [done|].
  rewrite Hfg. destruct (g s x); simpl; [apply IH|done].
Qed.

Lemma object_data_without db obj rank_list bucket :
  py_in "object" rank_list = false ∨ is_person obj = false →
  collect_object_data db obj rank_list bucket
  = collect_object_data db obj (without_person_keywords rank_list) bucket.
Proof.
  intros Hgate. unfold collect_object_data.
  rewrite !(py_in_without_person_keywords "object"),
    !(py_in_without_person_keywords "ordinances"),
    !(py_in_without_person_keywords "attributes"),
    !(py_in_without_person_keywords "media") by reflexivity.
  assert (py_in "object" rank_list && is_person obj = false) as ->.
  { destruct Hgate as [-> | ->]; [done|apply andb_false_r]. }
  done.
Qed.

Lemma person_data_without db person rank_list buckets :
  py_in "object" rank_list = false →
  collect_person_data db person rank_list buckets false
  = collect_person_data db person (without_person_keywords rank_list)
      buckets false.
Proof.
  intros Hobj. unfold collect_person_data. destruct buckets as [ob eb].
  rewrite <- object_data_without by by left. done.
Qed.

Lemma spouse_data_without db rank_list (h : option Handle) buckets :
  py_in "object" rank_list = false →
  (match handle_set h with
   | Some h' =>
       if bool_decide (Some h' ≠ None)
       then person ← get_person_from_handle db h';
            collect_person_data db person rank_list buckets false
       else Ok buckets
   | None => Ok buckets
   end)
  = (match handle_set h with
     | Some h' =>
         if bool_decide (Some h' ≠ None)
         then person ← get_person_from_handle db h';
              collect_person_data db person
                (without_person_keywords rank_list) buckets false
         else Ok buckets
     | None => Ok buckets
     end).
Proof.
  intros Hobj. destruct (handle_set h) as [h'|]; [|done].
  destruct (bool_decide (Some h' ≠ None)); [|done].
  destruct (get_person_from_handle db h'); simpl; [|done].
  by apply person_data_without.
Qed.

Lemma bind_ext {A B : Type} (m1 m2 : result A) (k1 k2 : A → result B) :
  m1 = m2 → (∀ a, k1 a = k2 a) → m1 ≫= k1 = m2 ≫= k2.
Proof. intros -> Hk. destruct m2; simpl; [apply Hk|done]. Qed.

(** X20: the names, the associations and the addresses of a person are
    ranked only where the rank list holds [object] as well: for a rank
    list without it, and for any family, the three keywords change nothing
    in the rows collected. *)
Theorem person_keywords_need_object (db : Db) (obj : Primary)
    (rank_list : list string) (bucket : list ObjectRow) :
  (("object" ∉ rank_list ∨ is_person obj = false) →
   collect_object_data db obj rank_list bucket
   = collect_object_data db obj (without_person_keywords rank_list) bucket)
  ∧ ("object" ∉ rank_list →
     collect_primary_object_data db obj rank_list
     = collect_primary_object_data db obj
         (without_person_keywords rank_list)).
Proof.
  split.
  - intros [Hobj|Hfam]; apply object_data_without; [left|by right].
    by apply py_in_false.
  - intros Hobj. apply py_in_false in Hobj.
    unfold collect_primary_object_data. destruct obj as [p|f].
    + unfold collect_person_data.
      rewrite (py_in_without_person_keywords "object") by reflexivity.
      rewrite Hobj.
      apply bind_ext; [by apply object_data_without; left|]. intros ob.
      apply bind_ext; [done|]. intros eb.
      apply for_each_ext. intros [ob1 eb1] h.
      apply bind_ext; [done|]. intros family.
      apply bind_ext; [by apply object_data_without; left|done].
    + unfold collect_family_data.
      rewrite (py_in_without_person_keywords "spouses"),
        (py_in_without_person_keywords "children") by reflexivity.
      apply bind_ext; [by apply object_data_without; left|]. intros ob.
      apply bind_ext; [done|]. intros eb.
      apply bind_ext.
      * destruct (py_in "spouses" rank_list); [|done].
        apply bind_ext; [by apply spouse_data_without|].
        intros b. by apply spouse_data_without.
      * intros b. destruct (py_in "children" rank_list); [|done].
        apply for_each_ext. intros b1 child_ref.
        apply bind_ext; [done|]. intros child.
        by apply person_data_without.
Qed.

(** ** The family events of a person *)

Lemma family_events_loop db refs events events' :
  for_each
    (λ events event_ref,
       event ← get_event_from_handle db (ref event_ref);
       Ok (events ++ [event]))
    events refs = Ok events' →
  ∃ added, events_at db refs added ∧ events' = events ++ added.
Proof.
  revert events. induction refs as [|r refs IH]; intros events H.
  - injection H as <-. exists []. split; [constructor|].
    by rewrite app_nil_r.
  - simpl in H. apply bind_Ok in H as (events1 & Hstep & H).
    apply bind_Ok in Hstep as (event & Hevent & [= <-]).
    apply of_option_Ok in Hevent.
    destruct (IH _ H) as (added & Hat & ->).
    exists (event :: added). split; [by constructor|].
    by rewrite <- app_assoc.
Qed.

Lemma extract_family_steps db handles st st' :
  for_each (extract_family_step db) st handles = Ok st' →
  ∃ families family_events,
    families_at db handles families
    ∧ Forall2 (λ f events, events_at db (family_event_ref_list f) events)
        families family_events
    ∧ snd <$> st'.1 = (snd <$> st.1) ++ accumulated st.2 family_events.
Proof.
  revert st. induction handles as [|h handles IH]; intros st H.
  - injection H as <-. exists [], []. split; [constructor|].
    split; [constructor|]. by rewrite app_nil_r.
  - simpl in H. apply bind_Ok in H as (st1 & Hstep & H).
    unfold extract_family_step in Hstep.
    apply bind_Ok in Hstep as (family & Hfamily & Hstep).
    apply of_option_Ok in Hfamily.
    apply bind_Ok in Hstep as (events & Hevents & Hstep).
    apply bind_Ok in Hstep as (keyed & Hkeyed & [= <-]).
    apply family_events_loop in Hevents as (added & Hat & ->).
    apply prepare_event_sortvals_events in Hkeyed.
    destruct (IH _ H) as (families & family_events & Hfams & Hevs & Hst).
    exists (family :: families), (added :: family_events).
    split; [by constructor|]. split; [by constructor|].
    rewrite Hst. simpl. by rewrite fmap_app, Hkeyed, <- app_assoc.
Qed.

(** X21: the list of events that [extract_person_events] keys is not
    emptied between two families: after the person's own events, the keyed
    list holds for each family of the person the events of all the
    families before it once more, keyed with that family, and then its
    own. *)
Theorem family_events_accumulate (db : Db) (person : Person)
    (keyed : list Keyed) (birth death : option Event) :
  extract_person_events db person = Ok (keyed, birth, death) →
  ∃ own families family_events,
    events_at db (person_event_ref_list person) own
    ∧ families_at db (family_list person) families
    ∧ Forall2 (λ f events, events_at db (family_event_ref_list f) events)
        families family_events
    ∧ snd <$> keyed = own ++ accumulated [] family_events.
Proof.
  unfold extract_person_events. intros H.
  apply bind_Ok in H as (v & Hv & H).
  apply bind_Ok in H as (own & Hown & H).
  apply bind_Ok in H as (st & Hst & [= <- <- <-]).
  apply extract_steps_vitals in Hv as ((events & Hat & Hev) & _); try done.
  simpl in Hev. subst events.
  apply prepare_event_sortvals_events in Hown.
  apply extract_family_steps in Hst
    as (families & family_events & Hfams & Hevs & Hkeys).
  exists (v_events v), families, family_events.
  split; [exact Hat|]. split; [exact Hfams|]. split; [exact Hevs|].
  simpl in Hkeys. by rewrite Hkeys, Hown.
Qed.

End Engine.

(** * The properties at the sample data *)

(** The string helpers at the strings the code gives them. *)
Example menu_key_of_life_events :
  str_replace "life events" "vital" (str_lower "Life Events") = "vital"
  ∧ str_replace "life events" "vital" (str_lower "Family") = "family".
Proof. split; reflexivity. Qed.

Example split_of_dates :
  str_split "-" "1900/01/01-1950/12/31" = ["1900/01/01"; "1950/12/31"]
  ∧ str_split "/" "1900/01/01" = ["1900"; "01"; "01"]
  ∧ str_split "-" "-1950/12/31" = [""; "1950/12/31"]
  ∧ str_split "-" "" = [""]
  ∧ str_contains "father" "grandfather" = true
  ∧ str_contains "son" "daughter" = false.
Proof. repeat split; reflexivity. Qed.

(** The sample store: the ranking of the tenant with the rank list
    [["events"]] and the required list [["Death"]]. Both residences are
    counted, the second one although it is not primary. *)
Example tenant_ranking :
  get_status_ranking sample_type_str sample_gettext sample_get_confidence
    sample_ranking_db (PersonObj sample_tenant) (Some ["events"]) None 0
    (Some ["Death"])
  = Ok (4, 5, ["Death"], []).
Proof. vm_compute. reflexivity. Qed.

(** A birth and a death row take the two vital slots whether or not the
    rows are counted themselves: neither event of the stranger is the
    preferred one, so neither row is primary, and nothing is ranked. *)
Example unpreferred_vitals_take_slots :
  get_status_ranking sample_type_str sample_gettext sample_get_confidence
    sample_ranking_db (PersonObj sample_stranger) (Some ["Birth"; "Death"])
    None 0 None
  = Ok (0, 0, [], []).
Proof. vm_compute. reflexivity. Qed.

(** C1 as worded fails: the row of the second residence is not primary,
    and with the keyword [events] in the rank list it still adds one item
    and its highest confidence to the sums; the rule as worded would count
    one row of the tenant's bucket, the code counts two. *)
Lemma nonprimary_row_is_ranked :
  let scan :=
    scan_event sample_type_str sample_gettext sample_get_confidence
      ["events"] [] 0 [] in
  let row := sample_home2_row in
  let s' := scan scan_start row in
  ¬ ((total_rank_items s' = total_rank_items scan_start + 1
      ∧ total_rank_confidence s'
        = total_rank_confidence scan_start + ev_highest_confidence row)
     ↔ (ev_primary row = true
        ∧ (xml_str (ev_event_type row) ∈ ["events"]
           ∨ "events" ∈ ["events"])))
  ∧ (∃ object_bucket events_bucket,
       collect_primary_object_data sample_gettext sample_ranking_db
         (PersonObj sample_tenant) ["events"]
       = Ok (object_bucket, events_bucket)
       ∧ row ∈ events_bucket
       ∧ length (List.filter (counts_for_rank_as_specified ["events"])
                   events_bucket) = 1%nat
       ∧ length (ranked_rows ["events"] events_bucket) = 2%nat).
Proof.
  cbv zeta. split.
  - intros [H _]. simpl in H.
    assert (false = true ∧ ("Residence" ∈ ["events"] ∨ "events" ∈ ["events"]))
      as [Hfalse _]; [|discriminate].
    apply H. split; reflexivity.
  - eexists _, _. split; [vm_compute; reflexivity|].
    split; [|split; vm_compute; reflexivity].
    right. left.
Qed.

Lemma missing_alerts_exact_witness :
  ∃ object_bucket events_bucket,
    collect_primary_object_data sample_gettext sample_ranking_db
      (PersonObj sample_tenant) (default [] (Some ["events"]))
      = Ok (object_bucket, events_bucket)
    ∧ (∀ item, item ∈ ["Death"]
               ↔ item ∈ default [] (Some ["Death"])
                 ∧ ¬ primary_name_in events_bucket item)
    ∧ (∃ keep, ["Death"] = List.filter keep (default [] (Some ["Death"])))
    ∧ (∀ p, PersonObj sample_tenant = PersonObj p →
            Some ["Death"] = Some ["Death"] →
            (∀ e, person_reads_event sample_ranking_db p e
                  → xml_str (type e) ≠ "Death") →
            ["Death"] = ["Death"]).
Proof.
  apply (missing_alerts_exact sample_type_str sample_gettext
           sample_get_confidence sample_ranking_db (PersonObj sample_tenant)
           (Some ["events"]) None 0 (Some ["Death"]) 4 5 ["Death"] []).
  vm_compute. reflexivity.
Defined.

(** The sample timeline is what the constructor builds. *)
Example sample_timeline_constructed :
  ∃ tl,
    __init__ sample_event_types sample_event_map sample_menu sample_mk_date
      sample_py_int sample_db (Some "1900/01/01-1950/12/31")
      (Some ["Residence"]) (Some ["daughter"]) None 1 = Ok tl
    ∧ start_date tl = start_date sample_bounded
    ∧ end_date tl = end_date sample_bounded
    ∧ event_filters tl = event_filters sample_bounded
    ∧ eligible_events tl = eligible_events sample_bounded
    ∧ eligible_relative_events tl = eligible_relative_events sample_bounded.
Proof.
  eexists. split; [vm_compute; reflexivity|].
  repeat split; vm_compute; reflexivity.
Qed.

Lemma timeline_within_bounds_witness :
  ∃ tl',
    run sample_type_str_de sample_relationship sample_alive_range 5
      (SetPerson "I10" 0 0) [AddPerson "I11"] sample_bounded = Ok tl'
    ∧ start_date tl' = Some (sample_mk_date 1900 1 1)
    ∧ end_date tl' = Some (sample_mk_date 1950 12 31)
    ∧ ∀ entries, (events true tl').1 = RawEvents entries →
                 ∀ entry, entry ∈ entries →
                          sortval (sample_mk_date 1900 1 1) ≤ entry.1
                          ≤ sortval (sample_mk_date 1950 12 31).
Proof.
  destruct (run sample_type_str_de sample_relationship sample_alive_range 5
              (SetPerson "I10" 0 0) [AddPerson "I11"] sample_bounded)
    as [tl'|e] eqn:Hrun; [|vm_compute in Hrun; discriminate].
  exists tl'. split; [reflexivity|].
  apply (timeline_within_bounds sample_type_str_de sample_relationship
           sample_alive_range 5 (SetPerson "I10" 0 0) [AddPerson "I11"]
           sample_bounded tl' (sample_mk_date 1900 1 1)
           (sample_mk_date 1950 12 31));
    [reflexivity|reflexivity|exact Hrun].
Defined.

(** In that run the birth of Anna is her chosen birth and fails the
    eligibility test, so the override applies to it; it lies before the
    start bound and is not in the timeline. *)
Example overridden_birth_out_of_bounds :
  ∃ tl',
    run sample_type_str_de sample_relationship sample_alive_range 5
      (SetPerson "I10" 0 0) [AddPerson "I11"] sample_bounded = Ok tl'
    ∧ extract_person_events sample_db sample_anna ≫= (λ r, Ok r.1.2)
      = Ok (Some sample_anna_birth)
    ∧ is_eligible sample_type_str_de sample_bounded sample_anna_birth false
      = false
    ∧ handles_of (timeline tl') = ["ER"; "EC"].
Proof.
  eexists. split; [vm_compute; reflexivity|].
  repeat split; vm_compute; reflexivity.
Qed.

(** Every reference of the sample store resolves, and Anna's own events
    are dated or no unions. *)
Lemma sample_db_resolves : refs_resolve sample_db.
Proof.
  split.
  - intros h p Hp. simpl in Hp.
    repeat case_bool_decide; try discriminate; injection Hp as <-;
      split; intros r Hr; vm_compute in Hr;
      repeat (apply elem_of_cons in Hr as [->|Hr]);
      try (by apply elem_of_nil in Hr); eexists; reflexivity.
  - intros h f Hf. simpl in Hf.
    repeat case_bool_decide; try discriminate; injection Hf as <-;
      split; intros r Hr; vm_compute in Hr;
      repeat (apply elem_of_cons in Hr as [->|Hr]);
      try (by apply elem_of_nil in Hr); eexists; reflexivity.
Qed.

Lemma sample_anna_unions : own_union_dated sample_db sample_anna.
Proof.
  intros r e Hr He Hzero. vm_compute in Hr.
  repeat (apply elem_of_cons in Hr as [->|Hr]);
    try (by apply elem_of_nil in Hr);
    vm_compute in He; injection He as <-; discriminate.
Qed.

Lemma vital_events_included_witness :
  ∃ keyed tl',
    extract_person_events sample_db sample_anna
      = Ok (keyed, Some sample_anna_birth, Some sample_anna_death)
    ∧ set_person sample_type_str_de sample_relationship sample_alive_range 5
        "I10" 0 0 sample_timeline = Ok tl'
    ∧ is_eligible sample_type_str_de sample_timeline sample_anna_birth false
      = false
    ∧ handle sample_anna_birth ∈ handles_of (timeline tl')
    ∧ handle sample_anna_death ∈ handles_of (timeline tl').
Proof.
  destruct (vital_events_included sample_type_str_de sample_event_types
              sample_event_map sample_menu sample_relationship
              sample_alive_range 5 "I10" sample_timeline sample_anna
              eq_refl eq_refl sample_db_resolves eq_refl sample_anna_unions)
    as [(keyed & birth & death & tl' & Hextract & Hset & Hbirth & Hdeath) _].
  assert (birth = Some sample_anna_birth ∧ death = Some sample_anna_death)
    as [-> ->].
  { vm_compute in Hextract. injection Hextract as _ <- <-. done. }
  exists keyed, tl'. split; [exact Hextract|]. split; [exact Hset|].
  split; [vm_compute; reflexivity|].
  split; [by apply Hbirth|by apply Hdeath].
Defined.

Lemma event_handles_unique_witness :
  ∃ tl',
    run sample_type_str_de sample_relationship sample_alive_range 5
      (SetPerson "I10" 1 1) [AddPerson "I10"; AddFamily "F1" 0 0 true]
      sample_timeline = Ok tl'
    ∧ NoDup (handles_of (timeline tl'))
    ∧ (∀ entries, (events true tl').1 = RawEvents entries →
                  NoDup (handles_of entries)).
Proof.
  destruct (run sample_type_str_de sample_relationship sample_alive_range 5
              (SetPerson "I10" 1 1)
              [AddPerson "I10"; AddFamily "F1" 0 0 true] sample_timeline)
    as [tl'|e] eqn:Hrun; [|vm_compute in Hrun; discriminate].
  exists tl'. split; [reflexivity|].
  destruct (event_handles_unique sample_type_str_de sample_relationship
              sample_alive_range 5 (SetPerson "I10" 1 1)
              [AddPerson "I10"; AddFamily "F1" 0 0 true] sample_timeline tl'
              Hrun) as (Hnd & _ & Hraw & _).
  split; [exact Hnd|exact Hraw].
Defined.

(** That run, spelled out: Berta comes in as a daughter, and the second
    visit of Anna adds nothing. *)
Example sample_run_handles :
  ∃ tl',
    run sample_type_str_de sample_relationship sample_alive_range 5
      (SetPerson "I10" 1 1) [AddPerson "I10"; AddFamily "F1" 0 0 true]
      sample_timeline = Ok tl'
    ∧ handles_of (timeline tl') = ["EB"; "ER"; "ED"; "EC"].
Proof. eexists. split; vm_compute; reflexivity. Qed.

Lemma union_event_sort_key_witness :
  prepare_event_sortvals sample_db [sample_marriage; sample_divorce]
    (Some sample_family)
  = Ok [(19220414, sample_marriage); (19220416, sample_divorce)]
  ∧ ∃ k,
      [(19220414, sample_marriage); (19220416, sample_divorce)] !! 0%nat
      = Some (k, sample_marriage)
      ∧ k = sortval (date sample_baptism) - 1.
Proof.
  assert (prepare_event_sortvals sample_db [sample_marriage; sample_divorce]
            (Some sample_family)
          = Ok [(19220414, sample_marriage); (19220416, sample_divorce)])
    as Hprep by (vm_compute; reflexivity).
  split; [exact Hprep|].
  destruct (union_event_sort_key sample_db sample_family
              [sample_marriage; sample_divorce]
              [(19220414, sample_marriage); (19220416, sample_divorce)]
              0%nat sample_marriage Hprep eq_refl eq_refl)
    as (k & Hk & Hmarriage & _).
  exists k. split; [exact Hk|].
  apply (Hmarriage eq_refl
           {| child_ref_target := "I11"; child_ref_citations := [] |}
           sample_berta sample_baptism); try reflexivity; try done.
  exists [], {| event_ref_target := "EC" |}, [].
  split; [reflexivity|]. split; [constructor|]. split; reflexivity.
Defined.

(** The scan of a child's events stops at a birth fallback as it stops
    at a birth: Clara's undated baptism is listed before her dated birth,
    and the wedding of her parents gets the running counter, not the day
    before her birth. *)
Example fallback_listed_first_ends_scan :
  union_child_scan sample_db (person_event_ref_list sample_clara) None None
  = Ok (None, Some sample_clara_baptism)
  ∧ generate_union_event_sortval sample_db (Some sample_family2) true
    = Ok (Some 0)
  ∧ prepare_event_sortvals sample_db [sample_wedding] (Some sample_family2)
    = Ok [(1, sample_wedding)].
Proof. repeat split; vm_compute; reflexivity. Qed.

(** An undated marriage in the person's own event list: the list is keyed
    without a family. *)
Example own_undated_marriage_raises :
  prepare_event_sortvals sample_db [sample_anna_birth; sample_marriage] None
  = Raise AttributeError.
Proof. vm_compute. reflexivity. Qed.

Lemma dates_without_dash_ignored_witness :
  ("-"%char ∉ list_ascii_of_string "1900/01/01")
  ∧ parse_dates sample_mk_date sample_py_int (Some "1900/01/01")
    = Ok (None, None)
  ∧ ∀ tl,
      __init__ sample_event_types sample_event_map sample_menu
        sample_mk_date sample_py_int sample_db (Some "1900/01/01")
        (Some ["Residence"]) None None 1 = Ok tl →
      start_date tl = None ∧ end_date tl = None.
Proof.
  assert ("-"%char ∉ list_ascii_of_string "1900/01/01") as Hdash.
  { intros H. apply str_contains_dash in H. vm_compute in H. discriminate. }
  split; [exact Hdash|].
  destruct (dates_without_dash_ignored sample_event_types sample_event_map
              sample_menu sample_mk_date sample_py_int sample_db
              "1900/01/01" (Some ["Residence"]) None None 1 Hdash)
    as (Hparse & _ & Hinit & _).
  split; [exact Hparse|exact Hinit].
Defined.

(** Of [-1950/12/31] only the end is a bound; [1900-01-01] has two dashes
    and the unpacking of its three parts raises. *)
Example dates_with_dash :
  parse_dates sample_mk_date sample_py_int (Some "-1950/12/31")
  = Ok (None, Some (sample_mk_date 1950 12 31))
  ∧ parse_dates sample_mk_date sample_py_int (Some "1900-01-01")
    = Raise ValueError.
Proof. split; vm_compute; reflexivity. Qed.

Lemma unknown_filter_token_rejected_witness :
  _prepare_eligible_events sample_event_types sample_event_map sample_menu
    sample_db ["Residence"; "NotARealType"] = Raise ValueError
  ∧ ∃ eligible,
      _prepare_eligible_events sample_event_types sample_event_map
        sample_menu sample_db ["vital"; "Reunion"; "Residence"]
      = Ok eligible.
Proof.
  split.
  - apply (unknown_filter_token_rejected sample_event_types sample_event_map
             sample_menu sample_db ["Residence"; "NotARealType"]).
    exists "NotARealType". split; [by right; left|].
    unfold known_token. rewrite <- !py_in_true. vm_compute.
    intros [H|[H|H]]; discriminate.
  - apply (unknown_filter_token_rejected sample_event_types sample_event_map
             sample_menu sample_db ["vital"; "Reunion"; "Residence"]).
    intros key Hkey. unfold known_token. rewrite <- !py_in_true.
    rewrite !elem_of_cons in Hkey.
    destruct Hkey as [->|[->|[->|Hkey]]]; [| | |by apply elem_of_nil in Hkey];
      vm_compute; auto.
Defined.

(** The category [vital] stands for the types of the menu entry
    "Life Events". *)
Example vital_category_expands :
  match
    _prepare_eligible_events sample_event_types sample_event_map sample_menu
      sample_db ["vital"]
  with
  | Ok eligible =>
      bool_decide ("Baptism" ∈ eligible) && bool_decide ("Birth" ∈ eligible)
      && bool_decide ("Death" ∈ eligible)
      && negb (bool_decide ("Residence" ∈ eligible))
  | Raise _ => false
  end = true.
Proof. vm_compute. reflexivity. Qed.

(** ** The further properties on the sample data *)

Lemma citation_metrics_value_witness :
  get_citation_metrics sample_ranking_db sample_home1 = Ok (1, 3, 3).
Proof.
  destruct (citation_metrics_value sample_ranking_db sample_home1)
    as [Hvalue _].
  destruct (Hvalue [{| confidence := 3 |}]) as (highest & Hm & _).
  { repeat constructor. }
  vm_compute in Hm. injection Hm as <-. vm_compute. reflexivity.
Defined.

Lemma event_rows_primary_witness :
  ∃ rows,
    collect_event_data sample_ranking_db (PersonObj sample_stranger) []
      = Ok rows
    ∧ Forall2 (row_of_ref sample_ranking_db)
        (get_event_ref_list (PersonObj sample_stranger)) rows
    ∧ NoDup (primary_names rows).
Proof.
  destruct (collect_event_data sample_ranking_db (PersonObj sample_stranger)
              []) as [bucket'|e] eqn:Hc; [|vm_compute in Hc; discriminate].
  destruct (event_rows_primary sample_ranking_db (PersonObj sample_stranger)
              [] bucket' Hc) as (rows & -> & Hrows & Hnd & _).
  exists rows. split; [reflexivity|]. split; [exact Hrows|exact Hnd].
Defined.

Lemma confidence_alerts_exact_witness :
  ∃ object_bucket events_bucket,
    collect_primary_object_data sample_gettext sample_ranking_db
      (PersonObj sample_tenant) (default [] (Some ["events"]))
    = Ok (object_bucket, events_bucket)
    ∧ ∀ alert,
        alert ∈ [(sample_home1, "Residence: High")]
        ↔ ∃ row, row ∈ events_bucket
                 ∧ row_alert sample_type_str sample_gettext
                     sample_get_confidence (default [] (Some ["Residence"]))
                     4 row alert.
Proof.
  apply (confidence_alerts_exact sample_type_str sample_gettext
           sample_get_confidence sample_ranking_db (PersonObj sample_tenant)
           (Some ["events"]) (Some ["Residence"]) 4 None 4 5 []).
  vm_compute. reflexivity.
Defined.

Lemma rank_division_defined_witness : 0 ≤ 4 ∧ (5 ≠ 0 → 0 < 4).
Proof.
  apply (rank_division_defined sample_type_str sample_gettext
           sample_get_confidence sample_ranking_db (PersonObj sample_tenant)
           (Some ["events"]) (Some ["Residence"]) 4 None 4 5 []
           [(sample_home1, "Residence: High")]).
  vm_compute. reflexivity.
Defined.

Lemma rank_confidence_within_witness :
  confidence_within sample_ranking_db 3 ∧ 0 ≤ 5 ≤ 3 * 4.
Proof.
  assert (confidence_within sample_ranking_db 3) as Hwithin.
  { intros h c. simpl. repeat case_bool_decide; intros [= <-]; simpl; lia. }
  split; [exact Hwithin|].
  apply (rank_confidence_within sample_type_str sample_gettext
           sample_get_confidence sample_ranking_db 3
           (PersonObj sample_tenant) (Some ["events"]) (Some ["Residence"])
           4 None 4 5 [] [(sample_home1, "Residence: High")]);
    [exact Hwithin|lia|vm_compute; reflexivity].
Defined.

Lemma expansion_depth_bounded_witness :
  no_overflow
    (add_relative sample_type_str_de sample_relationship 4 "I11" 1 1
       sample_timeline)
  ∧ no_overflow
      (set_person sample_type_str_de sample_relationship sample_alive_range
         5 "I10" 1 1 sample_timeline).
Proof.
  destruct (expansion_depth_bounded sample_type_str_de sample_relationship
              sample_alive_range 4 "I11" 1 1 true sample_timeline)
    as [Hrel _].
  destruct (expansion_depth_bounded sample_type_str_de sample_relationship
              sample_alive_range 5 "I10" 1 1 true sample_timeline)
    as (_ & _ & Hset).
  split; [apply Hrel|apply Hset]; vm_compute; lia.
Defined.

Lemma add_person_again_witness :
  ∃ tl',
    add_person sample_type_str_de "I10" sample_timeline = Ok tl'
    ∧ add_person sample_type_str_de "I10" tl' = Ok tl'.
Proof.
  destruct (add_person sample_type_str_de "I10" sample_timeline)
    as [tl'|e] eqn:Hadd; [|vm_compute in Hadd; discriminate].
  exists tl'. split; [reflexivity|].
  by destruct (add_person_again sample_type_str_de "I10" sample_timeline tl'
                 Hadd) as [Hagain _].
Defined.

Lemma calls_only_append_witness :
  ∃ tl',
    for_each (call sample_type_str_de sample_relationship 5) sample_bounded
      [AddPerson "I10"; AddFamily "F1" 0 0 true; AddRelative "I11" 1 1]
    = Ok tl'
    ∧ continues sample_bounded tl'.
Proof.
  destruct (for_each (call sample_type_str_de sample_relationship 5)
              sample_bounded
              [AddPerson "I10"; AddFamily "F1" 0 0 true;
               AddRelative "I11" 1 1])
    as [tl'|e] eqn:Hcalls; [|vm_compute in Hcalls; discriminate].
  exists tl'. split; [reflexivity|].
  exact (calls_only_append sample_type_str_de sample_relationship 5 _ _ tl'
           Hcalls).
Defined.

Lemma vitals_chosen_witness :
  ∃ keyed birth death,
    extract_person_events sample_db sample_clara = Ok (keyed, birth, death)
    ∧ birth
      = chosen_vital is_birth is_birth_fallback
          [sample_clara_baptism; sample_clara_birth]
    ∧ birth = Some sample_clara_birth.
Proof.
  destruct (extract_person_events sample_db sample_clara)
    as [[[keyed birth] death]|e] eqn:Hex; [|vm_compute in Hex; discriminate].
  exists keyed, birth, death. split; [reflexivity|].
  destruct (vitals_chosen sample_db sample_clara keyed birth death Hex)
    as (events & own & more & Hat & _ & _ & Hbirth & _).
  assert (events = [sample_clara_baptism; sample_clara_birth]) as ->.
  { vm_compute in Hat.
    repeat match goal with
           | H : Forall2 _ (_ :: _) _ |- _ =>
               apply Forall2_cons_inv_l in H as (? & ? & [= <-] & H & ->)
           | H : Forall2 _ [] _ |- _ => apply Forall2_nil_inv_l in H as ->
           end.
    reflexivity. }
  split; [exact Hbirth|]. rewrite Hbirth. vm_compute. reflexivity.
Defined.

Lemma own_undated_union_raises_witness :
  extract_person_events sample_kin_db sample_dora = Raise AttributeError
  ∧ add_person sample_type_str_de "I20" sample_alone = Raise AttributeError
  ∧ set_person sample_type_str_de sample_relationship sample_alive_range 5
      "I20" 1 1 sample_alone = Raise AttributeError.
Proof.
  apply (own_undated_union_raises sample_type_str_de sample_relationship
           sample_alive_range 5 "I20" 1 1 sample_alone sample_dora
           [sample_clara_birth; sample_wedding]).
  - reflexivity.
  - repeat constructor.
  - right. left. split; reflexivity.
Defined.

Lemma event_keys_follow_witness :
  ∃ keyed,
    prepare_event_sortvals sample_db sample_homes None = Ok keyed
    ∧ length keyed = length sample_homes
    ∧ ∃ k, keyed !! 1%nat = Some (k, sample_home2)
           ∧ k = last_known_key sample_homes keyed 1 + 1.
Proof.
  destruct (prepare_event_sortvals sample_db sample_homes None)
    as [keyed|e] eqn:Hprep; [|vm_compute in Hprep; discriminate].
  exists keyed. split; [reflexivity|].
  destruct (event_keys_follow sample_db sample_homes None keyed Hprep)
    as [Hlen Hkeys].
  split; [exact Hlen|].
  destruct (Hkeys 1%nat sample_home2 eq_refl) as (k & Hat & _ & Hk).
  exists k. split; [exact Hat|]. by apply Hk.
Defined.

Lemma leading_undated_keys_witness :
  ∃ keyed,
    prepare_event_sortvals sample_db sample_homes None = Ok keyed
    ∧ keyed !! 2%nat = Some (19200101, sample_anna_home)
    ∧ keyed !! 1%nat = Some (19200101, sample_home2)
    ∧ keyed !! 0%nat = Some (19200100, sample_home1).
Proof.
  destruct (prepare_event_sortvals sample_db sample_homes None)
    as [keyed|e] eqn:Hprep; [|vm_compute in Hprep; discriminate].
  exists keyed. split; [reflexivity|].
  destruct (leading_undated_keys sample_db sample_homes None keyed 2
              sample_anna_home Hprep eq_refl) as [Hlast Hlead].
  - vm_compute. discriminate.
  - intros [|[|j]] e' Hj He'; [| |lia]; injection He' as <-;
      repeat split; reflexivity.
  - split; [exact Hlast|]. split.
    + exact (Hlead 1%nat sample_home2 ltac:(lia) eq_refl).
    + exact (Hlead 0%nat sample_home1 ltac:(lia) eq_refl).
Defined.

Lemma eligible_events_exact_witness :
  ∃ eligible,
    _prepare_eligible_events sample_event_types sample_event_map sample_menu
      sample_db ["vital"; "Residence"] = Ok eligible
    ∧ "Baptism" ∈ eligible
    ∧ "Marriage" ∉ eligible.
Proof.
  destruct (_prepare_eligible_events sample_event_types sample_event_map
              sample_menu sample_db ["vital"; "Residence"])
    as [eligible|e] eqn:Hprep; [|vm_compute in Hprep; discriminate].
  exists eligible. split; [reflexivity|].
  pose proof (eligible_events_exact sample_event_types sample_event_map
                sample_menu sample_db ["vital"; "Residence"] eligible Hprep)
    as Hexact.
  split.
  - apply Hexact. right. right. right. left.
    exists ("Life Events", [12; 15; 13]), 15. split; [left|].
    split; [vm_compute; left|]. split; [right; left|reflexivity].
  - intros Hin. apply Hexact in Hin
      as [Hin|[Hin|[[Hin _]|[(entry & i & Hentry & Hkey & Hi & Hname)
                             |[Hin _]]]]];
      try discriminate.
    + repeat (apply elem_of_cons in Hin as [Hin|Hin]; [discriminate|]).
      by apply elem_of_nil in Hin.
    + repeat (apply elem_of_cons in Hentry as [->|Hentry]);
        [| | |by apply elem_of_nil in Hentry];
        vm_compute in Hkey;
        repeat (apply elem_of_cons in Hkey as [Hkey|Hkey];
                [try discriminate|]);
        try (by apply elem_of_nil in Hkey).
      simpl in Hi.
      repeat (apply elem_of_cons in Hi as [->|Hi]; [discriminate|]).
      by apply elem_of_nil in Hi.
    + repeat (apply elem_of_cons in Hin as [Hin|Hin]; [discriminate|]).
      by apply elem_of_nil in Hin.
Defined.

Lemma constructed_eligibility_witness :
  ∃ tl,
    __init__ sample_event_types sample_event_map sample_menu sample_mk_date
      sample_py_int sample_db None None (Some ["daughter"]) None 1 = Ok tl
    ∧ is_eligible sample_type_str tl sample_anna_home false = true
    ∧ is_eligible sample_type_str tl sample_anna_home true ≠ true
    ∧ is_eligible sample_type_str tl sample_anna_death true = true.
Proof.
  destruct (__init__ sample_event_types sample_event_map sample_menu
              sample_mk_date sample_py_int sample_db None None
              (Some ["daughter"]) None 1)
    as [tl|e] eqn:Hinit; [|vm_compute in Hinit; discriminate].
  exists tl. split; [reflexivity|].
  pose proof (constructed_eligibility sample_type_str sample_event_types
                sample_event_map sample_menu sample_mk_date sample_py_int
                sample_db None None (Some ["daughter"]) None 1 tl Hinit)
    as Hel.
  split; [|split].
  - destruct (Hel sample_anna_home) as [Hown _]. apply Hown. by left.
  - destruct (Hel sample_anna_home) as (_ & _ & Hrel).
    intros Hyes. apply (Hrel eq_refl) in Hyes as [Hyes|Hyes]; discriminate.
  - destruct (Hel sample_anna_death) as (_ & _ & Hrel).
    apply (Hrel eq_refl). by right.
Defined.

Lemma dates_refused_witness :
  parse_dates sample_mk_date sample_py_int (Some "1900-01-01")
  = Raise ValueError
  ∧ parse_dates sample_mk_date sample_py_int (Some "1900/01-1950/12/31")
    = Raise ValueError.
Proof.
  split.
  - destruct (dates_refused sample_mk_date sample_py_int "1900-01-01")
      as [Hmany _].
    apply Hmany. vm_compute. lia.
  - destruct (dates_refused sample_mk_date sample_py_int
                "1900/01-1950/12/31") as (_ & Hside & _).
    apply (Hside "1900/01" "1950/12/31"); [reflexivity|].
    left. split; [reflexivity|]. vm_compute. lia.
Defined.

Lemma no_relatives_no_expansion_witness :
  ∃ tl0 tl',
    set_person sample_type_str_de sample_relationship sample_alive_range 3
      "I21" 0 0 sample_alone = Ok tl0
    ∧ set_person sample_type_str_de sample_relationship sample_alive_range 3
        "I21" 2 2 sample_alone = Ok tl'
    ∧ timeline tl' = timeline tl0.
Proof.
  destruct (set_person sample_type_str_de sample_relationship
              sample_alive_range 3 "I21" 0 0 sample_alone)
    as [tl0|e] eqn:Hset; [|vm_compute in Hset; discriminate].
  destruct (no_relatives_no_expansion sample_type_str_de sample_relationship
              sample_alive_range 2 "I21" 2 2 sample_alone tl0 sample_erna)
    as (_ & tl' & Hset' & Htl & _).
  - reflexivity.
  - reflexivity.
  - intros f Hf. apply list_elem_of_singleton in Hf as ->.
    vm_compute. by eexists.
  - exact Hset.
  - exists tl0, tl'. split; [reflexivity|]. split; [exact Hset'|exact Htl].
Defined.

Lemma family_without_reference_witness :
  set_family sample_type_str_de sample_relationship 0 "F1" 3 3
    sample_timeline
  = for_each (λ tl member, add_person sample_type_str_de member tl)
      (assign_run sample_timeline "family") ["I10"; "I11"].
Proof.
  destruct (family_without_reference sample_type_str_de sample_relationship
              0 "F1" 3 3 true sample_timeline eq_refl) as (_ & Hset & _).
  rewrite Hset. reflexivity.
Defined.

Lemma derived_bounds_witness :
  ∃ tl',
    set_person sample_type_str_de sample_relationship sample_alive_range 5
      "I10" 1 1 sample_timeline = Ok tl'
    ∧ start_date tl' = Some (date sample_anna_birth)
    ∧ end_date tl' = Some (date sample_anna_death)
    ∧ reference_person tl' = Some sample_anna
    ∧ depth tl' = 2.
Proof.
  destruct (set_person sample_type_str_de sample_relationship
              sample_alive_range 5 "I10" 1 1 sample_timeline)
    as [tl'|e] eqn:Hset; [|vm_compute in Hset; discriminate].
  destruct (extract_person_events sample_db sample_anna)
    as [[[keyed birth] death]|e] eqn:Hex; [|vm_compute in Hex; discriminate].
  assert (1 ≠ 0 ∨ 1 ≠ 0) as Hgen by (left; lia).
  destruct (derived_bounds sample_type_str_de sample_relationship
              sample_alive_range 5 "I10" 1 1 sample_timeline tl' sample_anna
              keyed birth death eq_refl eq_refl Hgen eq_refl Hex Hset)
    as (Hstart & Hend & Href & Hdepth).
  exists tl'. split; [reflexivity|].
  vm_compute in Hex. injection Hex as <- <- <-.
  split; [exact Hstart|]. split; [|split; [exact Href|exact Hdepth]].
  destruct Hend as (entry & Hlast & Hend & _).
  vm_compute in Hlast. injection Hlast as <-. exact Hend.
Defined.

Lemma person_keywords_need_object_witness :
  collect_primary_object_data sample_gettext sample_ranking_db
    (PersonObj sample_tenant) ["names"; "media"]
  = collect_primary_object_data sample_gettext sample_ranking_db
      (PersonObj sample_tenant) ["media"].
Proof.
  destruct (person_keywords_need_object sample_gettext sample_ranking_db
              (PersonObj sample_tenant) ["names"; "media"] [])
    as [_ Hprimary].
  apply Hprimary. apply py_in_false. reflexivity.
Defined.

Lemma family_events_accumulate_witness :
  ∃ keyed birth death,
    extract_person_events sample_db sample_gerda = Ok (keyed, birth, death)
    ∧ snd <$> keyed
      = [sample_marriage; sample_divorce]
        ++ [sample_marriage; sample_divorce; sample_wedding].
Proof.
  destruct (extract_person_events sample_db sample_gerda)
    as [[[keyed birth] death]|e] eqn:Hex; [|vm_compute in Hex; discriminate].
  exists keyed, birth, death. split; [reflexivity|].
  destruct (family_events_accumulate sample_db sample_gerda keyed birth death
              Hex) as (own & families & family_events & Hown & Hfams & Hevs
                       & ->).
  vm_compute in Hown, Hfams.
  apply Forall2_nil_inv_l in Hown as ->.
  apply Forall2_cons_inv_l in Hfams as (f1 & fs & [= <-] & Hfams & ->).
  apply Forall2_cons_inv_l in Hfams as (f2 & fs' & [= <-] & Hfams & ->).
  apply Forall2_nil_inv_l in Hfams as ->.
  apply Forall2_cons_inv_l in Hevs as (e1 & es & He1 & Hevs & ->).
  apply Forall2_cons_inv_l in Hevs as (e2 & es' & He2 & Hevs & ->).
  apply Forall2_nil_inv_l in Hevs as ->.
  vm_compute in He1, He2.
  apply Forall2_cons_inv_l in He1 as (x1 & l1 & [= <-] & He1 & ->).
  apply Forall2_cons_inv_l in He1 as (x2 & l2 & [= <-] & He1 & ->).
  apply Forall2_nil_inv_l in He1 as ->.
  apply Forall2_cons_inv_l in He2 as (y1 & m1 & [= <-] & He2 & ->).
  apply Forall2_nil_inv_l in He2 as ->.
  reflexivity.
Defined.

(** ** Where the code leaves what is asked of it *)

(** C3: a person whose own event list holds a marriage without a date
    gets no timeline. Dora's list is her birth and a wedding that has no
    date; no bound is set; the birth the timeline is to hold is her birth.
    [set_person] raises AttributeError, whatever the generations and the
    nesting allowed: her events are keyed without a family, and the
    wedding asks the absent family for its children. For Berta, who has a
    baptism and no birth and no union of her own, the call returns and the
    timeline holds the baptism, which the filters do not let in. *)
Theorem own_undated_union_breaks_set_person (fuel : nat)
    (ancestors offspring : Z) :
  person_table (db_handle sample_alone) "I20" = Some sample_dora
  ∧ events_at (db_handle sample_alone) (person_event_ref_list sample_dora)
      [sample_clara_birth; sample_wedding]
  ∧ start_date sample_alone = None ∧ end_date sample_alone = None
  ∧ chosen_vital is_birth is_birth_fallback
      [sample_clara_birth; sample_wedding] = Some sample_clara_birth
  ∧ set_person sample_type_str sample_relationship sample_alive_range fuel
      "I20" ancestors offspring sample_alone = Raise AttributeError
  ∧ chosen_vital is_birth is_birth_fallback [sample_baptism]
    = Some sample_baptism
  ∧ is_eligible sample_type_str sample_alone sample_baptism false = false
  ∧ ∃ tl',
      set_person sample_type_str sample_relationship sample_alive_range fuel
        "I11" 0 0 sample_alone = Ok tl'
      ∧ handles_of (timeline tl') = [handle sample_baptism].
Proof.
  split; [reflexivity|]. split; [repeat constructor|].
  split; [reflexivity|]. split; [reflexivity|].
  split; [vm_compute; reflexivity|]. split; [reflexivity|].
  split; [vm_compute; reflexivity|]. split; [vm_compute; reflexivity|].
  eexists. split; vm_compute; reflexivity.
Qed.

(** C8: a child whose baptism is listed before the birth. The birth (or
    birth fallback) event of Frieda is her birth, of 1 April 1922, and
    [extract_person_events] chooses it; the marriage of her parents, which
    has no date, is to get the key 19220400 and the divorce 19220402. The
    scan of [generate_union_event_sortval] stops at the baptism, of 15
    April: the marriage gets 19220414 and the divorce 19220416. Clara's
    baptism has no date and is listed before her birth of 1 January 1921:
    the wedding of her parents gets the running counter, 1, and not
    19210100. *)
Theorem fallback_listed_first_keys_union :
  head (child_ref_list sample_family3)
  = Some {| child_ref_target := "I23"; child_ref_citations := [] |}
  ∧ person_table sample_scan_db "I23" = Some sample_frieda
  ∧ child_birth sample_scan_db sample_frieda sample_frieda_birth
  ∧ (∃ keyed,
       extract_person_events sample_scan_db sample_frieda
       = Ok (keyed, Some sample_frieda_birth, None))
  ∧ sortval (date sample_frieda_birth) - 1 = 19220400
  ∧ sortval (date sample_frieda_birth) + 1 = 19220402
  ∧ generate_union_event_sortval sample_scan_db (Some sample_family3) true
    = Ok (Some 19220414)
  ∧ prepare_event_sortvals sample_scan_db [sample_marriage; sample_divorce]
      (Some sample_family3)
    = Ok [(19220414, sample_marriage); (19220416, sample_divorce)]
  ∧ child_birth sample_scan_db sample_clara sample_clara_birth
  ∧ sortval (date sample_clara_birth) - 1 = 19210100
  ∧ prepare_event_sortvals sample_scan_db [sample_wedding]
      (Some sample_family2)
    = Ok [(1, sample_wedding)].
Proof.
  split; [reflexivity|]. split; [reflexivity|]. split.
  { exists [sample_baptism; sample_frieda_birth].
    split; [repeat constructor|reflexivity]. }
  split; [eexists; vm_compute; reflexivity|].
  split; [reflexivity|]. split; [reflexivity|].
  split; [vm_compute; reflexivity|]. split; [vm_compute; reflexivity|].
  split.
  { exists [sample_clara_baptism; sample_clara_birth].
    split; [repeat constructor|reflexivity]. }
  split; [reflexivity|]. vm_compute. reflexivity.
Qed.
